(** * bandit-joeynmt: reward engine, vocabulary builder, beam tiler and
      weighted corpus assembler

    A shallow embedding of [joeynmt/metrics.py] ([f1_bin],
    [token_edit_reward], [token_lcs_reward], [token_recall_reward]) and of
    [joeynmt/helpers.py] ([build_vocab], [WeightedTranslationDataset],
    [tile]), and the properties of these functions; then of the rest of
    the two files ([chrf], [bleu], [token_accuracy], [sequence_accuracy],
    [array_to_sentence], [arrays_to_sentences], [subsequent_mask],
    [MonoDataset], [bpe_postprocess], [get_latest_checkpoint],
    [load_data]) with further properties.

    Conventions of the embedding:
    - Python ints are [Z]; positions, lengths and sizes are [nat].
    - The float cells of the reward grids are exact rationals [Q]: the only
      float operations on them are [1 - d / L] and [0 + r].  The floats of
      [f1_bin], where a division by zero gives [inf] or [nan], are
      [float64]: rationals extended with the infinities and not-a-number.
      The floats of [chrf] and [bleu] are a type with its own addition and
      division, so that nothing is said of them that rounding could undo.
    - A two-dimensional numpy array is a record of its [shape] and its
      [rows]; [wf_ndarray] says that the rows agree with the shape.  A torch
      tensor is its [size], its [stride] and its elements in the row-major
      order of their indices; [view] succeeds when torch can give the new
      size a stride over the same memory, and [contiguous] copies a tensor
      that is not laid out in row-major order.
    - A raised Python exception is the [Raise] branch of [result].
    - What lies outside the two files (the special tokens, the [Vocabulary]
      class, [str.strip], [str.split], [float], [np.exp], the fields of
      torchtext) is a parameter of the function that uses it. *)

From Stdlib Require Import String Ascii OrderedTypeEx.
From Stdlib Require Import List ZArith QArith Lia Lqa Bool Arith.
From Stdlib Require Import Permutation Sorted.
Import ListNotations.

Close Scope Q_scope.
Close Scope string_scope.

Set Implicit Arguments.

(** ** Exceptions *)

Inductive exn : Set :=
| AssertionError
| IndexError
| ValueError
| RuntimeError.

Inductive result (A : Type) : Type :=
| Ok (a : A)
| Raise (e : exn).

Arguments Ok {A} a.
Arguments Raise {A} e.

Definition bind {A B : Type} (r : result A) (k : A -> result B) : result B :=
  match r with
  | Ok a => k a
  | Raise e => Raise e
  end.

Notation "x <- r ;; k" := (bind r (fun x => k))
  (at level 61, r at next level, right associativity).

Definition assert (b : bool) : result unit :=
  if b then Ok tt else Raise AssertionError.

(** ** Lists the way Python indexes them *)

Section PyList.
Context {A : Type}.

(** [enumerate(l)], counting from [a]. *)
Definition enumerate_from (a : nat) (l : list A) : list (nat * A) :=
  combine (seq a (length l)) l.

Definition enumerate (l : list A) : list (nat * A) := enumerate_from 0 l.

(** [l[n] = f(l[n])]; every use below is in range. *)
Fixpoint update_nth (n : nat) (f : A -> A) (l : list A) : list A :=
  match l, n with
  | [], _ => []
  | x :: t, O => f x :: t
  | x :: t, S m => x :: update_nth m f t
  end.

Definition set_nth (n : nat) (v : A) (l : list A) : list A :=
  update_nth n (fun _ => v) l.

(** [l[lo:hi] = v] on a one-dimensional array, [0 <= lo], [0 <= hi]. *)
Definition slice_fill (lo hi : nat) (v : A) (l : list A) : list A :=
  map (fun ix => if (lo <=? fst ix) && (fst ix <? hi) then v else snd ix)
      (enumerate l).
End PyList.

(** ** Two-dimensional arrays *)

Record ndarray (A : Type) : Type := mk_ndarray {
  shape : nat * nat;
  rows : list (list A)
}.

Definition wf_ndarray {A} (a : ndarray A) : Prop :=
  length (rows a) = fst (shape a) /\
  Forall (fun r => length r = snd (shape a)) (rows a).

Definition shape_eqb (s t : nat * nat) : bool :=
  (fst s =? fst t) && (snd s =? snd t).

(** [np.zeros_like(a, dtype=float)] *)
Definition zeros_like {A} (a : ndarray A) : ndarray Q :=
  mk_ndarray (shape a) (repeat (repeat 0%Q (snd (shape a))) (fst (shape a))).

(** [a[j, k] = v] *)
Definition setitem2 {A} (j k : nat) (v : A) (a : ndarray A) : ndarray A :=
  mk_ndarray (shape a) (update_nth j (set_nth k v) (rows a)).

(** [a[j, k]] *)
Definition getitem2 {A} (a : ndarray A) (j k : nat) : option A :=
  match nth_error (rows a) j with
  | Some r => nth_error r k
  | None => None
  end.

(** ** metrics.py: token_edit_reward *)

(** [p_i in g] on a numpy row. *)
Definition contains (g : list Z) (p_i : Z) : bool :=
  existsb (Z.eqb p_i) g.

(** [np.where(g == p_i)[0]]: the positions holding [p_i], increasing. *)
Definition np_where_eq (g : list Z) (p_i : Z) : list nat :=
  map fst (filter (fun ix => Z.eqb (snd ix) p_i) (enumerate g)).

(** [np.min] of a one-dimensional integer array; empty input raises. *)
Definition np_min (l : list Z) : result Z :=
  match l with
  | [] => Raise ValueError
  | x :: t => Ok (fold_left Z.min t x)
  end.

(** The body of the [elif] branch: the shift reward of id [p_i] predicted at
    [k], for gold row [g] and [L], the source's [length = gold.shape[1]]. *)
Definition shift_reward (L : nat) (g : list Z) (k : nat) (p_i : Z)
  : result Q :=
  let p_index := np_where_eq g p_i in
  m <- np_min (map (fun ix => (Z.of_nat k - Z.of_nat ix)%Z) p_index) ;;
  let closest_dist := Z.abs m in
  Ok (1 - inject_Z closest_dist / inject_Z (Z.of_nat L))%Q.

(** One iteration of the loop over time. *)
Definition edit_cell (shifted : bool) (L : nat) (g : list Z) (j : nat)
    (rewards : ndarray Q) (kx : nat * (Z * Z)) : result (ndarray Q) :=
  let '(k, (g_i, p_i)) := kx in
  if Z.eqb p_i g_i then Ok (setitem2 j k 1%Q rewards)
  else if contains g p_i && shifted then
    r <- shift_reward L g k p_i ;;
    Ok (setitem2 j k r rewards)
  else Ok rewards.

(** A [for] loop whose body may raise. *)
Fixpoint for_each {S X : Type} (body : S -> X -> result S) (l : list X)
    (s : S) : result S :=
  match l with
  | [] => Ok s
  | x :: t => s' <- body s x ;; for_each body t s'
  end.

(** One iteration of the loop over the batch. *)
Definition edit_row (shifted : bool) (L : nat) (rewards : ndarray Q)
    (jx : nat * (list Z * list Z)) : result (ndarray Q) :=
  let '(j, (g, p)) := jx in
  for_each (edit_cell shifted L g j) (enumerate (combine g p)) rewards.

(** The assertion on the shapes comes after [rewards] is allocated and
    before anything else. *)
Definition token_edit_reward (gold pred : ndarray Z) (shifted : bool)
  : result (ndarray Q) :=
  let rewards := zeros_like pred in
  _ <- assert (shape_eqb (shape gold) (shape pred)) ;;
  let L := snd (shape gold) in
  for_each (edit_row shifted L)
           (enumerate (combine (rows gold) (rows pred))) rewards.

(** ** metrics.py: token_recall_reward *)

Definition recall_cell (g : list Z) (j : nat) (rewards : ndarray Q)
    (kx : nat * Z) : ndarray Q :=
  let '(k, p_i) := kx in
  if contains g p_i then setitem2 j k 1%Q rewards else rewards.

Definition recall_row (rewards : ndarray Q) (jx : nat * (list Z * list Z))
  : ndarray Q :=
  let '(j, (g, p)) := jx in
  fold_left (recall_cell g j) (enumerate p) rewards.

(** No assertion on the shapes here: [zip] stops at the shorter of the two
    batches, and [p_i in g] asks nothing of the length of [g]. *)
Definition token_recall_reward (gold pred : ndarray Z) : result (ndarray Q) :=
  let rewards := zeros_like pred in
  Ok (fold_left recall_row (enumerate (combine (rows gold) (rows pred)))
                rewards).

(** ** metrics.py: token_lcs_reward *)

(** The state of the two nested loops of
    [longest_common_substring_rewards]: the table [m] and the two scalars. *)
Record lcs_state : Type := mk_lcs {
  m : list (list nat);
  longest : nat;
  x_longest : nat
}.

(** [m[x][y]], in range at every use. *)
Definition tbl_get (t : list (list nat)) (x y : nat) : nat :=
  nth y (nth x t []) 0.

(** [m[x][y] = v] *)
Definition tbl_set (t : list (list nat)) (x y v : nat) : list (list nat) :=
  update_nth x (set_nth y v) t.

(** The body of the inner loop, at [x] and [y]. *)
Definition lcs_cell (pred gold : list Z) (x : nat) (st : lcs_state) (y : nat)
  : lcs_state :=
  if Z.eqb (nth (x - 1) pred 0%Z) (nth (y - 1) gold 0%Z) then
    let m1 := tbl_set (m st) x y (tbl_get (m st) (x - 1) (y - 1) + 1) in
    if longest st <? tbl_get m1 x y
    then mk_lcs m1 (tbl_get m1 x y) x
    else mk_lcs m1 (longest st) (x_longest st)
  else mk_lcs (tbl_set (m st) x y 0) (longest st) (x_longest st).

(** The body of the outer loop: [for y in range(1, 1 + len(gold))]. *)
Definition lcs_row (pred gold : list Z) (st : lcs_state) (x : nat)
  : lcs_state :=
  fold_left (lcs_cell pred gold x) (seq 1 (length gold)) st.

Definition lcs_init (pred gold : list Z) : lcs_state :=
  mk_lcs (repeat (repeat 0 (1 + length gold)) (1 + length pred)) 0 0.

Definition lcs_scan (pred gold : list Z) : lcs_state :=
  fold_left (lcs_row pred gold) (seq 1 (length pred)) (lcs_init pred gold).

(** The slice starts at [x_longest - longest], which is never negative
    ([lcs_scan_spec] below). *)
Definition longest_common_substring_rewards (pred gold : list Z) : list Q :=
  let st := lcs_scan pred gold in
  let rewards := repeat 0%Q (length pred) in
  slice_fill (x_longest st - longest st) (x_longest st) 1%Q rewards.

(** [a + b] on two one-dimensional float arrays of one length. *)
Fixpoint np_add (a b : list Q) : list Q :=
  match a, b with
  | x :: a', y :: b' => (x + y)%Q :: np_add a' b'
  | _, _ => []
  end.

(** One iteration of the loop over the batch: [all_rewards[j] += r]. *)
Definition lcs_batch_row (all_rewards : ndarray Q)
    (jx : nat * (list Z * list Z)) : ndarray Q :=
  let '(j, (g, p)) := jx in
  let r := longest_common_substring_rewards p g in
  mk_ndarray (shape all_rewards)
             (update_nth j (fun row => np_add row r) (rows all_rewards)).

(** No assertion on the shapes here either; [r] has the length of the
    predicted row, so the addition is between rows of one length. *)
Definition token_lcs_reward (gold pred : ndarray Z) : result (ndarray Q) :=
  let all_rewards := zeros_like pred in
  Ok (fold_left lcs_batch_row (enumerate (combine (rows gold) (rows pred)))
                all_rewards).

(** ** metrics.py: f1_bin *)

(** A numpy float64 as far as [f1_bin] can tell values apart: a finite
    value (kept exact), an infinity or not-a-number.  Dividing by zero does
    not raise in numpy, it gives [inf] or [nan]. *)
Inductive float64 : Type :=
| Fin (q : Q)
| PInf
| NInf
| NaN.

Definition Qpos (q : Q) : bool := (0 <? Qnum q)%Z.
Definition Qzero (q : Q) : bool := (Qnum q =? 0)%Z.

Definition f_opp (a : float64) : float64 :=
  match a with
  | Fin q => Fin (- q)%Q
  | PInf => NInf
  | NInf => PInf
  | NaN => NaN
  end.

Definition f_div (a b : float64) : float64 :=
  match a, b with
  | NaN, _ | _, NaN => NaN
  | Fin x, Fin y =>
      if Qzero y then (if Qzero x then NaN else if Qpos x then PInf else NInf)
      else Fin (x / y)%Q
  | Fin _, _ => Fin 0%Q
  | _, Fin y => if Qzero y || Qpos y then a else f_opp a
  | _, _ => NaN
  end.

Definition f_mul (a b : float64) : float64 :=
  match a, b with
  | NaN, _ | _, NaN => NaN
  | Fin x, Fin y => Fin (x * y)%Q
  | Fin x, i | i, Fin x =>
      if Qzero x then NaN else if Qpos x then i else f_opp i
  | PInf, PInf | NInf, NInf => PInf
  | _, _ => NInf
  end.

Definition f_add (a b : float64) : float64 :=
  match a, b with
  | NaN, _ | _, NaN => NaN
  | Fin x, Fin y => Fin (x + y)%Q
  | Fin _, i | i, Fin _ => i
  | PInf, PInf => PInf
  | NInf, NInf => NInf
  | _, _ => NaN
  end.

(** [a > b]; false as soon as one side is [nan]. *)
Definition f_gtb (a b : float64) : bool :=
  match a, b with
  | NaN, _ | _, NaN => false
  | Fin x, Fin y => Qpos (x - y)%Q
  | PInf, PInf | NInf, NInf => false
  | PInf, _ | _, NInf => true
  | _, _ => false
  end.

(** An integer scalar used as a float operand. *)
Definition f_of_Z (z : Z) : float64 := Fin (inject_Z z).

(** [.sum()] of an integer array, without the wrap-around of int64: on the
    arrays of zeros and ones that [f1_bin] is given, the sums are counts
    of positions. *)
Definition np_sum (l : list Z) : Z := fold_left Z.add l 0%Z.

(** Elementwise binary operation of two arrays of one size. *)
Definition np_zip (f : Z -> Z -> Z) (a b : list Z) : list Z :=
  map (fun xy => f (fst xy) (snd xy)) (combine a b).

(** The three lines computing precision, recall and F1 of one class from
    its true positives [tp], the false positives [fp] and the false
    negatives [fn]; the source has them once per class. *)
Definition prec_of (tp fp : Z) : float64 :=
  f_div (f_of_Z tp) (f_of_Z (tp + fp)).

Definition rec_of (tp fn : Z) : float64 :=
  f_div (f_of_Z tp) (f_of_Z (tp + fn)).

Definition f1_of (prec rec : float64) : float64 :=
  if f_gtb (f_add prec rec) (Fin 0%Q)
  then f_div (f_mul (Fin 2%Q) (f_mul prec rec)) (f_add prec rec)
  else Fin 0%Q.

(** The two arrays are one-dimensional by their type, which is what the
    second and third assertion of the source ask. *)
Definition f1_bin (hypotheses references : list Z)
  : result (float64 * float64) :=
  _ <- assert (length hypotheses =? length references) ;;
  let tp_1 := np_sum (np_zip Z.land hypotheses references) in
  let tp_0 := np_sum (np_zip Z.land (map (fun h => 1 - h)%Z hypotheses)
                                    (map (fun r => 1 - r)%Z references)) in
  let fp_1 := np_sum (np_zip Z.land hypotheses (map Z.lnot references)) in
  let fn_1 := np_sum (np_zip Z.land (map Z.lnot hypotheses) references) in
  _ <- assert (tp_0 + tp_1 + fn_1 + fp_1 =? Z.of_nat (length hypotheses))%Z ;;
  let prec_1 := prec_of tp_1 fp_1 in
  let rec_1 := rec_of tp_1 fn_1 in
  let f1_1 := f1_of prec_1 rec_1 in
  let prec_0 := prec_of tp_0 fn_1 in
  let rec_0 := rec_of tp_0 fp_1 in
  let f1_0 := f1_of prec_0 rec_0 in
  Ok (f1_1, f1_0).

(** ** helpers.py: build_vocab *)

(** An example of a torchtext dataset: the token lists put under the field
    names [src] and [trg], and the weights of a weighted example. *)
Record Example (W : Type) : Type := mk_example {
  src : list string;
  trg : list string;
  weights : option (list W)
}.

Record Dataset (W : Type) : Type := mk_dataset {
  examples : list (Example W)
}.

(** [collections.Counter]: a dict from token to count, kept in insertion
    order as Python dicts are. *)
Definition counter : Type := list (string * Z).

Fixpoint counter_incr (c : counter) (t : string) : counter :=
  match c with
  | [] => [(t, 1%Z)]
  | (t', n) :: c' =>
      if String.eqb t' t then (t', (n + 1)%Z) :: c'
      else (t', n) :: counter_incr c' t
  end.

Definition Counter (tokens : list string) : counter :=
  fold_left counter_incr tokens [].

(** [list.sort(key=...)] and [sorted(..., key=...)]: Python's sort is
    stable, and a stable sort has one possible output; insertion from the
    right is the stable sort taken here.  [before a b] is the test "key of
    [a] may stand before key of [b]". *)
Section StableSort.
Context {A : Type} (before : A -> A -> bool).

Fixpoint insert_sorted (x : A) (l : list A) : list A :=
  match l with
  | [] => [x]
  | y :: t => if before x y then x :: y :: t else y :: insert_sorted x t
  end.

Definition stable_sort (l : list A) : list A :=
  fold_right insert_sorted [] l.
End StableSort.

(** [l[:limit]] with Python's meaning of a negative [limit]. *)
Definition slice_to {A} (l : list A) (limit : Z) : list A :=
  if (0 <=? limit)%Z then firstn (Z.to_nat limit) l
  else firstn (length l - Z.to_nat (- limit)) l.

Definition filter_min (c : counter) (min_freq : Z) : counter :=
  filter (fun tc => (min_freq <=? snd tc)%Z) c.

(** Tokens are strings of bytes (UTF-8), and Python orders strings by code
    point: on UTF-8 this is the bytewise order of [String.leb]. *)
Definition sort_and_cut (c : counter) (limit : Z) : list string :=
  let tokens_and_frequencies :=
    stable_sort (fun a b => String.leb (fst a) (fst b)) c in
  let tokens_and_frequencies :=
    stable_sort (fun a b => (snd b <=? snd a)%Z) tokens_and_frequencies in
  map fst (slice_to tokens_and_frequencies limit).

(** Modelled from the spec: [joeynmt/constants.py] is not among the sources;
    the spec fixes index 0 for the unknown token, which is what
    [DEFAULT_UNK_ID()] returns. *)
Definition DEFAULT_UNK_ID : nat := 0.

Section BuildVocab.
(** The special tokens of [joeynmt/constants.py] and the [Vocabulary]
    class of [joeynmt/vocabulary.py] are outside the sources: they are
    parameters. *)
Variables UNK_TOKEN PAD_TOKEN BOS_TOKEN EOS_TOKEN : string.
Variable Vocabulary : Type.
Variable Vocabulary_tokens : list string -> Vocabulary.
Variable Vocabulary_file : string -> result Vocabulary.
Variable W : Type.

Definition specials : list string :=
  [UNK_TOKEN; PAD_TOKEN; BOS_TOKEN; EOS_TOKEN].

(** The loop collecting the tokens of one field. *)
Definition field_tokens (field : string) (data : Dataset W) : list string :=
  fold_left
    (fun tokens i =>
       if String.eqb field "src" then tokens ++ src i
       else if String.eqb field "trg" then tokens ++ trg i
       else tokens)
    (examples data) [].

(** The filtering step of [build_vocab]. *)
Definition filtered_counter (min_freq : Z) (tokens : list string)
  : counter :=
  let c := Counter tokens in
  if (-1 <? min_freq)%Z then filter_min c min_freq else c.

Definition build_vocab (field : string) (max_size min_freq : Z)
    (data : Dataset W) (vocab_file : option string) : result Vocabulary :=
  match vocab_file with
  | Some file => Vocabulary_file file
  | None =>
      let tokens := field_tokens field data in
      let c := filtered_counter min_freq tokens in
      let vocab_tokens := specials ++ sort_and_cut c max_size in
      _ <- assert (match nth_error vocab_tokens DEFAULT_UNK_ID with
                   | Some t => String.eqb t UNK_TOKEN
                   | None => false
                   end) ;;
      _ <- assert (Z.of_nat (length vocab_tokens)
                   <=? max_size + Z.of_nat (length specials))%Z ;;
      Ok (Vocabulary_tokens vocab_tokens)
  end.
End BuildVocab.

(** ** helpers.py: WeightedTranslationDataset *)

Fixpoint zip3 {A B C} (a : list A) (b : list B) (c : list C)
  : list (A * B * C) :=
  match a, b, c with
  | x :: a', y :: b', z :: c' => (x, y, z) :: zip3 a' b' c'
  | _, _, _ => []
  end.

(** A list comprehension whose element expression may raise. *)
Fixpoint map_result {A B} (f : A -> result B) (l : list A)
  : result (list B) :=
  match l with
  | [] => Ok []
  | x :: t => y <- f x ;; ys <- map_result f t ;; Ok (y :: ys)
  end.

(** The three fields handed to the constructor, each as its [preprocess]. *)
Record Fields (W : Type) : Type := mk_fields {
  src_field : string -> list string;
  trg_field : string -> list string;
  weights_field : list W -> list W
}.

Section Weighted.
(** Python's own [str.strip], [str.split(" ")] and [float], and
    [np.exp], over a type [W] of floats; [float] gives [None] where
    Python raises [ValueError]. *)
Variable W : Type.
Variable strip : string -> string.
Variable split_space : string -> list string.
Variable float : string -> option W.
Variable np_exp : W -> W.

(** The list comprehension building [weights] from one line. *)
Definition line_weights (log_weights : bool) (weights_line : string)
  : result (list W) :=
  map_result
    (fun weight =>
       match float weight with
       | Some w => Ok (if log_weights then np_exp w else w)
       | None => Raise ValueError
       end)
    (split_space (strip weights_line)).

(** [data.Example.fromlist([src_line, trg_line, weights], fields)] *)
Definition Example_fromlist (fields : Fields W) (src_line trg_line : string)
    (ws : list W) : Example W :=
  mk_example (src_field fields src_line) (trg_field fields trg_line)
             (Some (weights_field fields ws)).

(** The body of the loop over the zipped files. *)
Definition weighted_step (fields : Fields W) (log_weights : bool)
    (examples : list (Example W)) (lines : string * string * string)
  : result (list (Example W)) :=
  let '(src_line, trg_line, weights_line) := lines in
  let src_line := strip src_line in
  let trg_line := strip trg_line in
  ws <- line_weights log_weights weights_line ;;
  if negb (String.eqb src_line "") && negb (String.eqb trg_line "")
  then Ok (examples ++ [Example_fromlist fields src_line trg_line ws])
  else Ok examples.

(** [data.Dataset.__init__(examples, fields, filter_pred=...)] *)
Definition Dataset_init (examples : list (Example W))
    (filter_pred : option (Example W -> bool)) : Dataset W :=
  match filter_pred with
  | Some keep => mk_dataset (filter keep examples)
  | None => mk_dataset examples
  end.

(** [WeightedTranslationDataset.__init__]; the three opened files are the
    lists of their lines. *)
Definition WeightedTranslationDataset (src_file trg_file weight_file
    : list string) (fields : Fields W) (log_weights : bool)
    (filter_pred : option (Example W -> bool)) : result (Dataset W) :=
  examples <- for_each (weighted_step fields log_weights)
                       (zip3 src_file trg_file weight_file) [] ;;
  Ok (Dataset_init examples filter_pred).
End Weighted.

(** ** helpers.py: tile *)

Definition prod_list (l : list nat) : nat := fold_right Nat.mul 1 l.

(** Row-major strides of a contiguous tensor of the given size. *)
Fixpoint strides (sz : list nat) : list nat :=
  match sz with
  | [] => []
  | _ :: t => prod_list t :: strides t
  end.

(** The position in the flat data of a multi-index, for given strides. *)
Fixpoint offset (st idx : list nat) : nat :=
  match st, idx with
  | s :: st', i :: idx' => i * s + offset st' idx'
  | _, _ => 0
  end.

(** The multi-index of flat position [f] in a tensor of size [sz]. *)
Fixpoint unravel (sz : list nat) (f : nat) : list nat :=
  match sz with
  | [] => []
  | _ :: t => f / prod_list t :: unravel t (f mod prod_list t)
  end.

(** [l[i], l[j] = l[j], l[i]] *)
Definition swap_items {A} (d : A) (i j : nat) (l : list A) : list A :=
  set_nth j (nth i l d) (set_nth i (nth j l d) l).

(** Python's [l[i]] index, negative values counting from the end. *)
Definition py_index (n : nat) (i : Z) : result nat :=
  if (0 <=? i)%Z && (i <? Z.of_nat n)%Z then Ok (Z.to_nat i)
  else if (i <? 0)%Z && (- Z.of_nat n <=? i)%Z
       then Ok (Z.to_nat (Z.of_nat n + i))
  else Raise IndexError.

(** [resize] gives these strides to a tensor of the given size that has no
    element. *)
Fixpoint resize_strides (sz : list nat) : list nat :=
  match sz with
  | [] => []
  | _ :: t =>
      let rest := resize_strides t in
      match t, rest with
      | s :: _, st :: _ => Nat.max s 1 * st
      | _, _ => 1
      end :: rest
  end.

(** [is_contiguous]: from the last axis to the first, every axis of a size
    other than 1 has for stride the number of elements of the axes after
    it.  [dims] pairs each size with its stride, the last axis first. *)
Fixpoint contiguous_from (z : nat) (dims : list (nat * nat)) : bool :=
  match dims with
  | [] => true
  | (s, st) :: prev =>
      if s =? 1 then contiguous_from z prev
      else (st =? z) && contiguous_from (z * s) prev
  end.

(** The inner loop of torch's [computeStride]: the axes of the new shape,
    the last first, that one chunk of the old axes takes.  It gives the
    strides of the axes taken, the axes left and [view_numel]. *)
Fixpoint view_chunk (view : list nat) (view_numel tensor_numel base : nat)
  : list nat * list nat * nat :=
  match view with
  | v :: rest =>
      if (view_numel <? tensor_numel) || (v =? 1)
      then let '(sts, todo, vn) :=
             view_chunk rest (view_numel * v) tensor_numel base in
           (view_numel * base :: sts, todo, vn)
      else ([], view, view_numel)
  | [] => ([], [], view_numel)
  end.

(** The outer loop of [computeStride] over the old axes, the last first:
    a chunk of old axes ends at the first axis and wherever the next axis
    cannot be merged with it; the new axes must then split the chunk
    exactly.  The strides come out with the last axis first. *)
Fixpoint tensor_chunks (old : list (nat * nat)) (view : list nat)
    (tensor_numel base : nat) : option (list nat) :=
  match old with
  | [] => None
  | (s, _) :: prev =>
      let tensor_numel := tensor_numel * s in
      let end_of_chunk :=
        match prev with
        | [] => true
        | (s', st') :: _ =>
            negb (s' =? 1) && negb (st' =? tensor_numel * base)
        end in
      if end_of_chunk then
        let '(sts, todo, vn) := view_chunk view 1 tensor_numel base in
        if vn =? tensor_numel then
          match prev with
          | [] => match todo with [] => Some sts | _ :: _ => None end
          | (_, st') :: _ =>
              option_map (app sts) (tensor_chunks prev todo 1 st')
          end
        else None
      else tensor_chunks prev view tensor_numel base
  end.

(** [computeStride(oldshape, oldstride, newshape)] of torch: the strides
    with which the elements can be read in the new shape without a copy,
    when there are such. *)
Definition compute_stride (oldshape oldstride newshape : list nat)
  : option (list nat) :=
  match rev (combine oldshape oldstride) with
  | [] => Some (map (fun _ => 1) newshape)
  | ((_, st) :: _) as old =>
      if prod_list oldshape =? 0 then
        if list_eq_dec Nat.eq_dec oldshape newshape then Some oldstride
        else Some (resize_strides newshape)
      else option_map (@rev nat) (tensor_chunks old (rev newshape) 1 st)
  end.

Section Tensors.
Context {A : Type}.

(** A torch tensor: its size, its strides (how it lies in memory) and its
    elements in the row-major order of their multi-indices (what it
    holds).  Operations that give a view of the same memory change the
    strides; whether [view] is possible depends on them. *)
Record Tensor : Type := mk_tensor {
  size : list nat;
  stride : list nat;
  data : list A
}.

Definition numel (t : Tensor) : nat := length (data t).

Definition wf_tensor (t : Tensor) : Prop :=
  length (data t) = prod_list (size t).

(** The elements of [l] at the positions [ixs]. *)
Definition gather (ixs : list nat) (l : list A) : list A :=
  match l with
  | [] => []
  | d :: _ => map (fun i => nth i l d) ixs
  end.

(** [t[idx]] *)
Definition tensor_get (t : Tensor) (idx : list nat) : option A :=
  nth_error (data t) (offset (strides (size t)) idx).

(** [t.permute(perm)]: axis [a] of the result is axis [perm[a]] of [t],
    with its size and its stride. *)
Definition permute (t : Tensor) (perm : list nat) : Tensor :=
  let sz := map (fun p => nth p (size t) 0) perm in
  let st := map (fun p => nth p (strides (size t)) 0) perm in
  mk_tensor sz (map (fun p => nth p (stride t) 0) perm)
    (gather (map (fun f => offset st (unravel sz f)) (seq 0 (prod_list sz)))
            (data t)).

(** [t.is_contiguous()]; a tensor without elements is contiguous. *)
Definition is_contiguous (t : Tensor) : bool :=
  (numel t =? 0) || contiguous_from 1 (rev (combine (size t) (stride t))).

(** [t.contiguous()]: the tensor itself when it is contiguous, and
    otherwise a copy laid out in row-major order. *)
Definition contiguous (t : Tensor) : Tensor :=
  if is_contiguous t then t
  else mk_tensor (size t) (strides (size t)) (data t).

(** [t.transpose(d0, d1)] *)
Definition transpose (t : Tensor) (d0 d1 : nat) : Tensor :=
  permute t (swap_items 0 d0 d1 (seq 0 (length (size t)))).

(** [t.view( *sz )]: torch refuses a shape with another number of elements
    and a shape that the strides of [t] do not allow. *)
Definition view (t : Tensor) (sz : list nat) : result Tensor :=
  if prod_list sz =? numel t then
    match compute_stride (size t) (stride t) sz with
    | Some st => Ok (mk_tensor sz st (data t))
    | None => Raise RuntimeError
    end
  else Raise RuntimeError.

(** [t.view(batch, -1)]: torch infers the second size, and refuses when
    the given one is zero or does not divide the number of elements. *)
Definition view_rows (t : Tensor) (batch : nat) : result Tensor :=
  if batch =? 0 then Raise RuntimeError
  else if numel t mod batch =? 0
       then view t [batch; numel t / batch]
       else Raise RuntimeError.

(** [t.repeat(count, 1)] on a matrix: a new tensor of [count] copies of
    the rows, one block after the other. *)
Definition repeat_rows (t : Tensor) (count : nat) : result Tensor :=
  match size t with
  | [r; c] => Ok (mk_tensor [count * r; c] (strides [count * r; c])
                            (concat (repeat (data t) count)))
  | _ => Raise RuntimeError
  end.

(** The body of [tile] after the test for a tuple. *)
Definition tile_tensor (x : Tensor) (count : nat) (dim : Z)
  : result Tensor :=
  let perm := seq 0 (length (size x)) in
  px <- (if (dim =? 0)%Z then Ok (perm, x)
         else d <- py_index (length perm) dim ;;
              let perm := swap_items 0 0 d perm in
              Ok (perm, contiguous (permute x perm))) ;;
  let '(perm, x) := px in
  out_size <- match size x with
              | [] => Raise IndexError
              | b :: rest => Ok (b * count :: rest)
              end ;;
  let batch := hd 0 (size x) in
  x <- view_rows x batch ;;
  let x := transpose x 0 1 in
  x <- repeat_rows x count ;;
  let x := contiguous (transpose x 0 1) in
  x <- view x out_size ;;
  if (dim =? 0)%Z then Ok x else Ok (contiguous (permute x perm)).

(** The state handed to [tile]: one tensor, or a tuple [(h, c)]. *)
Inductive State : Type :=
| Single (x : Tensor)
| Paired (h c : State).

Fixpoint tile (x : State) (count : nat) (dim : Z) : result State :=
  match x with
  | Paired h c =>
      h' <- tile h count dim ;;
      c' <- tile c count dim ;;
      Ok (Paired h' c')
  | Single t => t' <- tile_tensor t count dim ;; Ok (Single t')
  end.
End Tensors.

Arguments Tensor A : clear implicits.
Arguments State A : clear implicits.

(** * Vocabulary of the statements

    Definitions that the statements below are written with: the values the
    loops leave, the runs of the longest-common-substring scan, the order of
    the vocabulary, multi-indices of tensors, and the specification's own
    wording where it parts from the code. *)

Unset Implicit Arguments.

(** [rewards[j, k] = f(rewards[j, k])] *)
Definition cell_update (j k : nat) (f : Q -> Q) (r : ndarray Q) : ndarray Q :=
  mk_ndarray (shape r) (update_nth j (update_nth k f) (rows r)).

(** [rewards[j] = G(j, (g, p), rewards[j])]: one iteration of a batch loop
    that rewrites row [j] from the [j]-th rows of gold and pred. *)
Definition row_update (G : nat -> list Z * list Z -> list Q -> list Q)
    (r : ndarray Q) (jx : nat * (list Z * list Z)) : ndarray Q :=
  mk_ndarray (shape r) (update_nth (fst jx) (G (fst jx) (snd jx)) (rows r)).

(** What one iteration of the loop over time of [token_recall_reward]
    leaves in its cell, and what the loop leaves in its row. *)
Definition recall_value (g : list Z) (p_i : Z) (old : Q) : Q :=
  if contains g p_i then 1%Q else old.

Definition recall_row_fn (j : nat) (gp : list Z * list Z) (row : list Q)
  : list Q :=
  fold_left
    (fun row kx => update_nth (fst kx) (recall_value (fst gp) (snd kx)) row)
    (enumerate (snd gp)) row.

(** The same for [token_edit_reward]. *)
Definition edit_value (shifted : bool) (L : nat) (g : list Z) (k : nat)
    (gp_i : Z * Z) (old : Q) : Q :=
  if Z.eqb (snd gp_i) (fst gp_i) then 1%Q
  else if contains g (snd gp_i) && shifted then
    match shift_reward L g k (snd gp_i) with
    | Ok r => r
    | Raise _ => old
    end
  else old.

Definition edit_row_fn (shifted : bool) (L : nat) (j : nat)
    (gp : list Z * list Z) (row : list Q) : list Q :=
  fold_left
    (fun row kx =>
       update_nth (fst kx)
                  (edit_value shifted L (fst gp) (fst kx) (snd kx)) row)
    (enumerate (combine (fst gp) (snd gp))) row.

(** The value [token_edit_reward] leaves at a cell. *)
Definition edit_reward_at (shifted : bool) (L : nat) (g : list Z) (k : nat)
    (g_i p_i : Z) : Q :=
  edit_value shifted L g k (g_i, p_i) 0%Q.

(** A grid of one row of three ids. *)
Definition grid_1x3 (a b c : Z) : ndarray Z := mk_ndarray (1, 3) [[a; b; c]].

(** Following the words of the specification: the smallest absolute
    distance from [k] to a gold position holding [p_i]. *)
Definition min_abs_distance (g : list Z) (k : nat) (p_i : Z) : result Z :=
  np_min (map (fun ix => Z.abs (Z.of_nat k - Z.of_nat ix)) (np_where_eq g p_i)).

(** [1 - d / L] for that distance [d]. *)
Definition spec_shift_reward (L : nat) (g : list Z) (k : nat) (p_i : Z)
  : result Q :=
  d <- min_abs_distance g k p_i ;;
  Ok (1 - inject_Z d / inject_Z (Z.of_nat L))%Q.

(** The length of the longest common run ending just before position [x]
    of pred and just before position [y] of gold. *)
Fixpoint run (pred gold : list Z) (x y : nat) : nat :=
  match x, y with
  | S x', S y' =>
      if Z.eqb (nth x' pred 0%Z) (nth y' gold 0%Z)
      then S (run pred gold x' y') else 0
  | _, _ => 0
  end.

(** [l] positions of pred from [s] on agree one by one with [l] positions
    of gold from [t] on. *)
Definition common (pred gold : list Z) (s t l : nat) : Prop :=
  s + l <= length pred /\ t + l <= length gold /\
  forall i, i < l -> nth (s + i) pred 0%Z = nth (t + i) gold 0%Z.

(** Cell [(i, j)] has been visited when the scan stands at [(x, y)]. *)
Definition scanned (x y i j : nat) : Prop := i < x \/ (i = x /\ j <= y).

(** The invariant of the scan of [longest_common_substring_rewards] when it
    stands at cell [(x, y)]: the visited part of the table holds the run
    lengths, [longest] is their greatest value so far and [x_longest] is the
    row of the first cell that reached it. *)
Record lcs_inv (pred gold : list Z) (st : lcs_state) (x y : nat) : Prop :=
  mk_lcs_inv {
  inv_rows : length (m st) = S (length pred);
  inv_cols : forall i, i <= length pred ->
    length (nth i (m st) []) = S (length gold);
  inv_table : forall i j, i <= length pred -> j <= length gold ->
    i = 0 \/ j = 0 \/ scanned x y i j ->
    tbl_get (m st) i j = run pred gold i j;
  inv_max : forall i j, 1 <= i -> 1 <= j <= length gold -> scanned x y i j ->
    run pred gold i j <= longest st;
  inv_at : (longest st = 0 /\ x_longest st = 0) \/
           (0 < longest st /\ 1 <= x_longest st /\
            exists j, 1 <= j <= length gold /\ scanned x y (x_longest st) j /\
                      run pred gold (x_longest st) j = longest st);
  inv_first : forall i j, 1 <= i -> 1 <= j <= length gold -> scanned x y i j ->
    run pred gold i j = longest st -> 0 < longest st -> x_longest st <= i
}.

(** A row of rewards that is 1 from [lo] up to [hi - 1] and 0 elsewhere. *)
Definition indicator (lo hi n : nat) : list Q :=
  map (fun i => if (lo <=? i) && (i <? hi) then 1%Q else 0%Q) (seq 0 n).

(** What one iteration of the batch loop of [token_lcs_reward] leaves in
    its row. *)
Definition lcs_row_fn (j : nat) (gp : list Z * list Z) (row : list Q)
  : list Q :=
  np_add row (longest_common_substring_rewards (snd gp) (fst gp)).

(** Following the words of the specification: the same scan, keeping the
    run met last among those of the greatest length, that is, replacing the
    kept run also on a tie. *)
Definition spec_lcs_cell (pred gold : list Z) (x : nat) (st : lcs_state)
    (y : nat) : lcs_state :=
  if Z.eqb (nth (x - 1) pred 0%Z) (nth (y - 1) gold 0%Z) then
    let m1 := tbl_set (m st) x y (tbl_get (m st) (x - 1) (y - 1) + 1) in
    if longest st <=? tbl_get m1 x y
    then mk_lcs m1 (tbl_get m1 x y) x
    else mk_lcs m1 (longest st) (x_longest st)
  else mk_lcs (tbl_set (m st) x y 0) (longest st) (x_longest st).

Definition spec_last_run_rewards (pred gold : list Z) : list Q :=
  let st :=
    fold_left
      (fun st x =>
         fold_left (spec_lcs_cell pred gold x) (seq 1 (length gold)) st)
      (seq 1 (length pred)) (lcs_init pred gold) in
  slice_fill (x_longest st - longest st) (x_longest st) 1%Q
             (repeat 0%Q (length pred)).

(** An entry of a 0/1 array. *)
Definition is01 (z : Z) : Prop := z = 0%Z \/ z = 1%Z.

(** The four counts of [f1_bin], as the source computes them. *)
Definition tp_1_of (h r : list Z) : Z := np_sum (np_zip Z.land h r).

Definition tp_0_of (h r : list Z) : Z :=
  np_sum (np_zip Z.land (map (fun h => 1 - h)%Z h) (map (fun r => 1 - r)%Z r)).

Definition fp_1_of (h r : list Z) : Z :=
  np_sum (np_zip Z.land h (map Z.lnot r)).

Definition fn_1_of (h r : list Z) : Z :=
  np_sum (np_zip Z.land (map Z.lnot h) r).

(** A float that is zero or not-a-number: what a quotient with numerator 0
    can be, and what a sum of two such quotients can be. *)
Definition f_null (a : float64) : Prop :=
  match a with
  | Fin q => Qnum q = 0%Z
  | NaN => True
  | _ => False
  end.

(** The order of the vocabulary: greater frequency first, and on equal
    frequency the token that is smaller in the order of strings. *)
Definition vocab_before (a b : string * Z) : Prop :=
  (snd b < snd a)%Z \/ (snd a = snd b /\ String.leb (fst a) (fst b) = true).

(** The tests of the two sorts of [sort_and_cut]. *)
Definition by_token (a b : string * Z) : bool := String.leb (fst a) (fst b).

Definition by_frequency (a b : string * Z) : bool := (snd b <=? snd a)%Z.

(** Python's [str.strip], [str.split(" ")] and [float] on strings of ASCII
    characters and on unsigned integer numerals: instances of the
    parameters of the assembler, to run it on concrete files. *)
Definition is_space (c : ascii) : bool :=
  let n := nat_of_ascii c in
  (n =? 32) || ((9 <=? n) && (n <=? 13)) || ((28 <=? n) && (n <=? 31)).

Fixpoint lstrip (s : string) : string :=
  match s with
  | String c s' => if is_space c then lstrip s' else s
  | EmptyString => EmptyString
  end.

Fixpoint string_rev_onto (s acc : string) : string :=
  match s with
  | String c s' => string_rev_onto s' (String c acc)
  | EmptyString => acc
  end.

Definition ascii_strip (s : string) : string :=
  string_rev_onto (lstrip (string_rev_onto (lstrip s) EmptyString)) EmptyString.

Fixpoint split_on_space (s cur : string) : list string :=
  match s with
  | EmptyString => [string_rev_onto cur EmptyString]
  | String c s' =>
      if Ascii.eqb c " "
      then string_rev_onto cur EmptyString :: split_on_space s' EmptyString
      else split_on_space s' (String c cur)
  end.

Fixpoint digits_value (s : string) (acc : Z) : option Z :=
  match s with
  | EmptyString => Some acc
  | String c s' =>
      let n := nat_of_ascii c in
      if (48 <=? n) && (n <=? 57)
      then digits_value s' (10 * acc + Z.of_nat (n - 48))%Z
      else None
  end.

Definition float_of_numeral (s : string) : option Q :=
  match s with
  | EmptyString => None
  | _ => option_map inject_Z (digits_value s 0%Z)
  end.

(** The examples one triple of lines contributes when its weights parse. *)
Definition triple_examples (W : Type) (strip : string -> string)
    (split_space : string -> list string) (float : string -> option W)
    (np_exp : W -> W) (fields : Fields W) (log_weights : bool)
    (lines : string * string * string) : list (Example W) :=
  match line_weights strip split_space float np_exp log_weights (snd lines) with
  | Ok ws =>
      if negb (String.eqb (strip (fst (fst lines))) "")
         && negb (String.eqb (strip (snd (fst lines))) "")
      then [Example_fromlist fields (strip (fst (fst lines)))
                             (strip (snd (fst lines))) ws]
      else []
  | Raise _ => []
  end.

(** [idx] is a multi-index of a tensor of size [sz]. *)
Definition valid_index (sz idx : list nat) : Prop := Forall2 lt idx sz.

(** [t] has a stride for every axis and [t.is_contiguous()] holds. *)
Definition contiguous_tensor {A : Type} (t : Tensor A) : Prop :=
  length (stride t) = length (size t) /\ is_contiguous t = true.

(** The steps of [tile] between the two optional permutations: the tiling
    of axis 0. *)
Definition tile_axis0 {A : Type} (x : Tensor A) (count : nat)
  : result (Tensor A) :=
  out_size <- match size x with
              | [] => Raise IndexError
              | b :: rest => Ok (b * count :: rest)
              end ;;
  let batch := hd 0 (size x) in
  x <- view_rows x batch ;;
  let x := transpose x 0 1 in
  x <- repeat_rows x count ;;
  let x := contiguous (transpose x 0 1) in
  view x out_size.

(** * The rest of metrics.py and helpers.py *)

(** ** metrics.py: chrf and bleu *)

(** The built-in [sum] of a list of ints. *)
Definition py_sum (l : list Z) : Z := fold_left Z.add l 0%Z.

Section Sacrebleu.
(** The floats of Python with their addition and division, which round,
    and the conversion of an int that a mixed operation makes; and the two
    functions of the sacrebleu library, the second standing for
    [raw_corpus_bleu(...).score]. *)
Variable F : Type.
Variable float_of_int : Z -> F.
Variable fadd fdiv : F -> F -> F.
Variable corpus_chrf : list string -> list string -> F.
Variable raw_corpus_bleu : list string -> list (list string) -> F.

(** One iteration of the loop of the sentence mode, on the pair
    [(total, num_hyps)]; [total] starts as the int 0. *)
Definition chrf_step (st : F * Z) (hr : string * string) : F * Z :=
  (fadd (fst st) (corpus_chrf [fst hr] [snd hr]), (snd st + 1)%Z).

Definition chrf (hypotheses references : list string) (corpus : bool) : F :=
  if corpus then corpus_chrf hypotheses references
  else
    let st := fold_left chrf_step (combine hypotheses references)
                        (float_of_int 0, 0%Z) in
    fdiv (fst st) (float_of_int (Z.max (snd st) 1)).

Definition bleu_step (st : F * Z) (hr : string * string) : F * Z :=
  (fadd (fst st) (raw_corpus_bleu [fst hr] [[snd hr]]), (snd st + 1)%Z).

Definition bleu (hypotheses references : list string) (corpus : bool) : F :=
  if corpus then raw_corpus_bleu hypotheses [references]
  else
    let st := fold_left bleu_step (combine hypotheses references)
                        (float_of_int 0, 0%Z) in
    fdiv (fst st) (float_of_int (Z.max (snd st) 1)).
End Sacrebleu.

(** ** metrics.py: token_accuracy and sequence_accuracy *)

(** [s.split(sep)]: the pieces of [s] between the occurrences of [sep], met
    from the left and not overlapping; [skip] counts the characters of an
    occurrence still to pass and [cur] holds the current piece, reversed.
    An empty separator raises. *)
Fixpoint split_loop (sep s : string) (skip : nat) (cur : string)
  : list string :=
  match s with
  | EmptyString => [string_rev_onto cur EmptyString]
  | String c s' =>
      match skip with
      | S k => split_loop sep s' k cur
      | O =>
          if String.prefix sep s
          then string_rev_onto cur EmptyString
               :: split_loop sep s' (String.length sep - 1) EmptyString
          else split_loop sep s' 0 (String c cur)
      end
  end.

Definition str_split (s sep : string) : result (list string) :=
  if String.eqb sep "" then Raise ValueError
  else Ok (split_loop sep s 0 EmptyString).

(** [" " if level in ["word", "bpe"] else ""] *)
Definition split_char (level : string) : string :=
  if String.eqb level "word" || String.eqb level "bpe" then " "%string
  else ""%string.

(** The inner loop: one more correct token for every pair of equal tokens
    at one position. *)
Definition count_equal (hs rs : list string) (correct_tokens : Z) : Z :=
  fold_left
    (fun correct hr =>
       if String.eqb (fst hr) (snd hr) then (correct + 1)%Z else correct)
    (combine hs rs) correct_tokens.

(** The body of the outer loop, on the pair [(correct_tokens, all_tokens)];
    a Python str is a [string] with one [ascii] for each character. *)
Definition token_accuracy_step (sep : string) (st : Z * Z)
    (hr : string * string) : result (Z * Z) :=
  let all_tokens := (snd st + Z.of_nat (String.length (fst hr)))%Z in
  hs <- str_split (fst hr) sep ;;
  rs <- str_split (snd hr) sep ;;
  Ok (count_equal hs rs (fst st), all_tokens).

Definition token_accuracy (hypotheses references : list string)
    (level : string) : result Q :=
  let sep := split_char level in
  _ <- assert (length hypotheses =? length references) ;;
  st <- for_each (token_accuracy_step sep) (combine hypotheses references)
                 (0%Z, 0%Z) ;;
  if (0 <? snd st)%Z
  then Ok (inject_Z (fst st) / inject_Z (snd st) * 100)%Q
  else Ok 0%Q.

Definition sequence_accuracy (hypotheses references : list string)
  : result Q :=
  _ <- assert (length hypotheses =? length references) ;;
  let correct_sequences :=
    py_sum (map (fun _ => 1%Z)
                (filter (fun hr => String.eqb (fst hr) (snd hr))
                        (combine hypotheses references))) in
  if 0 <? length hypotheses
  then Ok (inject_Z correct_sequences
           / inject_Z (Z.of_nat (length hypotheses)) * 100)%Q
  else Ok 0%Q.

(** ** helpers.py: array_to_sentence and arrays_to_sentences *)

(** [l[i]] on a Python list. *)
Definition list_getitem {A} (l : list A) (i : Z) : result A :=
  n <- py_index (length l) i ;;
  match nth_error l n with
  | Some x => Ok x
  | None => Raise IndexError
  end.

Section Sentences.
(** [EOS_TOKEN] of [joeynmt/constants.py] and the vocabulary class with
    its list [itos] are outside the sources. *)
Variable EOS_TOKEN : string.
Variable Vocabulary : Type.
Variable itos : Vocabulary -> list string.

(** The loop of [array_to_sentence] from the ids still to read and the
    sentence so far; [break] returns what has been collected. *)
Fixpoint array_to_sentence_loop (vocabulary : Vocabulary)
    (cut_at_eos : bool) (array : list Z) (sentence : list string)
  : result (list string) :=
  match array with
  | [] => Ok sentence
  | i :: rest =>
      s <- list_getitem (itos vocabulary) i ;;
      if cut_at_eos && String.eqb s EOS_TOKEN then Ok sentence
      else array_to_sentence_loop vocabulary cut_at_eos rest (sentence ++ [s])
  end.

Definition array_to_sentence (array : list Z) (vocabulary : Vocabulary)
    (cut_at_eos : bool) : result (list string) :=
  array_to_sentence_loop vocabulary cut_at_eos array [].

Definition arrays_to_sentences (arrays : list (list Z))
    (vocabulary : Vocabulary) (cut_at_eos : bool)
  : result (list (list string)) :=
  for_each
    (fun sentences array =>
       s <- array_to_sentence array vocabulary cut_at_eos ;;
       Ok (sentences ++ [s]))
    arrays [].
End Sentences.

(** ** helpers.py: subsequent_mask *)

(** [np.ones(shape)] for a shape of three sizes; a negative size raises. *)
Definition np_ones3 (shape : Z * Z * Z) : result (list (list (list Z))) :=
  let '(a, b, c) := shape in
  if (a <? 0)%Z || (b <? 0)%Z || (c <? 0)%Z then Raise ValueError
  else Ok (repeat (repeat (repeat 1%Z (Z.to_nat c)) (Z.to_nat b))
                  (Z.to_nat a)).

(** [np.triu(m, k)] on a stack of matrices: the entries below the [k]-th
    diagonal of every matrix are set to zero. *)
Definition np_triu3 (m : list (list (list Z))) (k : Z)
  : list (list (list Z)) :=
  map (fun mat =>
         map (fun irow =>
                map (fun jx =>
                       if (Z.of_nat (fst irow) + k <=? Z.of_nat (fst jx))%Z
                       then snd jx else 0%Z)
                    (enumerate (snd irow)))
             (enumerate mat))
      m.

(** The entries are 0 and 1, which [astype('uint8')] keeps. *)
Definition subsequent_mask (size : Z) : result (list (list (list bool))) :=
  let attn_shape := (1%Z, size, size) in
  ones <- np_ones3 attn_shape ;;
  let mask := np_triu3 ones 1 in
  Ok (map (map (map (fun x => Z.eqb x 0))) mask).

(** ** helpers.py: MonoDataset *)

(** An example with the one field [src]. *)
Record MonoExample : Type := mk_mono_example {
  mono_src : list string
}.

Section Mono.
Variable strip : string -> string.

(** The body of the loop over the lines of the file; [field] is the
    [preprocess] of the one field. *)
Definition mono_step (field : string -> list string)
    (examples : list MonoExample) (src_line : string) : list MonoExample :=
  let src_line := strip src_line in
  if negb (String.eqb src_line "")
  then examples ++ [mk_mono_example (field src_line)]
  else examples.

(** [MonoDataset.__init__], the dataset as the list of its examples after
    the [filter_pred] of [data.Dataset.__init__]. *)
Definition MonoDataset (src_file : list string)
    (field : string -> list string)
    (filter_pred : option (MonoExample -> bool)) : list MonoExample :=
  let examples := fold_left (mono_step field) src_file [] in
  match filter_pred with
  | Some keep => filter keep examples
  | None => examples
  end.
End Mono.

(** ** helpers.py: bpe_postprocess *)

(** [new] before every character of [s] and after the last: what
    [str.replace] does for an empty [old]. *)
Fixpoint interleave (new s : string) : string :=
  match s with
  | EmptyString => new
  | String c s' => (new ++ String c (interleave new s'))%string
  end.

(** The scan of [str.replace] for a non-empty [old], from left to right
    over occurrences that do not overlap; [skip] characters of a replaced
    occurrence are still to pass. *)
Fixpoint replace_loop (old new s : string) (skip : nat) : string :=
  match s with
  | EmptyString => EmptyString
  | String c s' =>
      match skip with
      | S k => replace_loop old new s' k
      | O =>
          if String.prefix old s
          then (new ++ replace_loop old new s' (String.length old - 1))%string
          else String c (replace_loop old new s' 0)
      end
  end.

Definition str_replace (s old new : string) : string :=
  if String.eqb old "" then interleave new s else replace_loop old new s 0.

Definition bpe_postprocess (s : string) : string :=
  str_replace s "@@ " "".

(** ** helpers.py: get_latest_checkpoint *)

(** [max(l, key=key)]: the first element whose key no other exceeds; an
    empty list raises. *)
Definition py_max_key {A} (key : A -> Q) (l : list A) : result A :=
  match l with
  | [] => Raise ValueError
  | x :: t =>
      Ok (fold_left
            (fun best y => if Qle_bool (key y) (key best) then best else y)
            t x)
  end.

Section Checkpoints.
(** The file system as [glob.glob] and [os.path.getctime] see it. *)
Variable glob : string -> list string.
Variable getctime : string -> Q.

Definition get_latest_checkpoint (dir : string) : result string :=
  let list_of_files := glob (dir ++ "/*.ckpt")%string in
  latest_file <- py_max_key getctime list_of_files ;;
  Ok latest_file.
End Checkpoints.

(** ** Vocabulary of the further statements *)

(** The string holds no [@]. *)
Definition no_at (s : string) : Prop :=
  ~ In "@"%char (list_ascii_of_string s).

(** A text cut into fragments by BPE: every fragment but the last is
    followed by the marker [@@] and a space. *)
Definition bpe_join (fragments : list string) (last : string) : string :=
  fold_right (fun f acc => (f ++ "@@ " ++ acc)%string) last fragments.

(** The concatenation of a list of strings. *)
Definition str_concat (l : list string) : string :=
  fold_right String.append EmptyString l.

(** ** helpers.py: load_data *)

(** The keys of [cfg["data"]] that [load_data] reads: those read with
    [data_cfg[key]] have to be there, those read with [.get] may be
    missing. *)
Record DataCfg : Type := mk_data_cfg {
  cfg_src : string;
  cfg_trg : string;
  cfg_train : string;
  cfg_weights : option string;
  cfg_dev : string;
  cfg_test : option string;
  cfg_level : string;
  cfg_lowercase : bool;
  cfg_max_sent_length : Z;
  cfg_log_weights : option bool;
  cfg_voc_limit : option Z;
  cfg_voc_min_freq : option Z;
  cfg_src_vocab : option string;
  cfg_trg_vocab : option string
}.

(** [d.get(key, default)] for a key that may be missing. *)
Definition dict_get {A} (value : option A) (default : A) : A :=
  match value with
  | Some v => v
  | None => default
  end.

(** The [filter_pred] that [load_data] hands to the training set. *)
Definition max_length_pred {W} (max_sent_length : Z) (x : Example W) : bool :=
  (Z.of_nat (length (src x)) <=? max_sent_length)%Z
  && (Z.of_nat (length (trg x)) <=? max_sent_length)%Z.

Section LoadData.
Variables UNK_TOKEN PAD_TOKEN BOS_TOKEN EOS_TOKEN : string.
Variable Vocabulary : Type.
Variable Vocabulary_tokens : list string -> Vocabulary.
Variable Vocabulary_file : string -> result Vocabulary.
Variable W : Type.
Variable strip : string -> string.
Variable split_space : string -> list string.
Variable float : string -> option W.
Variable np_exp : W -> W.
(** torchtext and the file system: the [preprocess] of a
    [data.Field(tokenize=..., lower=...)], the constructor of
    [TranslationDataset] from a path, two extensions, two fields and a
    [filter_pred], the lines of a file that exists, [os.path.expanduser]
    and [os.path.isfile]; [list(s)] and [s.split()] of Python. *)
Variable Field : (string -> list string) -> bool -> string -> list string.
Variable TranslationDataset :
  string -> string * string ->
  (string -> list string) * (string -> list string) ->
  option (Example W -> bool) -> result (Dataset W).
Variable open : string -> list string.
Variable expanduser : string -> string.
Variable isfile : string -> bool.
Variable list_chars : string -> list string.
Variable split_whitespace : string -> list string.

(** [load_data], from [data_cfg], which is [cfg["data"]].  It returns the
    training and development sets, the test set (none, a parallel one, or
    one of sources only) and the two vocabularies.  The assignments to
    [src_field.vocab] and [trg_field.vocab] are not part of the returned
    tuple. *)
Definition load_data (data_cfg : DataCfg)
  : result (Dataset W * Dataset W
            * option (Dataset W + list MonoExample)
            * Vocabulary * Vocabulary) :=
  let src_lang := cfg_src data_cfg in
  let trg_lang := cfg_trg data_cfg in
  let train_path := cfg_train data_cfg in
  let weights_path := cfg_weights data_cfg in
  let dev_path := cfg_dev data_cfg in
  let test_path := cfg_test data_cfg in
  let level := cfg_level data_cfg in
  let lowercase := cfg_lowercase data_cfg in
  let max_sent_length := cfg_max_sent_length data_cfg in
  let tok_fun :=
    if String.eqb level "char" then list_chars else split_whitespace in
  let src_field := Field tok_fun lowercase in
  let trg_field := Field tok_fun lowercase in
  let fields := (src_field, trg_field) in
  let exts := ("." ++ src_lang, "." ++ trg_lang)%string in
  train_data <-
    match weights_path with
    | Some weights_path =>
        let weight_field := fun ws : list W => ws in
        WeightedTranslationDataset strip split_space float np_exp
          (open (expanduser (train_path ++ fst exts)%string))
          (open (expanduser (train_path ++ snd exts)%string))
          (open weights_path)
          (mk_fields src_field trg_field weight_field)
          (dict_get (cfg_log_weights data_cfg) false)
          (Some (max_length_pred max_sent_length))
    | None =>
        TranslationDataset train_path exts fields
                           (Some (max_length_pred max_sent_length))
    end ;;
  let max_size := dict_get (cfg_voc_limit data_cfg) (-1)%Z in
  let min_freq := dict_get (cfg_voc_min_freq data_cfg) 1%Z in
  let src_vocab_file := cfg_src_vocab data_cfg in
  let trg_vocab_file := cfg_trg_vocab data_cfg in
  src_vocab <- @build_vocab UNK_TOKEN PAD_TOKEN BOS_TOKEN EOS_TOKEN Vocabulary
                 Vocabulary_tokens Vocabulary_file W
                 "src" max_size min_freq train_data src_vocab_file ;;
  trg_vocab <- @build_vocab UNK_TOKEN PAD_TOKEN BOS_TOKEN EOS_TOKEN Vocabulary
                 Vocabulary_tokens Vocabulary_file W
                 "trg" max_size min_freq train_data trg_vocab_file ;;
  dev_data <- TranslationDataset dev_path exts fields None ;;
  test_data <-
    match test_path with
    | None => Ok None
    | Some test_path =>
        if isfile (test_path ++ "." ++ trg_lang)%string
        then d <- TranslationDataset test_path exts fields None ;;
             Ok (Some (inl d))
        else Ok (Some (inr (MonoDataset strip
                              (open (expanduser
                                       (test_path ++ "." ++ src_lang)%string))
                              src_field None)))
    end ;;
  Ok (train_data, dev_data, test_data, src_vocab, trg_vocab).
End LoadData.

(** The number of occurrences of a character in a string. *)
Fixpoint count_char (c : ascii) (s : string) : nat :=
  match s with
  | EmptyString => 0
  | String x s' => (if Ascii.eqb x c then 1 else 0) + count_char c s'
  end.

(** The pieces that [split(" ")] makes of the sentences of a list, and
    their characters. *)
Definition pieces_of (sentences : list string) : Z :=
  Z.of_nat (list_sum (map (fun h => 1 + count_char " " h) sentences)).

Definition characters_of (sentences : list string) : Z :=
  Z.of_nat (list_sum (map String.length sentences)).

(** * Properties *)

(** ** Lists *)

Section PyListFacts.
Context {A : Type}.

Lemma length_update_nth (f : A -> A) (l : list A) (n : nat) :
  length (update_nth n f l) = length l.
Proof.
  revert n; induction l as [|x t IH]; intros [|n]; simpl; auto.
Qed.

Lemma nth_error_update_nth (f : A -> A) (l : list A) (n i : nat) :
  nth_error (update_nth n f l) i =
  if i =? n then option_map f (nth_error l i) else nth_error l i.
Proof.
  revert n i; induction l as [|x t IH]; intros n i.
  - destruct i, n; simpl; auto. now destruct (i =? n).
  - destruct i, n; simpl; auto.
Qed.

Lemma update_nth_compose (f g : A -> A) (l : list A) (n : nat) :
  update_nth n f (update_nth n g l) = update_nth n (fun x => f (g x)) l.
Proof.
  revert n; induction l as [|x t IH]; intros [|n]; simpl; auto.
  now rewrite IH.
Qed.

Lemma update_nth_id (l : list A) (n : nat) :
  update_nth n (fun x => x) l = l.
Proof.
  revert n; induction l as [|x t IH]; intros [|n]; simpl; auto.
  now rewrite IH.
Qed.

Lemma update_nth_ext (f g : A -> A) (l : list A) (n : nat) :
  (forall x, f x = g x) -> update_nth n f l = update_nth n g l.
Proof.
  intros E; revert n; induction l as [|x t IH]; intros [|n]; simpl; auto.
  - now rewrite E.
  - now rewrite IH.
Qed.

Lemma enumerate_from_cons (a : nat) (x : A) (l : list A) :
  enumerate_from a (x :: l) = (a, x) :: enumerate_from (S a) l.
Proof. reflexivity. Qed.

Lemma fold_left_ext {S X : Type} (f g : S -> X -> S) (l : list X) (s : S) :
  (forall s x, f s x = g s x) -> fold_left f l s = fold_left g l s.
Proof.
  intros E; revert s; induction l as [|x t IH]; intros s; simpl; auto.
  now rewrite E, IH.
Qed.

Lemma for_each_ok {S X : Type} (body : S -> X -> result S)
    (step : S -> X -> S) (l : list X) (s : S) :
  (forall s x, body s x = Ok (step s x)) ->
  for_each body l s = Ok (fold_left step l s).
Proof.
  intros E; revert s; induction l as [|x t IH]; intros s; simpl; auto.
  rewrite E; simpl. apply IH.
Qed.
End PyListFacts.

(** A loop over [enumerate(l)] that rewrites cell [k] of an accumulator
    from item [k] leaves, in each cell, the rewriting of that item. *)
Lemma fold_update_enumerate {X B : Type} (F : nat -> X -> B -> B)
    (l : list X) (a : nat) (acc : list B) (i : nat) :
  nth_error
    (fold_left (fun acc kx => update_nth (fst kx) (F (fst kx) (snd kx)) acc)
               (enumerate_from a l) acc) i =
  match nth_error acc i with
  | None => None
  | Some old =>
      Some (if a <=? i
            then match nth_error l (i - a) with
                 | Some x => F i x old
                 | None => old
                 end
            else old)
  end.
Proof.
  revert a acc; induction l as [|x t IH]; intros a acc.
  - simpl. destruct (nth_error acc i); auto.
    destruct (a <=? i); auto. now destruct (i - a).
  - rewrite enumerate_from_cons. simpl fold_left. rewrite IH.
    rewrite nth_error_update_nth. cbn [fst snd].
    destruct (Nat.eqb_spec i a) as [->|Hne].
    + destruct (nth_error acc a) as [old|]; cbn [option_map]; auto.
      assert (H1 : (S a <=? a) = false) by (apply Nat.leb_gt; lia).
      rewrite H1, Nat.leb_refl, Nat.sub_diag. reflexivity.
    + destruct (nth_error acc i) as [old|]; auto.
      destruct (Nat.leb_spec (S a) i) as [Hle|Hgt].
      * assert (H1 : (a <=? i) = true) by (apply Nat.leb_le; lia).
        rewrite H1.
        replace (i - a) with (S (i - S a)) by lia. reflexivity.
      * assert (H1 : (a <=? i) = false) by (apply Nat.leb_gt; lia).
        now rewrite H1.
Qed.

(** ** Reward grids: what the loops of the three functions leave *)

Lemma fold_cell_update {X : Type} (F : nat -> X -> Q -> Q) (j : nat)
    (l : list (nat * X)) (r : ndarray Q) :
  fold_left (fun r kx => cell_update j (fst kx) (F (fst kx) (snd kx)) r) l r =
  mk_ndarray (shape r)
    (update_nth j
       (fun row =>
          fold_left (fun row kx => update_nth (fst kx) (F (fst kx) (snd kx)) row)
                    l row)
       (rows r)).
Proof.
  revert r; induction l as [|x t IH]; intros [sh rs]; simpl.
  - now rewrite update_nth_id.
  - rewrite IH. simpl. now rewrite update_nth_compose.
Qed.

Lemma wf_zeros_like {A} (a : ndarray A) : wf_ndarray (zeros_like a).
Proof.
  unfold wf_ndarray, zeros_like; simpl. split.
  - apply repeat_length.
  - apply Forall_forall. intros r Hr. apply repeat_spec in Hr. subst.
    apply repeat_length.
Qed.

Lemma getitem2_zeros_like {A} (a : ndarray A) (j k : nat) :
  j < fst (shape a) -> k < snd (shape a) ->
  getitem2 (zeros_like a) j k = Some 0%Q.
Proof.
  intros Hj Hk. unfold getitem2, zeros_like; simpl.
  rewrite (nth_error_repeat _ Hj). now apply nth_error_repeat.
Qed.

Lemma fold_row_update_shape G l r :
  shape (fold_left (row_update G) l r) = shape r.
Proof.
  revert r; induction l as [|x t IH]; intros r; simpl; auto.
  now rewrite IH.
Qed.

Lemma fold_row_update_rows G l r :
  rows (fold_left (row_update G) l r) =
  fold_left (fun acc jx => update_nth (fst jx) (G (fst jx) (snd jx)) acc)
            l (rows r).
Proof.
  revert r; induction l as [|x t IH]; intros r; simpl; auto.
Qed.

Lemma Forall_update_nth {A} (P : A -> Prop) (f : A -> A) (n : nat)
    (l : list A) :
  (forall x, P x -> P (f x)) -> Forall P l -> Forall P (update_nth n f l).
Proof.
  intros Hf; revert n; induction l as [|x t IH]; intros [|n] H; simpl; auto;
    inversion H; subst; constructor; auto.
Qed.

Lemma fold_row_update_wf G l r :
  (forall j x row, length (G j x row) = length row) ->
  wf_ndarray r -> wf_ndarray (fold_left (row_update G) l r).
Proof.
  intros HG; revert r; induction l as [|x t IH]; intros r Hwf; simpl; auto.
  apply IH. destruct Hwf as [H1 H2]. split; simpl.
  - now rewrite length_update_nth.
  - apply Forall_update_nth; auto. intros row Hrow. now rewrite HG.
Qed.

(** The cell [j, k] after such a batch loop over all rows. *)
Lemma fold_row_update_get G (gold pred : list (list Z)) (r : ndarray Q)
    (j k : nat) (g p : list Z) (row : list Q) :
  nth_error gold j = Some g -> nth_error pred j = Some p ->
  nth_error (rows r) j = Some row ->
  getitem2 (fold_left (row_update G) (enumerate (combine gold pred)) r) j k =
  nth_error (G j (g, p) row) k.
Proof.
  intros Hg Hp Hrow. unfold getitem2. rewrite fold_row_update_rows.
  unfold enumerate. rewrite fold_update_enumerate, Hrow. simpl.
  rewrite Nat.sub_0_r.
  assert (E : nth_error (combine gold pred) j = Some (g, p)).
  { clear Hrow. revert gold pred Hg Hp.
    induction j as [|j IH]; intros [|a gold] [|b pred]; simpl; try discriminate.
    - now intros [= ->] [= ->].
    - apply IH. }
  now rewrite E.
Qed.

(** ** token_recall_reward *)

Lemma ndarray_eta {A} (r : ndarray A) : mk_ndarray (shape r) (rows r) = r.
Proof. now destruct r. Qed.

Lemma cell_update_id (j k : nat) (r : ndarray Q) :
  cell_update j k (fun old => old) r = r.
Proof.
  unfold cell_update.
  rewrite (update_nth_ext _ (fun row => row)), update_nth_id.
  - apply ndarray_eta.
  - intros row. apply update_nth_id.
Qed.

Lemma recall_cell_update g j r kx :
  recall_cell g j r kx = cell_update j (fst kx) (recall_value g (snd kx)) r.
Proof.
  destruct kx as [k p_i]. unfold recall_cell, recall_value. cbn [fst snd].
  destruct (contains g p_i).
  - reflexivity.
  - now rewrite cell_update_id.
Qed.

Lemma recall_row_update r jx : recall_row r jx = row_update recall_row_fn r jx.
Proof.
  destruct jx as [j [g p]]. unfold recall_row, row_update, recall_row_fn.
  cbn [fst snd].
  rewrite (fold_left_ext _
    (fun r kx => cell_update j (fst kx) (recall_value g (snd kx)) r)).
  - apply (fold_cell_update (fun _ p_i => recall_value g p_i)).
  - intros. apply recall_cell_update.
Qed.

Lemma length_fold_update {X B} (F : nat -> X -> B -> B) l (acc : list B) :
  length (fold_left (fun acc kx => update_nth (fst kx) (F (fst kx) (snd kx)) acc)
                    l acc) = length acc.
Proof.
  revert acc; induction l as [|x t IH]; intros acc; simpl; auto.
  now rewrite IH, length_update_nth.
Qed.

Lemma wf_nth_row {A} (a : ndarray A) j r :
  wf_ndarray a -> nth_error (rows a) j = Some r ->
  j < fst (shape a) /\ length r = snd (shape a).
Proof.
  intros [H1 H2] Hj. split.
  - rewrite <- H1. apply nth_error_Some. congruence.
  - rewrite Forall_forall in H2. apply H2. eapply nth_error_In; eauto.
Qed.

Lemma zeros_like_row {A} (a : ndarray A) j :
  j < fst (shape a) ->
  nth_error (rows (zeros_like a)) j = Some (repeat 0%Q (snd (shape a))).
Proof. intros H. unfold zeros_like; simpl. now apply nth_error_repeat. Qed.

(** What [token_recall_reward] returns: a grid shaped like [pred] holding 1
    where the predicted id occurs in the gold row and 0 elsewhere.  No
    relation between the two shapes is asked. *)
Lemma token_recall_reward_spec (gold pred : ndarray Z) :
  wf_ndarray pred ->
  exists r,
    token_recall_reward gold pred = Ok r /\
    shape r = shape pred /\ wf_ndarray r /\
    forall j k g p p_i,
      nth_error (rows gold) j = Some g ->
      nth_error (rows pred) j = Some p ->
      nth_error p k = Some p_i ->
      getitem2 r j k = Some (if contains g p_i then 1%Q else 0%Q).
Proof.
  intros Hp. unfold token_recall_reward.
  rewrite (fold_left_ext _ (row_update recall_row_fn))
    by (intros; apply recall_row_update).
  eexists; split; [reflexivity|]. split; [|split].
  - now rewrite fold_row_update_shape.
  - apply fold_row_update_wf; [|apply wf_zeros_like].
    intros j x row. unfold recall_row_fn.
    apply (length_fold_update (fun _ p_i => recall_value (fst x) p_i)).
  - intros j k g p p_i Hg Hpj Hk.
    destruct (wf_nth_row pred j p Hp Hpj) as [Hj Hlen].
    rewrite (fold_row_update_get _ _ _ _ j k g p _ Hg Hpj (zeros_like_row pred j Hj)).
    unfold recall_row_fn, enumerate.
    rewrite (fold_update_enumerate (fun _ p_i => recall_value (fst (g, p)) p_i)).
    cbn [fst snd].
    assert (Hk' : k < snd (shape pred)).
    { rewrite <- Hlen. apply nth_error_Some. congruence. }
    rewrite (nth_error_repeat _ Hk'). simpl. rewrite Nat.sub_0_r, Hk.
    reflexivity.
Qed.

(** ** token_edit_reward *)

Lemma In_enumerate_from {A} (l : list A) (a : nat) (x : A) :
  In x l -> exists i, In (i, x) (enumerate_from a l).
Proof.
  revert a; induction l as [|y t IH]; intros a H; [destruct H|].
  rewrite enumerate_from_cons. destruct H as [->|H].
  - exists a. now left.
  - destruct (IH (S a) H) as [i Hi]. exists i. now right.
Qed.

Lemma np_where_eq_nonempty (g : list Z) (p_i : Z) :
  contains g p_i = true -> np_where_eq g p_i <> [].
Proof.
  unfold contains, np_where_eq. intros H.
  apply existsb_exists in H. destruct H as [x [Hx E]].
  apply Z.eqb_eq in E. subst x.
  destruct (In_enumerate_from g 0 p_i Hx) as [i Hi].
  intros Hnil. apply map_eq_nil in Hnil.
  assert (Hin : In (i, p_i) (filter (fun ix => (snd ix =? p_i)%Z) (enumerate g))).
  { apply filter_In. split; auto. simpl. apply Z.eqb_refl. }
  rewrite Hnil in Hin. destruct Hin.
Qed.

(** Inside its branch the shift reward is computed without raising, and is
    [1 - d / L] for some distance [d >= 0]. *)
Lemma shift_reward_ok (L : nat) (g : list Z) (k : nat) (p_i : Z) :
  contains g p_i = true ->
  exists d, (0 <= d)%Z /\
    shift_reward L g k p_i =
    Ok (1 - inject_Z d / inject_Z (Z.of_nat L))%Q.
Proof.
  intros H. apply np_where_eq_nonempty in H. unfold shift_reward.
  destruct (np_where_eq g p_i) as [|i t]; [congruence|]. simpl.
  eexists; split; [|reflexivity]. apply Z.abs_nonneg.
Qed.

Lemma edit_cell_update shifted L g j r kx :
  edit_cell shifted L g j r kx =
  Ok (cell_update j (fst kx) (edit_value shifted L g (fst kx) (snd kx)) r).
Proof.
  destruct kx as [k [g_i p_i]]. unfold edit_cell, edit_value. cbn [fst snd].
  destruct (Z.eqb p_i g_i); [reflexivity|].
  destruct (contains g p_i) eqn:Hc; cbn [andb].
  - destruct shifted.
    + destruct (shift_reward_ok L g k p_i Hc) as [d [_ ->]]. reflexivity.
    + now rewrite cell_update_id.
  - now rewrite cell_update_id.
Qed.

Lemma edit_row_update shifted L r jx :
  edit_row shifted L r jx = Ok (row_update (edit_row_fn shifted L) r jx).
Proof.
  destruct jx as [j [g p]]. unfold edit_row, row_update, edit_row_fn.
  cbn [fst snd].
  rewrite (for_each_ok _
    (fun r kx => cell_update j (fst kx) (edit_value shifted L g (fst kx) (snd kx)) r))
    by (intros; apply edit_cell_update).
  f_equal. apply (fold_cell_update (fun k gp_i => edit_value shifted L g k gp_i)).
Qed.

Lemma shape_eqb_eq (s t : nat * nat) : shape_eqb s t = true <-> s = t.
Proof.
  destruct s, t. unfold shape_eqb; simpl.
  rewrite andb_true_iff, !Nat.eqb_eq. split; [intros []|intros [=]]; subst; auto.
Qed.

Lemma nth_error_combine {A B} (a : list A) (b : list B) i x y :
  nth_error a i = Some x -> nth_error b i = Some y ->
  nth_error (combine a b) i = Some (x, y).
Proof.
  revert a b; induction i as [|i IH]; intros [|u a] [|v b]; simpl;
    try discriminate.
  - now intros [= ->] [= ->].
  - apply IH.
Qed.

(** What [token_edit_reward] returns on equal shapes. *)
Lemma token_edit_reward_spec (gold pred : ndarray Z) (shifted : bool) :
  wf_ndarray pred -> shape gold = shape pred ->
  exists r,
    token_edit_reward gold pred shifted = Ok r /\
    shape r = shape pred /\ wf_ndarray r /\
    forall j k g p g_i p_i,
      nth_error (rows gold) j = Some g ->
      nth_error (rows pred) j = Some p ->
      nth_error g k = Some g_i ->
      nth_error p k = Some p_i ->
      getitem2 r j k =
      Some (edit_reward_at shifted (snd (shape gold)) g k g_i p_i).
Proof.
  intros Hp Hs. unfold token_edit_reward.
  apply shape_eqb_eq in Hs as Hb. rewrite Hb. cbn [assert bind].
  rewrite (for_each_ok _ (row_update (edit_row_fn shifted (snd (shape gold)))))
    by (intros; apply edit_row_update).
  eexists; split; [reflexivity|]. split; [|split].
  - now rewrite fold_row_update_shape.
  - apply fold_row_update_wf; [|apply wf_zeros_like].
    intros j x row. unfold edit_row_fn.
    apply (length_fold_update
             (fun k gp_i => edit_value shifted (snd (shape gold)) (fst x) k gp_i)).
  - intros j k g p g_i p_i Hg Hpj Hgk Hpk.
    destruct (wf_nth_row pred j p Hp Hpj) as [Hj Hlen].
    rewrite (fold_row_update_get _ _ _ _ j k g p _ Hg Hpj (zeros_like_row pred j Hj)).
    unfold edit_row_fn, enumerate.
    rewrite (fold_update_enumerate
               (fun k gp_i => edit_value shifted (snd (shape gold)) (fst (g, p)) k gp_i)).
    cbn [fst snd].
    assert (Hk' : k < snd (shape pred)).
    { rewrite <- Hlen. apply nth_error_Some. congruence. }
    rewrite (nth_error_repeat _ Hk'). simpl. rewrite Nat.sub_0_r.
    now rewrite (nth_error_combine _ _ _ _ _ Hgk Hpk).
Qed.

Lemma Qdiv_nonneg (a b : Q) : (0 <= a)%Q -> (0 <= b)%Q -> (0 <= a / b)%Q.
Proof.
  intros Ha Hb. unfold Qdiv. apply Qmult_le_0_compat; auto.
  now apply Qinv_le_0_compat.
Qed.

Lemma contains_nth (g : list Z) (k : nat) (g_i : Z) :
  nth_error g k = Some g_i -> contains g g_i = true.
Proof.
  intros H. apply existsb_exists. exists g_i. split.
  - eapply nth_error_In; eauto.
  - apply Z.eqb_refl.
Qed.

(** Cell by cell, the edit reward is at most the recall reward. *)
Lemma edit_le_recall_at shifted L g k g_i p_i :
  nth_error g k = Some g_i ->
  (edit_reward_at shifted L g k g_i p_i <=
   (if contains g p_i then 1 else 0))%Q.
Proof.
  intros Hk. unfold edit_reward_at, edit_value. cbn [fst snd].
  destruct (Z.eqb_spec p_i g_i) as [->|Hne].
  - rewrite (contains_nth g k g_i Hk). apply Qle_refl.
  - destruct (contains g p_i) eqn:Hc; cbn [andb].
    + destruct shifted; [|discriminate].
      destruct (shift_reward_ok L g k p_i Hc) as [d [Hd ->]].
      assert (H0 : (0 <= inject_Z d / inject_Z (Z.of_nat L))%Q).
      { apply Qdiv_nonneg; rewrite <- (Zle_Qle 0); lia. }
      apply Qle_minus_iff.
      setoid_replace (1 + - (1 - inject_Z d / inject_Z (Z.of_nat L)))%Q
        with (inject_Z d / inject_Z (Z.of_nat L))%Q by ring.
      exact H0.
    + apply Qle_refl.
Qed.

(** C10: on equal-shaped grids and for either value of [shifted], both
    functions return, and at every position the recall reward (1 if the
    predicted id occurs in the gold row, 0 otherwise) is at least the edit
    reward. *)
Theorem token_recall_reward_dominates_token_edit_reward
    (gold pred : ndarray Z) (shifted : bool) :
  wf_ndarray gold -> wf_ndarray pred -> shape gold = shape pred ->
  exists r_edit r_recall,
    token_edit_reward gold pred shifted = Ok r_edit /\
    token_recall_reward gold pred = Ok r_recall /\
    forall j k, j < fst (shape pred) -> k < snd (shape pred) ->
      exists g p_i e r,
        nth_error (rows gold) j = Some g /\
        getitem2 pred j k = Some p_i /\
        getitem2 r_edit j k = Some e /\
        getitem2 r_recall j k = Some r /\
        r = (if contains g p_i then 1 else 0)%Q /\
        (e <= r)%Q.
Proof.
  intros Hg Hp Hs.
  destruct (token_edit_reward_spec gold pred shifted Hp Hs)
    as [re [Ee [_ [_ He]]]].
  destruct (token_recall_reward_spec gold pred Hp) as [rr [Er [_ [_ Hr]]]].
  exists re, rr. split; [exact Ee|]. split; [exact Er|].
  intros j k Hj Hk.
  destruct Hg as [Hg1 Hg2], Hp as [Hp1 Hp2].
  destruct (nth_error (rows gold) j) as [g|] eqn:Egj.
  2:{ apply nth_error_None in Egj. rewrite Hg1, Hs in Egj. lia. }
  destruct (nth_error (rows pred) j) as [p|] eqn:Epj.
  2:{ apply nth_error_None in Epj. rewrite Hp1 in Epj. lia. }
  assert (Lg : length g = snd (shape gold)).
  { rewrite Forall_forall in Hg2. apply Hg2. eapply nth_error_In; eauto. }
  assert (Lp : length p = snd (shape pred)).
  { rewrite Forall_forall in Hp2. apply Hp2. eapply nth_error_In; eauto. }
  destruct (nth_error g k) as [g_i|] eqn:Egk.
  2:{ apply nth_error_None in Egk. rewrite Lg, Hs in Egk. lia. }
  destruct (nth_error p k) as [p_i|] eqn:Epk.
  2:{ apply nth_error_None in Epk. rewrite Lp in Epk. lia. }
  exists g, p_i. eexists. eexists.
  split; [reflexivity|]. split; [unfold getitem2; now rewrite Epj|].
  split; [apply (He j k g p g_i p_i); auto|].
  split; [apply (Hr j k g p p_i); auto|].
  split; [reflexivity|].
  now apply edit_le_recall_at.
Qed.

Lemma token_recall_reward_dominates_token_edit_reward_witness :
  exists r_edit r_recall,
    token_edit_reward (grid_1x3 9 3 3) (grid_1x3 3 0 3) true = Ok r_edit /\
    token_recall_reward (grid_1x3 9 3 3) (grid_1x3 3 0 3) = Ok r_recall /\
    forall j k, j < 1 -> k < 3 ->
      exists g p_i e r,
        nth_error (rows (grid_1x3 9 3 3)) j = Some g /\
        getitem2 (grid_1x3 3 0 3) j k = Some p_i /\
        getitem2 r_edit j k = Some e /\
        getitem2 r_recall j k = Some r /\
        r = (if contains g p_i then 1 else 0)%Q /\
        (e <= r)%Q.
Proof.
  apply (token_recall_reward_dominates_token_edit_reward
           (grid_1x3 9 3 3) (grid_1x3 3 0 3) true).
  - split; [reflexivity|]. repeat constructor.
  - split; [reflexivity|]. repeat constructor.
  - reflexivity.
Defined.

(** ** C1: the shift reward where it parts from the specification *)

(** C1: with gold row [9, 3, 3] and id 3 predicted at position 0, the
    nearest gold position holding 3 is at distance 1, so the specification
    asks for 1 - 1/3; [token_edit_reward] takes the absolute value of the
    minimum of the signed differences, which is the distance 2 to the last
    such position, and returns 1 - 2/3. *)
Theorem token_edit_reward_shift_uses_last_position :
  token_edit_reward (grid_1x3 9 3 3) (grid_1x3 3 0 0) true
    = Ok (mk_ndarray (1, 3) [[(1 # 3)%Q; 0%Q; 0%Q]]) /\
  min_abs_distance [9; 3; 3]%Z 0 3 = Ok 1%Z /\
  spec_shift_reward 3 [9; 3; 3]%Z 0 3 = Ok (2 # 3)%Q /\
  ~ (1 # 3 == 2 # 3)%Q.
Proof.
  split; [vm_compute; reflexivity|].
  split; [vm_compute; reflexivity|].
  split; [vm_compute; reflexivity|].
  intros H. vm_compute in H. discriminate H.
Qed.

(** The minimum of the signed differences [k - ix] is reached at the
    greatest position [ix]. *)
Lemma fold_min_differences (k : Z) (l : list nat) (x : nat) :
  exists m,
    In m (x :: l) /\ (forall i, In i (x :: l) -> i <= m) /\
    fold_left Z.min (map (fun ix => (k - Z.of_nat ix)%Z) l) (k - Z.of_nat x)%Z
    = (k - Z.of_nat m)%Z.
Proof.
  revert x; induction l as [|y l IH]; intros x.
  - exists x. simpl. split; [auto|]. split; [|reflexivity].
    intros i [<-|[]]. lia.
  - simpl map. simpl fold_left.
    replace (Z.min (k - Z.of_nat x) (k - Z.of_nat y))
      with (k - Z.of_nat (Nat.max x y))%Z by lia.
    destruct (IH (Nat.max x y)) as [m [Hin [Hmax E]]].
    exists m. split; [|split; [|exact E]].
    + destruct Hin as [<-|Hin]; [|simpl; auto].
      destruct (Nat.max_spec x y) as [[_ ->]|[_ ->]]; simpl; auto.
    + intros i Hi. assert (Hm := Hmax (Nat.max x y) (or_introl eq_refl)).
      destruct Hi as [<-|[<-|Hi]]; try lia. apply Hmax. now right.
Qed.

(** What the shift branch of [token_edit_reward] computes: the distance to
    the greatest gold position holding the id, not to the nearest one. *)
Lemma shift_reward_uses_greatest_position (L : nat) (g : list Z) (k : nat)
    (p_i : Z) :
  contains g p_i = true ->
  exists m,
    In m (np_where_eq g p_i) /\
    (forall i, In i (np_where_eq g p_i) -> i <= m) /\
    shift_reward L g k p_i =
    Ok (1 - inject_Z (Z.abs (Z.of_nat k - Z.of_nat m))
            / inject_Z (Z.of_nat L))%Q.
Proof.
  intros H. apply np_where_eq_nonempty in H. unfold shift_reward.
  destruct (np_where_eq g p_i) as [|x l]; [congruence|].
  destruct (fold_min_differences (Z.of_nat k) l x) as [m [Hin [Hmax E]]].
  exists m. split; [exact Hin|]. split; [exact Hmax|].
  cbn [map np_min bind]. now rewrite E.
Qed.

(** On unequal shapes [token_edit_reward] fails its assertion. *)
Lemma token_edit_reward_unequal_shapes (gold pred : ndarray Z)
    (shifted : bool) :
  shape gold <> shape pred ->
  token_edit_reward gold pred shifted = Raise AssertionError.
Proof.
  intros H. unfold token_edit_reward.
  destruct (shape_eqb (shape gold) (shape pred)) eqn:E; [|reflexivity].
  apply shape_eqb_eq in E. contradiction.
Qed.

(** ** token_lcs_reward: the table and the two scalars *)

Lemma nth_update_nth {A} (f : A -> A) (l : list A) (n i : nat) (d : A) :
  n < length l ->
  nth i (update_nth n f l) d = if i =? n then f (nth i l d) else nth i l d.
Proof.
  revert n i; induction l as [|x t IH]; intros n i H; simpl in H; [lia|].
  destruct n, i; simpl; auto. apply IH. lia.
Qed.

Lemma tbl_get_set (t : list (list nat)) (x y v i j : nat) :
  x < length t -> y < length (nth x t []) ->
  tbl_get (tbl_set t x y v) i j =
  if (i =? x) && (j =? y) then v else tbl_get t i j.
Proof.
  intros Hx Hy. unfold tbl_get, tbl_set.
  rewrite nth_update_nth by assumption.
  destruct (Nat.eqb_spec i x) as [->|Hi]; cbn [andb]; auto.
  unfold set_nth. rewrite nth_update_nth by assumption.
  now destruct (j =? y).
Qed.

Lemma tbl_set_length (t : list (list nat)) (x y v : nat) :
  length (tbl_set t x y v) = length t.
Proof. apply length_update_nth. Qed.

Lemma tbl_set_row_length (t : list (list nat)) (x y v i : nat) :
  length (nth i (tbl_set t x y v) []) = length (nth i t []).
Proof.
  unfold tbl_set. destruct (Nat.lt_ge_cases x (length t)) as [Hx|Hx].
  - rewrite nth_update_nth by assumption.
    destruct (Nat.eqb_spec i x) as [->|Hi]; auto.
    unfold set_nth. apply length_update_nth.
  - replace (update_nth x (set_nth y v) t) with t; auto.
    clear -Hx. revert x Hx; induction t as [|r t IH]; intros x Hx;
      destruct x; simpl in *; auto; try lia.
    f_equal. apply IH. lia.
Qed.

Lemma fold_left_seq_inv {S : Type} (f : S -> nat -> S) (P : nat -> S -> Prop)
    (a n : nat) (s : S) :
  P 0 s ->
  (forall k s, k < n -> P k s -> P (Datatypes.S k) (f s (a + k))) ->
  P n (fold_left f (seq a n) s).
Proof.
  revert a s P; induction n as [|n IH]; intros a s P H0 Hstep; simpl; auto.
  apply (IH (Datatypes.S a) (f s a) (fun k => P (Datatypes.S k))).
  - specialize (Hstep 0 s). rewrite Nat.add_0_r in Hstep. apply Hstep; auto. lia.
  - intros k s' Hk HP. specialize (Hstep (Datatypes.S k) s').
    replace (a + Datatypes.S k) with (Datatypes.S a + k) in Hstep by lia.
    apply Hstep; auto. lia.
Qed.

Section LcsScan.
Variables pred gold : list Z.

Local Abbreviation lp := (length pred).
Local Abbreviation lg := (length gold).

Lemma lcs_inv_init : lcs_inv pred gold (lcs_init pred gold) 1 0.
Proof.
  unfold lcs_init. constructor; cbn [m longest x_longest].
  - apply repeat_length.
  - intros i Hi. rewrite nth_repeat_lt by (fold lp; lia). apply repeat_length.
  - intros i j Hi Hj Hs. unfold tbl_get.
    rewrite nth_repeat_lt by (fold lp; lia).
    rewrite nth_repeat_lt by (fold lg; lia).
    unfold scanned in Hs.
    destruct i as [|i]; [reflexivity|]. destruct j as [|j]; [reflexivity|]. lia.
  - unfold scanned. intros; lia.
  - now left.
  - unfold scanned. intros; lia.
Qed.

Lemma lcs_inv_next_row st x :
  lcs_inv pred gold st x lg -> lcs_inv pred gold st (S x) 0.
Proof.
  intros [H1 H2 H3 H4 H5 H6]. constructor; auto.
  - intros i j Hi Hj Hs. apply H3; auto.
    assert (i = 0 \/ j = 0 \/ scanned x lg i j)
      by (unfold scanned in *; lia).
    tauto.
  - intros i j Hi Hj Hs. apply H4; auto. unfold scanned in *. lia.
  - destruct H5 as [?|[? [? [j [? [Hs ?]]]]]]; auto. right.
    repeat split; auto. exists j. repeat split; auto; try lia.
    unfold scanned in *. lia.
  - intros i j Hi Hj Hs. apply H6; auto. unfold scanned in *. lia.
Qed.

Lemma lcs_cell_inv st x y :
  1 <= x <= lp -> y < lg -> lcs_inv pred gold st x y ->
  lcs_inv pred gold (lcs_cell pred gold x st (S y)) x (S y).
Proof.
  intros Hx Hy [H1 H2 H3 H4 H5 H6].
  destruct x as [|x']; [lia|].
  assert (Hxm : S x' < length (m st)) by lia.
  assert (Hym : S y < length (nth (S x') (m st) [])) by (rewrite H2; lia).
  assert (Hprev : tbl_get (m st) x' y = run pred gold x' y).
  { apply H3; try lia. destruct x'; auto. destruct y; auto.
    right; right. left. lia. }
  assert (Hsc : forall i j, scanned (S x') (S y) i j <->
                            scanned (S x') y i j \/ (i = S x' /\ j = S y)).
  { unfold scanned. intros; lia. }
  unfold lcs_cell. replace (S x' - 1) with x' by lia.
  replace (S y - 1) with y by lia.
  assert (Hrun : run pred gold (S x') (S y) =
                 if Z.eqb (nth x' pred 0%Z) (nth y gold 0%Z)
                 then S (run pred gold x' y) else 0) by reflexivity.
  destruct (Z.eqb (nth x' pred 0%Z) (nth y gold 0%Z)).
  - rewrite (tbl_get_set _ _ _ _ _ _ Hxm Hym), !Nat.eqb_refl. cbn [andb].
    rewrite Hprev. replace (run pred gold x' y + 1) with (run pred gold (S x') (S y))
      by (rewrite Hrun; lia).
    set (v := run pred gold (S x') (S y)) in *.
    assert (Htable : forall i j, i <= lp -> j <= lg ->
              i = 0 \/ j = 0 \/ scanned (S x') (S y) i j ->
              tbl_get (tbl_set (m st) (S x') (S y) v) i j = run pred gold i j).
    { intros i j Hi Hj Hs. rewrite (tbl_get_set _ _ _ _ _ _ Hxm Hym).
      destruct (Nat.eqb_spec i (S x')) as [->|Hi']; cbn [andb].
      - destruct (Nat.eqb_spec j (S y)) as [->|Hj']; [reflexivity|].
        apply H3; auto. destruct Hs as [?|[?|Hs]]; auto.
        right; right. apply Hsc in Hs. destruct Hs; auto. lia.
      - apply H3; auto. destruct Hs as [?|[?|Hs]]; auto.
        right; right. apply Hsc in Hs. destruct Hs; auto. lia. }
    destruct (Nat.ltb_spec (longest st) v) as [Hlt|Hge];
      constructor; cbn [m longest x_longest].
    + now rewrite tbl_set_length.
    + intros i Hi. rewrite tbl_set_row_length. auto.
    + exact Htable.
    + intros i j Hi Hj Hs. apply Hsc in Hs. destruct Hs as [Hs|[-> ->]].
      * specialize (H4 i j Hi Hj Hs). lia.
      * fold v. lia.
    + right. split; [lia|]. split; [lia|]. exists (S y).
      split; [lia|]. split; [apply Hsc; auto|reflexivity].
    + intros i j Hi Hj Hs E Hpos. apply Hsc in Hs.
      destruct Hs as [Hs|[-> ->]]; [|lia].
      specialize (H4 i j Hi Hj Hs). lia.
    + now rewrite tbl_set_length.
    + intros i Hi. rewrite tbl_set_row_length. auto.
    + exact Htable.
    + intros i j Hi Hj Hs. apply Hsc in Hs. destruct Hs as [Hs|[-> ->]].
      * apply H4; auto.
      * fold v. lia.
    + destruct H5 as [?|[? [? [j [? [Hs ?]]]]]]; auto. right.
      repeat split; auto. exists j. repeat split; auto; try lia.
      apply Hsc. now left.
    + intros i j Hi Hj Hs E Hpos. apply Hsc in Hs.
      destruct Hs as [Hs|[-> ->]]; [now apply (H6 i j)|].
      destruct H5 as [[? ?]|[_ [_ [j' [_ [Hs' _]]]]]]; [lia|].
      unfold scanned in Hs'. lia.
  - assert (Htable : forall i j, i <= lp -> j <= lg ->
              i = 0 \/ j = 0 \/ scanned (S x') (S y) i j ->
              tbl_get (tbl_set (m st) (S x') (S y) 0) i j = run pred gold i j).
    { intros i j Hi Hj Hs. rewrite (tbl_get_set _ _ _ _ _ _ Hxm Hym).
      destruct (Nat.eqb_spec i (S x')) as [->|Hi']; cbn [andb].
      - destruct (Nat.eqb_spec j (S y)) as [->|Hj']; [now rewrite Hrun|].
        apply H3; auto. destruct Hs as [?|[?|Hs]]; auto.
        right; right. apply Hsc in Hs. destruct Hs; auto. lia.
      - apply H3; auto. destruct Hs as [?|[?|Hs]]; auto.
        right; right. apply Hsc in Hs. destruct Hs; auto. lia. }
    constructor; cbn [m longest x_longest].
    + now rewrite tbl_set_length.
    + intros i Hi. rewrite tbl_set_row_length. auto.
    + exact Htable.
    + intros i j Hi Hj Hs. apply Hsc in Hs. destruct Hs as [Hs|[-> ->]].
      * apply H4; auto.
      * rewrite Hrun. lia.
    + destruct H5 as [?|[? [? [j [? [Hs ?]]]]]]; auto. right.
      repeat split; auto. exists j. repeat split; auto; try lia.
      apply Hsc. now left.
    + intros i j Hi Hj Hs E Hpos. apply Hsc in Hs.
      destruct Hs as [Hs|[-> ->]]; [now apply (H6 i j)|].
      rewrite Hrun in E. lia.
Qed.

Lemma lcs_row_inv st x :
  1 <= x <= lp -> lcs_inv pred gold st x 0 ->
  lcs_inv pred gold (lcs_row pred gold st x) (S x) 0.
Proof.
  intros Hx H. apply lcs_inv_next_row. unfold lcs_row. fold lg.
  apply (fold_left_seq_inv (lcs_cell pred gold x) (fun k s => lcs_inv pred gold s x k));
    auto.
  intros k s Hk Hs. now apply lcs_cell_inv.
Qed.

Lemma lcs_scan_inv : lcs_inv pred gold (lcs_scan pred gold) (S lp) 0.
Proof.
  unfold lcs_scan. fold lp.
  apply (fold_left_seq_inv (lcs_row pred gold)
           (fun k s => lcs_inv pred gold s (S k) 0)).
  - apply lcs_inv_init.
  - intros k s Hk Hs. apply lcs_row_inv; auto. lia.
Qed.
End LcsScan.

(** ** token_lcs_reward: runs and what is marked *)

Lemma run_le (pred gold : list Z) (x y : nat) :
  run pred gold x y <= x /\ run pred gold x y <= y.
Proof.
  revert y; induction x as [|x IH]; intros [|y]; simpl; try lia.
  destruct (Z.eqb _ _); [|lia]. specialize (IH y). lia.
Qed.

Lemma run_common (pred gold : list Z) (x y : nat) :
  x <= length pred -> y <= length gold ->
  common pred gold (x - run pred gold x y) (y - run pred gold x y)
         (run pred gold x y).
Proof.
  revert y; induction x as [|x IH]; intros y Hx Hy.
  - simpl. repeat split; try lia; intros; lia.
  - destruct y as [|y].
    + simpl. repeat split; try lia; intros; lia.
    + simpl run. destruct (Z.eqb_spec (nth x pred 0%Z) (nth y gold 0%Z)) as [E|_].
      * destruct (run_le pred gold x y) as [Lx Ly].
        destruct (IH y ltac:(lia) ltac:(lia)) as [_ [_ Hc]].
        set (r := run pred gold x y) in *.
        replace (S x - S r) with (x - r) by lia.
        replace (S y - S r) with (y - r) by lia.
        repeat split; try lia.
        intros i Hi. destruct (Nat.eq_dec i r) as [->|Hne].
        -- replace (x - r + r) with x by lia.
           replace (y - r + r) with y by lia. exact E.
        -- apply Hc. lia.
      * repeat split; try lia; intros; lia.
Qed.

Lemma common_le_run (pred gold : list Z) (s t l : nat) :
  common pred gold s t l -> l <= run pred gold (s + l) (t + l).
Proof.
  induction l as [|l IH]; intros [H1 [H2 H3]]; [lia|].
  assert (Hl : l <= run pred gold (s + l) (t + l)).
  { apply IH. repeat split; try lia. intros i Hi. apply H3. lia. }
  replace (s + S l) with (S (s + l)) by lia.
  replace (t + S l) with (S (t + l)) by lia.
  simpl. rewrite (H3 l) by lia. rewrite Z.eqb_refl. lia.
Qed.

Lemma slice_fill_zeros (lo hi n : nat) :
  slice_fill lo hi 1%Q (repeat 0%Q n) = indicator lo hi n.
Proof.
  unfold slice_fill, indicator, enumerate, enumerate_from.
  rewrite repeat_length. generalize 0 as a.
  induction n as [|n IH]; intros a; simpl; auto.
  now rewrite IH.
Qed.

Lemma length_indicator lo hi n : length (indicator lo hi n) = n.
Proof. unfold indicator. now rewrite length_map, length_seq. Qed.

(** The two scalars after the scan: [longest] is the greatest length of a
    common run, and [x_longest] ends the first run of that length. *)
Lemma lcs_scan_spec (pred gold : list Z) :
  let st := lcs_scan pred gold in
  (longest st <= x_longest st /\ x_longest st <= length pred) /\
  (exists t, common pred gold (x_longest st - longest st) t (longest st)) /\
  (forall s' t' l', common pred gold s' t' l' -> l' <= longest st) /\
  (forall s' t', common pred gold s' t' (longest st) -> 0 < longest st ->
                 x_longest st - longest st <= s').
Proof.
  destruct (lcs_scan_inv pred gold) as [_ _ _ Hmax Hat Hfirst].
  set (st := lcs_scan pred gold) in *. cbv zeta.
  assert (Hle : longest st <= x_longest st /\ x_longest st <= length pred).
  { destruct Hat as [[-> ->]|[_ [_ [j [Hj [Hs E]]]]]]; [lia|].
    destruct (run_le pred gold (x_longest st) j). unfold scanned in Hs. lia. }
  split; [exact Hle|]. split; [|split].
  - destruct Hat as [[E1 E2]|[_ [_ [j [Hj [Hs E]]]]]].
    + exists 0. rewrite E1, E2. repeat split; simpl; try lia; intros; lia.
    + exists (j - longest st). rewrite <- E. apply run_common; lia.
  - intros s' t' l' Hc. destruct l' as [|l']; [lia|].
    pose proof (common_le_run _ _ _ _ _ Hc) as Hr.
    destruct Hc as [H1 [H2 _]].
    assert (run pred gold (s' + S l') (t' + S l') <= longest st).
    { apply Hmax; try lia. unfold scanned. lia. }
    lia.
  - intros s' t' Hc Hpos.
    pose proof (common_le_run _ _ _ _ _ Hc) as Hr.
    destruct Hc as [H1 [H2 _]].
    assert (Hm : run pred gold (s' + longest st) (t' + longest st) <= longest st).
    { apply Hmax; try lia. unfold scanned. lia. }
    assert (x_longest st <= s' + longest st).
    { apply (Hfirst (s' + longest st) (t' + longest st)); try lia.
      unfold scanned. lia. }
    lia.
Qed.

(** The row of rewards of one pair of rows: the marked positions are a
    longest common run, and the earliest of the longest ones in pred. *)
Lemma longest_common_substring_rewards_spec (pred gold : list Z) :
  exists s l,
    longest_common_substring_rewards pred gold =
      indicator s (s + l) (length pred) /\
    (exists t, common pred gold s t l) /\
    (forall s' t' l', common pred gold s' t' l' -> l' <= l) /\
    (forall s' t', common pred gold s' t' l -> 0 < l -> s <= s').
Proof.
  destruct (lcs_scan_spec pred gold) as [Hle [H1 [H2 H3]]].
  exists (x_longest (lcs_scan pred gold) - longest (lcs_scan pred gold)),
         (longest (lcs_scan pred gold)).
  split; [|auto].
  unfold longest_common_substring_rewards.
  rewrite slice_fill_zeros. f_equal. lia.
Qed.

Lemma Qplus_0_l_eq (q : Q) : (0 + q)%Q = q.
Proof.
  destruct q as [n d]. unfold Qplus. simpl. now rewrite Z.mul_1_r.
Qed.

Lemma np_add_zeros (r : list Q) : np_add (repeat 0%Q (length r)) r = r.
Proof.
  induction r as [|q r IH]; simpl; auto. now rewrite Qplus_0_l_eq, IH.
Qed.

Lemma lcs_batch_row_update r jx :
  lcs_batch_row r jx = row_update lcs_row_fn r jx.
Proof. now destruct jx as [j [g p]]. Qed.

Lemma length_longest_common_substring_rewards pred gold :
  length (longest_common_substring_rewards pred gold) = length pred.
Proof.
  unfold longest_common_substring_rewards.
  rewrite slice_fill_zeros. apply length_indicator.
Qed.

(** What [token_lcs_reward] returns: row [j] of the result is the row of
    rewards of the [j]-th rows.  No relation between the shapes is asked. *)
Lemma token_lcs_reward_spec (gold pred : ndarray Z) :
  wf_ndarray pred ->
  exists r,
    token_lcs_reward gold pred = Ok r /\
    shape r = shape pred /\
    forall j g p,
      nth_error (rows gold) j = Some g ->
      nth_error (rows pred) j = Some p ->
      nth_error (rows r) j = Some (longest_common_substring_rewards p g).
Proof.
  intros Hp. unfold token_lcs_reward.
  rewrite (fold_left_ext _ (row_update lcs_row_fn))
    by (intros; apply lcs_batch_row_update).
  eexists; split; [reflexivity|]. split.
  - now rewrite fold_row_update_shape.
  - intros j g p Hg Hpj.
    destruct (wf_nth_row pred j p Hp Hpj) as [Hj Hlen].
    rewrite fold_row_update_rows. unfold enumerate.
    rewrite fold_update_enumerate, (zeros_like_row pred j Hj). simpl.
    rewrite Nat.sub_0_r, (nth_error_combine _ _ _ _ _ Hg Hpj).
    unfold lcs_row_fn. cbn [fst snd]. rewrite <- Hlen.
    rewrite <- (length_longest_common_substring_rewards p g).
    now rewrite np_add_zeros.
Qed.

(** C6: every row of the result of [token_lcs_reward] is 1 exactly on the
    positions [s .. s + l - 1] of one longest common contiguous run of the
    predicted and the gold row, and 0 elsewhere; on gold [1, 2, 3, 4] and
    predicted [9, 2, 3, 9] the rewards are [0, 1, 1, 0]. *)
Theorem token_lcs_reward_marks_a_longest_common_run :
  (forall gold pred : ndarray Z,
     wf_ndarray pred -> shape gold = shape pred ->
     exists r,
       token_lcs_reward gold pred = Ok r /\
       shape r = shape pred /\
       forall j g p,
         nth_error (rows gold) j = Some g ->
         nth_error (rows pred) j = Some p ->
         exists s l,
           nth_error (rows r) j = Some (indicator s (s + l) (length p)) /\
           (exists t, common p g s t l) /\
           (forall s' t' l', common p g s' t' l' -> l' <= l)) /\
  token_lcs_reward (mk_ndarray (1, 4) [[1; 2; 3; 4]%Z])
                   (mk_ndarray (1, 4) [[9; 2; 3; 9]%Z])
    = Ok (mk_ndarray (1, 4) [[0%Q; 1%Q; 1%Q; 0%Q]]).
Proof.
  split; [|vm_compute; reflexivity].
  intros gold pred Hp _.
  destruct (token_lcs_reward_spec gold pred Hp) as [r [E [Hs Hr]]].
  exists r. split; [exact E|]. split; [exact Hs|].
  intros j g p Hg Hpj.
  destruct (longest_common_substring_rewards_spec p g)
    as [s [l [E1 [E2 [E3 _]]]]].
  exists s, l. rewrite (Hr j g p Hg Hpj), E1. auto.
Qed.

Lemma token_lcs_reward_marks_a_longest_common_run_witness :
  exists r,
    token_lcs_reward (grid_1x3 1 2 3) (grid_1x3 2 3 1) = Ok r /\
    shape r = (1, 3) /\
    forall j g p,
      nth_error (rows (grid_1x3 1 2 3)) j = Some g ->
      nth_error (rows (grid_1x3 2 3 1)) j = Some p ->
      exists s l,
        nth_error (rows r) j = Some (indicator s (s + l) (length p)) /\
        (exists t, common p g s t l) /\
        (forall s' t' l', common p g s' t' l' -> l' <= l).
Proof.
  apply (proj1 token_lcs_reward_marks_a_longest_common_run
               (grid_1x3 1 2 3) (grid_1x3 2 3 1)).
  - split; [reflexivity|]. repeat constructor.
  - reflexivity.
Defined.

(** C2, as stated, fails: gold [1, 2, 0, 3, 4] and predicted
    [1, 2, 9, 3, 4] have two common runs of the greatest length 2, at
    predicted positions 0-1 and 3-4; the run met last is the second, and
    [token_lcs_reward] marks the first. *)
Lemma token_lcs_reward_does_not_keep_last_run :
  let g := [1; 2; 0; 3; 4]%Z in
  let p := [1; 2; 9; 3; 4]%Z in
  common p g 0 0 2 /\ common p g 3 3 2 /\
  (forall s t l, common p g s t l -> l <= 2) /\
  spec_last_run_rewards p g = [0; 0; 0; 1; 1]%Q /\
  token_lcs_reward (mk_ndarray (1, 5) [g]) (mk_ndarray (1, 5) [p])
    = Ok (mk_ndarray (1, 5) [[1; 1; 0; 0; 0]%Q]) /\
  token_lcs_reward (mk_ndarray (1, 5) [g]) (mk_ndarray (1, 5) [p])
    <> Ok (mk_ndarray (1, 5) [spec_last_run_rewards p g]).
Proof.
  cbv zeta.
  assert (Hc : forall s, s = 0 \/ s = 3 ->
            common [1; 2; 9; 3; 4]%Z [1; 2; 0; 3; 4]%Z s s 2).
  { intros s Hs. repeat split; simpl; try lia.
    intros i Hi. destruct Hs as [->| ->];
      destruct i as [|[|i]]; try lia; reflexivity. }
  split; [apply Hc; auto|]. split; [apply Hc; auto|].
  split; [|split; [vm_compute; reflexivity|split; [vm_compute; reflexivity|]]].
  - intros s t l H.
    destruct (lcs_scan_spec [1; 2; 9; 3; 4]%Z [1; 2; 0; 3; 4]%Z)
      as [_ [_ [Hmax _]]].
    apply (Hmax s t l H).
  - vm_compute. discriminate.
Qed.

(** C2, amended: every row of the result of [token_lcs_reward] is 1 exactly
    on one longest common run, and when several runs share the greatest
    length the marked one is the run met first in the scan: no other run
    of that length starts earlier in the predicted row. *)
Theorem token_lcs_reward_keeps_first_longest_run (gold pred : ndarray Z) :
  wf_ndarray pred -> shape gold = shape pred ->
  exists r,
    token_lcs_reward gold pred = Ok r /\
    forall j g p,
      nth_error (rows gold) j = Some g ->
      nth_error (rows pred) j = Some p ->
      exists s l,
        nth_error (rows r) j = Some (indicator s (s + l) (length p)) /\
        (exists t, common p g s t l) /\
        (forall s' t' l', common p g s' t' l' ->
           l' <= l /\ (l' = l -> 0 < l -> s <= s')).
Proof.
  intros Hp _.
  destruct (token_lcs_reward_spec gold pred Hp) as [r [E [Hs Hr]]].
  exists r. split; [exact E|].
  intros j g p Hg Hpj.
  destruct (longest_common_substring_rewards_spec p g)
    as [s [l [E1 [E2 [E3 E4]]]]].
  exists s, l. rewrite (Hr j g p Hg Hpj), E1.
  split; [reflexivity|]. split; [exact E2|].
  intros s' t' l' Hc. split; [now apply (E3 s' t')|].
  intros -> Hl. now apply (E4 s' t').
Qed.

Lemma token_lcs_reward_keeps_first_longest_run_witness :
  exists r,
    token_lcs_reward (mk_ndarray (1, 5) [[1; 2; 0; 3; 4]%Z])
                     (mk_ndarray (1, 5) [[1; 2; 9; 3; 4]%Z]) = Ok r /\
    forall j g p,
      nth_error [[1; 2; 0; 3; 4]%Z] j = Some g ->
      nth_error [[1; 2; 9; 3; 4]%Z] j = Some p ->
      exists s l,
        nth_error (rows r) j = Some (indicator s (s + l) (length p)) /\
        (exists t, common p g s t l) /\
        (forall s' t' l', common p g s' t' l' ->
           l' <= l /\ (l' = l -> 0 < l -> s <= s')).
Proof.
  apply (token_lcs_reward_keeps_first_longest_run
           (mk_ndarray (1, 5) [[1; 2; 0; 3; 4]%Z])
           (mk_ndarray (1, 5) [[1; 2; 9; 3; 4]%Z])).
  - split; [reflexivity|]. repeat constructor.
  - reflexivity.
Defined.

(** C7: on equal shapes each of the three functions returns a grid of the
    shape of pred; on unequal shapes only [token_edit_reward] fails, on its
    assertion, while [token_lcs_reward] and [token_recall_reward] have no
    such check and still return a grid of the shape of pred, as on a 1 x 3
    gold grid and a 1 x 2 predicted grid. *)
Theorem unequal_shapes_only_edit_reward_fails :
  (forall (gold pred : ndarray Z) (shifted : bool),
     wf_ndarray pred -> shape gold = shape pred ->
     exists r_edit r_lcs r_recall,
       token_edit_reward gold pred shifted = Ok r_edit /\
       token_lcs_reward gold pred = Ok r_lcs /\
       token_recall_reward gold pred = Ok r_recall /\
       shape r_edit = shape pred /\ shape r_lcs = shape pred /\
       shape r_recall = shape pred) /\
  (forall (gold pred : ndarray Z) (shifted : bool),
     wf_ndarray pred -> shape gold <> shape pred ->
     token_edit_reward gold pred shifted = Raise AssertionError /\
     exists r_lcs r_recall,
       token_lcs_reward gold pred = Ok r_lcs /\
       token_recall_reward gold pred = Ok r_recall /\
       shape r_lcs = shape pred /\ shape r_recall = shape pred) /\
  (let gold := mk_ndarray (1, 3) [[1; 2; 3]%Z] in
   let pred := mk_ndarray (1, 2) [[1; 2]%Z] in
   token_edit_reward gold pred true = Raise AssertionError /\
   token_lcs_reward gold pred = Ok (mk_ndarray (1, 2) [[1%Q; 1%Q]]) /\
   token_recall_reward gold pred = Ok (mk_ndarray (1, 2) [[1%Q; 1%Q]])).
Proof.
  split; [|split].
  - intros gold pred shifted Hp Hs.
    destruct (token_edit_reward_spec gold pred shifted Hp Hs) as [re [E1 [S1 _]]].
    destruct (token_lcs_reward_spec gold pred Hp) as [rl [E2 [S2 _]]].
    destruct (token_recall_reward_spec gold pred Hp) as [rr [E3 [S3 _]]].
    exists re, rl, rr. auto 10.
  - intros gold pred shifted Hp Hs.
    split; [now apply token_edit_reward_unequal_shapes|].
    destruct (token_lcs_reward_spec gold pred Hp) as [rl [E2 [S2 _]]].
    destruct (token_recall_reward_spec gold pred Hp) as [rr [E3 [S3 _]]].
    exists rl, rr. auto.
  - cbv zeta. repeat split; vm_compute; reflexivity.
Qed.

Lemma unequal_shapes_only_edit_reward_fails_witness :
  let gold := mk_ndarray (2, 1) [[7]; [8]]%Z in
  let pred := mk_ndarray (1, 2) [[8; 9]]%Z in
  token_edit_reward gold pred false = Raise AssertionError /\
  exists r_lcs r_recall,
    token_lcs_reward gold pred = Ok r_lcs /\
    token_recall_reward gold pred = Ok r_recall /\
    shape r_lcs = (1, 2) /\ shape r_recall = (1, 2).
Proof.
  intros gold pred.
  apply (proj1 (proj2 unequal_shapes_only_edit_reward_fails) gold pred false).
  - split; [reflexivity|]. repeat constructor.
  - discriminate.
Defined.

(** ** f1_bin *)

Lemma fold_left_Zadd (l : list Z) (a : Z) :
  fold_left Z.add l a = (a + np_sum l)%Z.
Proof.
  unfold np_sum. revert a; induction l as [|x l IH]; intros a; simpl.
  - lia.
  - rewrite IH, (IH x). lia.
Qed.

Lemma np_sum_cons (x : Z) (l : list Z) : np_sum (x :: l) = (x + np_sum l)%Z.
Proof. unfold np_sum at 1. simpl. apply fold_left_Zadd. Qed.

Lemma confusion_counts (h r : list Z) :
  length h = length r -> Forall is01 h -> Forall is01 r ->
  (0 <= tp_1_of h r /\ 0 <= tp_0_of h r /\ 0 <= fp_1_of h r /\
   0 <= fn_1_of h r /\
   tp_0_of h r + tp_1_of h r + fn_1_of h r + fp_1_of h r
     = Z.of_nat (length h))%Z.
Proof.
  unfold tp_1_of, tp_0_of, fp_1_of, fn_1_of, np_zip.
  revert r; induction h as [|x h IH]; intros [|y r] Hl Hh Hr;
    try discriminate.
  - cbn. lia.
  - inversion Hh as [|? ? Hx Hh']; inversion Hr as [|? ? Hy Hr']; subst.
    specialize (IH r ltac:(simpl in Hl; lia) Hh' Hr').
    cbn [map combine fst snd length]. rewrite !np_sum_cons, Nat2Z.inj_succ.
    destruct Hx as [-> | ->], Hy as [-> | ->];
      repeat match goal with
             | |- context [Z.land ?a ?b] =>
                 let v := eval vm_compute in (Z.land a b) in
                 change (Z.land a b) with v
             end; lia.
Qed.

Lemma f_null_not_gt (a : float64) : f_null a -> f_gtb a (Fin 0%Q) = false.
Proof.
  destruct a as [[n d]| | |]; simpl; try tauto. intros ->. reflexivity.
Qed.

Lemma f_null_add (a b : float64) : f_null a -> f_null b -> f_null (f_add a b).
Proof.
  destruct a as [[n d]| | |], b as [[n' d']| | |]; simpl; try tauto.
  intros -> ->. reflexivity.
Qed.

Lemma f_null_div_0 (z : Z) : f_null (f_div (f_of_Z 0) (f_of_Z z)).
Proof.
  unfold f_of_Z, f_div. destruct (Qzero (inject_Z z)); reflexivity.
Qed.

Lemma f1_of_not_gt (prec rec : float64) :
  f_gtb (f_add prec rec) (Fin 0%Q) = false -> f1_of prec rec = Fin 0%Q.
Proof. unfold f1_of. now intros ->. Qed.

(** The F1 of a class without true positives is 0: this is the case of
    every zero denominator, [tp + fp], [tp + fn] or [prec + rec]. *)
Lemma f1_of_no_true_positive (fp fn : Z) :
  f1_of (prec_of 0 fp) (rec_of 0 fn) = Fin 0%Q.
Proof.
  apply f1_of_not_gt, f_null_not_gt, f_null_add; apply f_null_div_0.
Qed.

(** C8: on two 0/1 arrays of one length [f1_bin] returns the two F1 values
    without raising; the F1 of a class is 0 whenever its precision plus
    recall, the denominator of the F1, is zero (or not-a-number after a
    division by zero), which is the case as soon as one of the denominators
    [tp + fp], [tp + fn] of the class is zero; on all-zero arrays of length
    5 the F1 of the positive class is 0. *)
Theorem f1_bin_returns_and_zero_denominator_gives_zero :
  (forall h r : list Z,
     length h = length r -> Forall is01 h -> Forall is01 r ->
     let prec_1 := prec_of (tp_1_of h r) (fp_1_of h r) in
     let rec_1 := rec_of (tp_1_of h r) (fn_1_of h r) in
     let prec_0 := prec_of (tp_0_of h r) (fn_1_of h r) in
     let rec_0 := rec_of (tp_0_of h r) (fp_1_of h r) in
     exists f1_1 f1_0,
       f1_bin h r = Ok (f1_1, f1_0) /\
       f1_1 = f1_of prec_1 rec_1 /\ f1_0 = f1_of prec_0 rec_0 /\
       (f_null (f_add prec_1 rec_1) -> f1_1 = Fin 0%Q) /\
       (f_null (f_add prec_0 rec_0) -> f1_0 = Fin 0%Q) /\
       ((tp_1_of h r + fp_1_of h r = 0 \/ tp_1_of h r + fn_1_of h r = 0)%Z ->
        f1_1 = Fin 0%Q) /\
       ((tp_0_of h r + fn_1_of h r = 0 \/ tp_0_of h r + fp_1_of h r = 0)%Z ->
        f1_0 = Fin 0%Q)) /\
  (exists f1_0, f1_bin [0; 0; 0; 0; 0]%Z [0; 0; 0; 0; 0]%Z
                = Ok (Fin 0%Q, f1_0)).
Proof.
  split; [|eexists; vm_compute; reflexivity].
  intros h r Hl Hh Hr. cbv zeta.
  destruct (confusion_counts h r Hl Hh Hr) as [P1 [P0 [Pfp [Pfn Hsum]]]].
  eexists. eexists. split.
  - unfold f1_bin. rewrite Hl, Nat.eqb_refl. cbn [assert bind].
    fold (tp_1_of h r) (tp_0_of h r) (fp_1_of h r) (fn_1_of h r).
    rewrite Hsum, <- Hl, Z.eqb_refl. cbn [assert bind]. reflexivity.
  - split; [reflexivity|]. split; [reflexivity|].
    split; [intros H; now apply f1_of_not_gt, f_null_not_gt|].
    split; [intros H; now apply f1_of_not_gt, f_null_not_gt|]. split.
    + intros H. replace (tp_1_of h r) with 0%Z by lia.
      apply f1_of_no_true_positive.
    + intros H. replace (tp_0_of h r) with 0%Z by lia.
      apply f1_of_no_true_positive.
Qed.

Lemma f1_bin_returns_and_zero_denominator_gives_zero_witness :
  exists f1_1 f1_0,
    f1_bin [0; 1; 0; 1]%Z [0; 0; 1; 1]%Z = Ok (f1_1, f1_0) /\
    f1_1 = Fin (8 # 16)%Q.
Proof.
  assert (H01 : forall l, forallb (fun z => (z =? 0)%Z || (z =? 1)%Z) l = true ->
                          Forall is01 l).
  { intros l H. apply Forall_forall. intros z Hz.
    rewrite forallb_forall in H. specialize (H z Hz).
    apply orb_true_iff in H. unfold is01. rewrite <- !Z.eqb_eq. exact H. }
  destruct (proj1 f1_bin_returns_and_zero_denominator_gives_zero
                  [0; 1; 0; 1]%Z [0; 0; 1; 1]%Z eq_refl
                  (H01 [0; 1; 0; 1]%Z eq_refl) (H01 [0; 0; 1; 1]%Z eq_refl))
    as [f1_1 [f1_0 [E [E1 _]]]].
  exists f1_1, f1_0. split; [exact E|]. rewrite E1. vm_compute. reflexivity.
Defined.

(** ** build_vocab: the stable sort *)

Section StableSortFacts.
Context {A : Type} (before : A -> A -> bool).

Lemma insert_sorted_perm (x : A) (l : list A) :
  Permutation (insert_sorted before x l) (x :: l).
Proof.
  induction l as [|y t IH]; simpl; auto.
  destruct (before x y); auto.
  rewrite IH. apply perm_swap.
Qed.

Lemma stable_sort_perm (l : list A) : Permutation (stable_sort before l) l.
Proof.
  induction l as [|x t IH]; simpl; auto.
  rewrite insert_sorted_perm. now constructor.
Qed.

Lemma In_insert_sorted (x z : A) (l : list A) :
  In z (insert_sorted before x l) -> z = x \/ In z l.
Proof.
  intros H. apply (Permutation_in _ (insert_sorted_perm x l)) in H.
  destruct H; auto.
Qed.

(** With a total and transitive test the output is sorted. *)
Lemma insert_sorted_sorted (x : A) (l : list A) :
  (forall a b, before a b = true \/ before b a = true) ->
  (forall a b c, before a b = true -> before b c = true -> before a c = true) ->
  StronglySorted (fun a b => before a b = true) l ->
  StronglySorted (fun a b => before a b = true) (insert_sorted before x l).
Proof.
  intros Htot Htr. induction l as [|y t IH]; intros Hs; simpl.
  - repeat constructor.
  - inversion Hs as [|? ? Hs' Hy]; subst.
    destruct (before x y) eqn:E.
    + constructor; auto. constructor; auto.
      rewrite Forall_forall in *. intros z Hz. eapply Htr; eauto.
    + constructor; auto.
      rewrite Forall_forall in *. intros z Hz.
      apply In_insert_sorted in Hz. destruct Hz as [->|Hz]; auto.
      destruct (Htot x y); congruence.
Qed.

Lemma stable_sort_sorted (l : list A) :
  (forall a b, before a b = true \/ before b a = true) ->
  (forall a b c, before a b = true -> before b c = true -> before a c = true) ->
  StronglySorted (fun a b => before a b = true) (stable_sort before l).
Proof.
  intros Htot Htr. induction l as [|x t IH]; simpl.
  - constructor.
  - now apply insert_sorted_sorted.
Qed.
End StableSortFacts.

Lemma string_leb_iff (a b : string) :
  String.leb a b = true <-> String_as_OT.lt a b \/ a = b.
Proof.
  unfold String.leb.
  destruct (String.compare a b) eqn:E.
  - apply String_as_OT.cmp_eq in E. tauto.
  - apply String_as_OT.cmp_lt in E. tauto.
  - split; [discriminate|]. intros [H| ->].
    + apply String_as_OT.cmp_lt in H. unfold String_as_OT.cmp in H. congruence.
    + assert (H : String.compare b b = Eq) by now apply String_as_OT.cmp_eq.
      congruence.
Qed.

Lemma string_leb_trans (a b c : string) :
  String.leb a b = true -> String.leb b c = true -> String.leb a c = true.
Proof.
  rewrite !string_leb_iff. intros [H1| ->] [H2| ->]; auto.
  left. eapply String_as_OT.lt_trans; eauto.
Qed.

(** The second, stable sort keeps the order of the first among equal
    frequencies. *)
Lemma insert_by_frequency (x : string * Z) (l : list (string * Z)) :
  Forall (fun z => by_token x z = true) l ->
  StronglySorted vocab_before l ->
  StronglySorted vocab_before (insert_sorted by_frequency x l).
Proof.
  induction l as [|y t IH]; intros Hx Hs; simpl.
  - repeat constructor.
  - inversion Hs as [|? ? Hs' Hy]; subst.
    inversion Hx as [|? ? Hxy Hxt]; subst.
    unfold by_frequency at 1. destruct (Z.leb_spec (snd y) (snd x)) as [Hle|Hgt].
    + constructor; auto. rewrite Forall_forall in *.
      intros z [<-|Hz].
      * unfold vocab_before, by_token in *.
        destruct (Z.eq_dec (snd x) (snd y)); [right; auto|left; lia].
      * specialize (Hy z Hz). specialize (Hxt z Hz).
        unfold vocab_before, by_token in *.
        destruct (Z.eq_dec (snd x) (snd z)); [right; auto|left; lia].
    + constructor; auto. rewrite Forall_forall in *.
      intros z Hz. apply In_insert_sorted in Hz. destruct Hz as [->|Hz]; auto.
      left. exact Hgt.
Qed.

Lemma sort_by_token_then_frequency (c : counter) :
  StronglySorted vocab_before
    (stable_sort by_frequency (stable_sort by_token c)).
Proof.
  assert (H : StronglySorted (fun a b => by_token a b = true)
                             (stable_sort by_token c)).
  { apply stable_sort_sorted.
    - intros a b. apply String.leb_total.
    - intros a b d. apply string_leb_trans. }
  induction H as [|x l Hl IH Hx]; simpl.
  - constructor.
  - apply insert_by_frequency; auto.
    rewrite Forall_forall in *. intros z Hz. apply Hx.
    eapply Permutation_in; [apply stable_sort_perm|exact Hz].
Qed.

(** There is one list in the order of the vocabulary for a given set of
    distinct tokens: the output does not depend on how the sort works. *)
Lemma vocab_order_unique (l1 l2 : list (string * Z)) :
  StronglySorted vocab_before l1 -> StronglySorted vocab_before l2 ->
  Permutation l1 l2 -> l1 = l2.
Proof.
  intros H1; revert l2; induction H1 as [|a l1 H1 IH Ha]; intros l2 H2 Hp.
  - apply Permutation_nil in Hp. now subst.
  - destruct H2 as [|b l2 H2 Hb].
    + apply Permutation_sym, Permutation_nil in Hp. discriminate.
    + assert (E : a = b).
      { assert (Hin1 : In a (b :: l2))
          by (apply (Permutation_in _ Hp); now left).
        assert (Hin2 : In b (a :: l1))
          by (apply (Permutation_in _ (Permutation_sym Hp)); now left).
        destruct Hin1 as [<-|Hin1]; [reflexivity|].
        destruct Hin2 as [<-|Hin2]; [reflexivity|].
        rewrite Forall_forall in Ha, Hb.
        specialize (Ha b Hin2). specialize (Hb a Hin1).
        unfold vocab_before in Ha, Hb.
        destruct Ha as [Ha|[Ea La]], Hb as [Hb|[Eb Lb]]; try lia.
        destruct a as [ta na], b as [tb nb]. simpl in *.
        f_equal; [|assumption]. now apply String.leb_antisym. }
      subst b. f_equal. apply IH; auto.
      now apply Permutation_cons_inv in Hp.
Qed.

Lemma sort_and_cut_firstn (c : counter) (limit : Z) :
  (0 <= limit)%Z ->
  sort_and_cut c limit =
  firstn (Z.to_nat limit)
         (map fst (stable_sort by_frequency (stable_sort by_token c))).
Proof.
  intros H. unfold sort_and_cut, slice_to.
  destruct (Z.leb_spec 0 limit); [|lia]. now rewrite firstn_map.
Qed.

(** ** build_vocab: the counter *)

Lemma Counter_snoc (tokens : list string) (t : string) :
  Counter (tokens ++ [t]) = counter_incr (Counter tokens) t.
Proof. unfold Counter. now rewrite fold_left_app. Qed.

Lemma keys_counter_incr (c : counter) (t : string) :
  map fst (counter_incr c t) =
  if in_dec string_dec t (map fst c) then map fst c else map fst c ++ [t].
Proof.
  induction c as [|[t' n] c IH]; simpl; auto.
  destruct (String.eqb_spec t' t) as [->|Hne].
  - simpl. destruct (string_dec t t); [|congruence].
    now destruct (in_dec string_dec t (map fst c)).
  - simpl. rewrite IH. destruct (string_dec t' t); [congruence|].
    now destruct (in_dec string_dec t (map fst c)).
Qed.

Lemma NoDup_counter_incr (c : counter) (t : string) :
  NoDup (map fst c) -> NoDup (map fst (counter_incr c t)).
Proof.
  intros H. rewrite keys_counter_incr.
  destruct (in_dec string_dec t (map fst c)) as [Hin|Hout]; auto.
  apply NoDup_app; auto.
  - repeat constructor. intros [].
  - intros x Hx [<-|[]]. contradiction.
Qed.

Lemma In_counter_incr (c : counter) (t0 t : string) (k : Z) :
  NoDup (map fst c) ->
  (In (t, k) (counter_incr c t0) <->
   (t <> t0 /\ In (t, k) c) \/
   (t = t0 /\ ((exists n, In (t0, n) c /\ k = (n + 1)%Z) \/
               (~ In t0 (map fst c) /\ k = 1%Z)))).
Proof.
  induction c as [|[t' n] c IH]; intros Hnd; simpl.
  - split.
    + intros [[= <- <-]|[]]. right. split; auto.
    + intros [[_ []]|[-> [[n [[] _]]|[_ ->]]]]. auto.
  - inversion Hnd as [|? ? Hout Hnd']; subst. specialize (IH Hnd').
    destruct (String.eqb_spec t' t0) as [->|Hne]; simpl.
    + split.
      * intros [[= <- <-]|Hin].
        -- right. split; auto. left. exists n. auto.
        -- left. split; auto. intros ->. apply Hout.
           apply (in_map fst) in Hin. exact Hin.
      * intros [[Hne [[= -> ->]|Hin]]|[-> [[n' [[[= ->]|Hin] ->]]|[Hno _]]]]; auto.
        -- congruence.
        -- exfalso. apply Hout. apply (in_map fst) in Hin. exact Hin.
        -- exfalso. apply Hno. auto.
    + rewrite IH. split.
      * intros [[= <- <-]|[[H1 H2]|[-> [[n' [Hin ->]]|[Hno ->]]]]].
        -- left. auto.
        -- left. auto.
        -- right. split; auto. left. exists n'. auto.
        -- right. split; auto. right. split; auto. intros [?|?]; auto.
      * intros [[H1 [[= -> ->]|Hin]]|[-> [[n' [[[= -> _]|Hin] ->]]|[Hno ->]]]]; auto.
        -- congruence.
        -- right. right. split; auto. left. exists n'. auto.
        -- right. right. split; auto. right. split; auto.
Qed.

(** [Counter(tokens)] holds every token once, with the number of its
    occurrences. *)
Lemma Counter_spec (tokens : list string) :
  NoDup (map fst (Counter tokens)) /\
  forall t n, In (t, n) (Counter tokens) <->
              In t tokens /\ n = Z.of_nat (count_occ string_dec tokens t).
Proof.
  induction tokens as [|t0 tokens [IHnd IH]] using rev_ind.
  - split; [constructor|]. simpl. intros. tauto.
  - rewrite Counter_snoc. split; [now apply NoDup_counter_incr|].
    intros t n. rewrite (In_counter_incr _ _ _ _ IHnd).
    rewrite in_app_iff, count_occ_app. simpl.
    assert (Hkey : In t0 (map fst (Counter tokens)) <-> In t0 tokens).
    { split.
      - intros H. apply in_map_iff in H. destruct H as [[t' n'] [<- H]].
        apply IH in H. tauto.
      - intros H. apply in_map_iff.
        exists (t0, Z.of_nat (count_occ string_dec tokens t0)). split; auto.
        apply IH. auto. }
    split.
    + intros [[Hne Hin]|[-> [[n' [Hin ->]]|[Hno ->]]]].
      * apply IH in Hin. destruct Hin as [Hin ->]. split; auto.
        destruct (string_dec t0 t); [congruence|]. lia.
      * apply IH in Hin. destruct Hin as [Hin ->]. split; auto.
        destruct (string_dec t0 t0); [|congruence]. lia.
      * split; [right; simpl; auto|].
        destruct (string_dec t0 t0); [|congruence].
        rewrite Hkey in Hno. apply (count_occ_not_In string_dec) in Hno.
        rewrite Hno. reflexivity.
    + intros [Hin ->]. destruct (string_dec t0 t) as [->|Hne].
      * right. split; auto.
        destruct (in_dec string_dec t tokens) as [Hi|Hni].
        -- left. exists (Z.of_nat (count_occ string_dec tokens t)).
           split; [apply IH; auto|lia].
        -- right. rewrite Hkey. split; auto.
           apply (count_occ_not_In string_dec) in Hni. rewrite Hni. reflexivity.
      * left. split; [congruence|]. apply IH. split; [|lia].
        destruct Hin as [Hin|[Heq|[]]]; auto. congruence.
Qed.

Lemma NoDup_keys_filter (f : string * Z -> bool) (c : counter) :
  NoDup (map fst c) -> NoDup (map fst (filter f c)).
Proof.
  induction c as [|x c IH]; simpl; intros H; auto.
  inversion H as [|? ? Hout Hnd]; subst.
  destruct (f x); simpl; auto. constructor; auto.
  intros Hin. apply Hout. apply in_map_iff in Hin.
  destruct Hin as [y [E Hy]]. apply filter_In in Hy.
  apply in_map_iff. exists y. tauto.
Qed.

(** ** build_vocab: C3 and C4 *)

Section BuildVocabFacts.
Variables UNK_TOKEN PAD_TOKEN BOS_TOKEN EOS_TOKEN : string.
Variable Vocabulary : Type.
Variable Vocabulary_tokens : list string -> Vocabulary.
Variable Vocabulary_file : string -> result Vocabulary.
Variable W : Type.

Let build := @build_vocab UNK_TOKEN PAD_TOKEN BOS_TOKEN EOS_TOKEN Vocabulary
                          Vocabulary_tokens Vocabulary_file W.

(** Past the two assertions, for a size limit that is not negative. *)
Lemma build_vocab_ok (field : string) (max_size min_freq : Z)
    (data : Dataset W) :
  (0 <= max_size)%Z ->
  build field max_size min_freq data None =
  Ok (Vocabulary_tokens
        ([UNK_TOKEN; PAD_TOKEN; BOS_TOKEN; EOS_TOKEN] ++
         firstn (Z.to_nat max_size)
           (map fst (stable_sort by_frequency
                       (stable_sort by_token
                          (filtered_counter min_freq
                             (field_tokens field data))))))).
Proof.
  intros Hmax. unfold build, build_vocab.
  rewrite sort_and_cut_firstn by assumption.
  unfold specials, DEFAULT_UNK_ID. cbn [app nth_error].
  rewrite String.eqb_refl. cbn [assert bind].
  match goal with
  | |- context [assert ?b] => replace b with true; [reflexivity|]
  end.
  symmetry. apply Z.leb_le. cbn [length].
  rewrite length_firstn. lia.
Qed.

(** With [max_size = -1] the second assertion asks for at most three
    tokens and the four special tokens are already too many. *)
Lemma build_vocab_minus_one (field : string) (min_freq : Z)
    (data : Dataset W) :
  build field (-1) min_freq data None = Raise AssertionError.
Proof.
  unfold build, build_vocab, specials, DEFAULT_UNK_ID. cbn [app nth_error].
  rewrite String.eqb_refl. cbn [assert bind].
  match goal with
  | |- context [assert ?b] => replace b with false; [reflexivity|]
  end.
  symmetry. apply Z.leb_gt. cbn [length]. lia.
Qed.
End BuildVocabFacts.

Lemma filtered_counter_spec (min_freq : Z) (tokens : list string) :
  (-1 < min_freq)%Z ->
  NoDup (map fst (filtered_counter min_freq tokens)) /\
  forall t n,
    In (t, n) (filtered_counter min_freq tokens) <->
    In t tokens /\ n = Z.of_nat (count_occ string_dec tokens t) /\
    (min_freq <= n)%Z.
Proof.
  intros H. unfold filtered_counter, filter_min.
  destruct (Z.ltb_spec (-1) min_freq); [|lia].
  destruct (Counter_spec tokens) as [Hnd Hin]. split.
  - now apply NoDup_keys_filter.
  - intros t n. rewrite filter_In, Hin. cbn [snd]. rewrite Z.leb_le. tauto.
Qed.

(** C3: with filtering enabled and a size limit [max_size >= 0], the
    vocabulary handed to [Vocabulary] is the four special tokens unknown,
    pad, begin, end followed by the first [max_size] tokens of the list [L]
    of the surviving tokens, one entry per token, ordered by descending
    frequency and, on equal frequency, ascending in the order of strings;
    counts b:2, a:2, c:1 give a, b, c after the special tokens. *)
Theorem build_vocab_orders_by_frequency_then_alphabet
    (UNK_TOKEN PAD_TOKEN BOS_TOKEN EOS_TOKEN : string) (Vocabulary : Type)
    (Vocabulary_tokens : list string -> Vocabulary)
    (Vocabulary_file : string -> result Vocabulary) (W : Type) :
  (forall (field : string) (max_size min_freq : Z) (data : Dataset W),
     (0 <= max_size)%Z -> (-1 < min_freq)%Z ->
     let tokens := field_tokens field data in
     exists L : list (string * Z),
       (forall t n, In (t, n) L <->
          In t tokens /\ n = Z.of_nat (count_occ string_dec tokens t) /\
          (min_freq <= n)%Z) /\
       NoDup (map fst L) /\
       StronglySorted vocab_before L /\
       @build_vocab UNK_TOKEN PAD_TOKEN BOS_TOKEN EOS_TOKEN Vocabulary
                    Vocabulary_tokens Vocabulary_file W
                    field max_size min_freq data None =
       Ok (Vocabulary_tokens
             ([UNK_TOKEN; PAD_TOKEN; BOS_TOKEN; EOS_TOKEN] ++
              firstn (Z.to_nat max_size) (map fst L)))) /\
  @build_vocab UNK_TOKEN PAD_TOKEN BOS_TOKEN EOS_TOKEN Vocabulary
               Vocabulary_tokens Vocabulary_file W
               "src" 10 1
               (mk_dataset [mk_example ["b"; "a"; "c"; "b"; "a"]%string [] None])
               None =
  Ok (Vocabulary_tokens
        [UNK_TOKEN; PAD_TOKEN; BOS_TOKEN; EOS_TOKEN; "a"; "b"; "c"]%string).
Proof.
  split.
  - intros field max_size min_freq data Hmax Hmin tokens.
    destruct (filtered_counter_spec min_freq tokens Hmin) as [Hnd Hin].
    set (c := filtered_counter min_freq tokens) in *.
    assert (Hperm : Permutation (stable_sort by_frequency (stable_sort by_token c)) c).
    { rewrite stable_sort_perm. apply stable_sort_perm. }
    exists (stable_sort by_frequency (stable_sort by_token c)).
    split; [|split; [|split]].
    + intros t n. rewrite <- Hin. split; apply Permutation_in; auto.
      now apply Permutation_sym.
    + apply (Permutation_NoDup (l := map fst c)); auto.
      apply Permutation_map. now apply Permutation_sym.
    + apply sort_by_token_then_frequency.
    + now apply build_vocab_ok.
  - rewrite build_vocab_ok by lia. reflexivity.
Qed.

Lemma build_vocab_orders_by_frequency_then_alphabet_witness :
  let data : Dataset Q :=
    mk_dataset [mk_example ["x"]%string ["d"; "e"; "d"; "f"]%string None;
                mk_example ["y"]%string ["f"; "g"; "d"]%string None] in
  let tokens := ["d"; "e"; "d"; "f"; "f"; "g"; "d"]%string in
  exists L : list (string * Z),
    (forall t n, In (t, n) L <->
       In t tokens /\ n = Z.of_nat (count_occ string_dec tokens t) /\
       (2 <= n)%Z) /\
    NoDup (map fst L) /\
    StronglySorted vocab_before L /\
    @build_vocab "<unk>" "<pad>" "<s>" "</s>" (list string) (fun l => l)
                 (fun _ => Raise RuntimeError) Q "trg" 1 2 data None =
    Ok (["<unk>"; "<pad>"; "<s>"; "</s>"]%string ++ firstn 1 (map fst L)).
Proof.
  intros data tokens.
  apply (proj1 (build_vocab_orders_by_frequency_then_alphabet
                  "<unk>" "<pad>" "<s>" "</s>" (list string) (fun l => l)
                  (fun _ => Raise RuntimeError) Q)
               "trg"%string 1%Z 2%Z data); lia.
Defined.

(** C4: with [max_size = -1] the builder fails whatever the tokens are, and
    before that the slice [[:-1]] has already dropped the last token of the
    sorted list, here "b". *)
Theorem build_vocab_max_size_minus_one_fails
    (UNK_TOKEN PAD_TOKEN BOS_TOKEN EOS_TOKEN : string) (Vocabulary : Type)
    (Vocabulary_tokens : list string -> Vocabulary)
    (Vocabulary_file : string -> result Vocabulary) (W : Type) :
  (forall (field : string) (min_freq : Z) (data : Dataset W),
     @build_vocab UNK_TOKEN PAD_TOKEN BOS_TOKEN EOS_TOKEN Vocabulary
                  Vocabulary_tokens Vocabulary_file W
                  field (-1) min_freq data None = Raise AssertionError) /\
  sort_and_cut (Counter ["a"; "b"]%string) (-1) = ["a"%string] /\
  @build_vocab UNK_TOKEN PAD_TOKEN BOS_TOKEN EOS_TOKEN Vocabulary
               Vocabulary_tokens Vocabulary_file W
               "src" (-1) 1
               (mk_dataset [mk_example ["a"; "b"]%string [] None]) None
    = Raise AssertionError.
Proof.
  split; [|split].
  - intros. apply build_vocab_minus_one.
  - vm_compute. reflexivity.
  - apply build_vocab_minus_one.
Qed.

(** ** WeightedTranslationDataset: the zipped files *)

Lemma zip3_firstn {A B C} (a : list A) (b : list B) (c : list C) :
  let n := Nat.min (length a) (Nat.min (length b) (length c)) in
  zip3 a b c = zip3 (firstn n a) (firstn n b) (firstn n c) /\
  length (zip3 a b c) = n.
Proof.
  revert b c; induction a as [|x a IH]; intros [|y b] [|z c]; simpl; auto.
  destruct (IH b c) as [E1 E2]. simpl in E1, E2. split; congruence.
Qed.

Section WeightedFacts.
Variable W : Type.
Variable strip : string -> string.
Variable split_space : string -> list string.
Variable float : string -> option W.
Variable np_exp : W -> W.
Variable fields : Fields W.
Variable log_weights : bool.

Local Abbreviation weights_of :=
  (line_weights strip split_space float np_exp log_weights).
Local Abbreviation step :=
  (weighted_step strip split_space float np_exp fields log_weights).
Local Abbreviation examples_of :=
  (triple_examples W strip split_space float np_exp fields log_weights).

Lemma for_each_weighted_step (triples : list (string * string * string))
    (acc : list (Example W)) :
  Forall (fun lines => exists ws, weights_of (snd lines) = Ok ws) triples ->
  for_each step triples acc = Ok (acc ++ flat_map examples_of triples).
Proof.
  revert acc; induction triples as [|[[s t] w] triples IH]; intros acc H.
  - simpl. now rewrite app_nil_r.
  - inversion H as [|? ? [ws Hw] H']; subst. cbn [snd] in Hw.
    cbn [for_each flat_map]. unfold weighted_step at 1.
    rewrite Hw. cbn [bind].
    unfold triple_examples at 1. cbn [fst snd]. rewrite Hw.
    destruct (negb (String.eqb (strip s) "") && negb (String.eqb (strip t) ""));
      cbn [bind]; rewrite (IH _ H').
    + now rewrite <- app_assoc.
    + reflexivity.
Qed.

Lemma Forall_zip3_weights (P : string -> Prop) (a b c : list string) :
  Forall P c -> Forall (fun lines => P (snd lines)) (zip3 a b c).
Proof.
  intros H; revert a b; induction H as [|z c Hz H IH]; intros [|x a] [|y b];
    simpl; constructor; auto.
Qed.
End WeightedFacts.

(** C9: the assembler reads the triples of lines up to the length of the
    shortest of the three files and nothing beyond: its result is the one on
    the files cut to that length, and when the weight lines up to there
    parse it returns the dataset of the examples of exactly these triples,
    whatever the three line counts are. *)
Theorem WeightedTranslationDataset_stops_at_shortest_file
    (W : Type) (strip : string -> string)
    (split_space : string -> list string) (float : string -> option W)
    (np_exp : W -> W) (src_file trg_file weight_file : list string)
    (fields : Fields W) (log_weights : bool)
    (filter_pred : option (Example W -> bool)) :
  let n := Nat.min (length src_file)
                   (Nat.min (length trg_file) (length weight_file)) in
  let WTD := WeightedTranslationDataset strip split_space float np_exp in
  WTD src_file trg_file weight_file fields log_weights filter_pred =
  WTD (firstn n src_file) (firstn n trg_file) (firstn n weight_file)
      fields log_weights filter_pred /\
  (Forall (fun line =>
             exists ws,
               line_weights strip split_space float np_exp log_weights line
               = Ok ws)
          (firstn n weight_file) ->
   let triples :=
     zip3 (firstn n src_file) (firstn n trg_file) (firstn n weight_file) in
   length triples = n /\
   WTD src_file trg_file weight_file fields log_weights filter_pred =
   Ok (Dataset_init
         (flat_map (triple_examples W strip split_space float np_exp fields
                                    log_weights) triples)
         filter_pred)).
Proof.
  intros n WTD.
  destruct (zip3_firstn src_file trg_file weight_file) as [E Hlen].
  fold n in E, Hlen. split.
  - unfold WTD, WeightedTranslationDataset. now rewrite <- E.
  - intros Hw triples. subst triples. rewrite <- E. split; [exact Hlen|].
    unfold WTD, WeightedTranslationDataset.
    rewrite for_each_weighted_step.
    + reflexivity.
    + rewrite E.
      apply (Forall_zip3_weights
               (fun line => exists ws,
                  line_weights strip split_space float np_exp log_weights line
                  = Ok ws)).
      exact Hw.
Qed.

Lemma WeightedTranslationDataset_stops_at_shortest_file_witness :
  let fields : Fields Q :=
    mk_fields (fun s => split_on_space s EmptyString)
              (fun s => split_on_space s EmptyString) (fun ws => ws) in
  let WTD := WeightedTranslationDataset ascii_strip
               (fun s => split_on_space s EmptyString) float_of_numeral
               (fun w => w) in
  WTD ["a b"; "c"; "d"]%string ["x y"; "z"]%string
      ["1 2"; "3"; "4"; "oops"]%string fields false None =
  Ok (mk_dataset
        [mk_example ["a"; "b"]%string ["x"; "y"]%string (Some [1%Q; 2%Q]);
         mk_example ["c"]%string ["z"]%string (Some [3%Q])]).
Proof.
  intros fields WTD.
  assert (Hw : Forall
                 (fun line => exists ws,
                    line_weights ascii_strip
                      (fun s => split_on_space s EmptyString)
                      float_of_numeral (fun w => w) false line = Ok ws)
                 ["1 2"; "3"]%string).
  { repeat constructor; eexists; vm_compute; reflexivity. }
  destruct (WeightedTranslationDataset_stops_at_shortest_file
              Q ascii_strip (fun s => split_on_space s EmptyString)
              float_of_numeral (fun w => w)
              ["a b"; "c"; "d"]%string ["x y"; "z"]%string
              ["1 2"; "3"; "4"; "oops"]%string fields false None)
    as [_ H].
  destruct (H Hw) as [_ H'].
  fold WTD in H'. rewrite H'. vm_compute. reflexivity.
Defined.

(** ** tile: multi-indices and flat positions *)

Lemma offset_lt (sz idx : list nat) :
  valid_index sz idx -> offset (strides sz) idx < prod_list sz.
Proof.
  unfold valid_index. induction 1 as [|i s idx sz Hi H IH]; simpl; [lia|].
  fold (prod_list sz). nia.
Qed.

Lemma unravel_offset (sz idx : list nat) :
  valid_index sz idx -> unravel sz (offset (strides sz) idx) = idx.
Proof.
  unfold valid_index. induction 1 as [|i s idx sz Hi H IH]; simpl; auto.
  fold (prod_list sz).
  pose proof (offset_lt sz idx H) as Hlt.
  assert (P : prod_list sz <> 0) by lia.
  rewrite Nat.div_add_l, Nat.div_small, Nat.add_0_r by assumption.
  rewrite Nat.add_comm, Nat.Div0.mod_add, Nat.mod_small by assumption.
  now rewrite IH.
Qed.

Lemma valid_index_length (sz idx : list nat) :
  valid_index sz idx -> length idx = length sz.
Proof. apply Forall2_length. Qed.

Lemma valid_index_nth (sz idx : list nat) :
  valid_index sz idx <->
  length idx = length sz /\ forall i, i < length sz -> nth i idx 0 < nth i sz 0.
Proof.
  unfold valid_index. split.
  - induction 1 as [|i s idx sz Hi H [IH1 IH2]]; simpl; split; auto; try lia.
    intros [|k] Hk; auto. apply IH2. lia.
  - revert sz; induction idx as [|i idx IH]; intros [|s sz] [Hl H];
      simpl in Hl; try discriminate; constructor.
    + apply (H 0). simpl. lia.
    + apply IH. split; [lia|]. intros k Hk. apply (H (S k)). simpl. lia.
Qed.

Lemma length_strides (sz : list nat) : length (strides sz) = length sz.
Proof. induction sz; simpl; auto. Qed.

Lemma prod_list_app (a b : list nat) :
  prod_list (a ++ b) = prod_list a * prod_list b.
Proof.
  induction a as [|x a IH]; simpl; [lia|]. fold (prod_list (a ++ b)).
  fold (prod_list a). rewrite IH. lia.
Qed.

Lemma offset_app (a b a' b' : list nat) :
  length a = length a' ->
  offset (a ++ b) (a' ++ b') = offset a a' + offset b b'.
Proof.
  revert a'; induction a as [|x a IH]; intros [|y a'] H; simpl in *;
    try discriminate; auto.
  rewrite IH by lia. lia.
Qed.

(** ** tile: exchanging two axes *)

Lemma update_nth_app {A} (f : A -> A) (a : list A) (y : A) (b : list A) :
  update_nth (length a) f (a ++ y :: b) = a ++ f y :: b.
Proof. induction a as [|x a IH]; simpl; auto. now rewrite IH. Qed.

(** Case analysis on every test [a =? b] of the goal. *)
Ltac case_eqb :=
  repeat match goal with
         | |- context [?a =? ?b] => destruct (Nat.eqb_spec a b)
         | H : context [?a =? ?b] |- _ => destruct (Nat.eqb_spec a b)
         end;
  subst; try reflexivity; try lia.

Lemma swap_items_same (l : list nat) : swap_items 0 0 0 l = l.
Proof. destruct l; reflexivity. Qed.

(** Exchanging the first item with the one at [d >= 1]. *)
Lemma swap_items_split (l : list nat) (d : nat) :
  0 < d < length l ->
  exists x mid y rest,
    l = x :: mid ++ y :: rest /\ length mid = d - 1 /\
    swap_items 0 0 d l = y :: mid ++ x :: rest.
Proof.
  intros [Hd Hl]. destruct l as [|x l]; [simpl in Hl; lia|].
  destruct d as [|d]; [lia|]. simpl in Hl.
  assert (Hd' : d < length l) by lia.
  exists x, (firstn d l), (nth d l 0), (skipn (S d) l).
  assert (E : l = firstn d l ++ nth d l 0 :: skipn (S d) l).
  { clear -Hd'. revert d Hd'; induction l as [|a l IH]; intros [|d] H;
      simpl in *; try lia; auto. f_equal. apply IH. lia. }
  assert (Lf : length (firstn d l) = d) by (rewrite length_firstn; lia).
  split; [now rewrite <- E|]. split; [lia|].
  unfold swap_items, set_nth. simpl. f_equal.
  rewrite E at 1. rewrite <- Lf at 1. apply update_nth_app.
Qed.

Lemma nth_swap_items (l : list nat) (d i : nat) :
  d < length l ->
  nth i (swap_items 0 0 d l) 0 =
  nth (if i =? 0 then d else if i =? d then 0 else i) l 0.
Proof.
  intros Hd. unfold swap_items, set_nth.
  rewrite nth_update_nth by (rewrite length_update_nth; lia).
  rewrite nth_update_nth by lia.
  cbv beta.
  destruct (Nat.eqb_spec i d) as [E1|H1], (Nat.eqb_spec i 0) as [E2|H2];
    subst; reflexivity.
Qed.

Lemma length_swap_items (l : list nat) (d : nat) :
  length (swap_items 0 0 d l) = length l.
Proof. unfold swap_items, set_nth. now rewrite !length_update_nth. Qed.

Lemma swap_items_involutive (l : list nat) (d : nat) :
  d < length l -> swap_items 0 0 d (swap_items 0 0 d l) = l.
Proof.
  intros Hd. apply (nth_ext _ _ 0 0).
  - now rewrite !length_swap_items.
  - intros i _. rewrite !nth_swap_items by (rewrite ?length_swap_items; lia).
    f_equal. case_eqb.
Qed.

(** Reading a list along the exchanged identity permutation exchanges its
    items. *)
Lemma map_nth_swap_items (l : list nat) (d : nat) :
  d < length l ->
  map (fun p => nth p l 0) (swap_items 0 0 d (seq 0 (length l))) =
  swap_items 0 0 d l.
Proof.
  intros Hd. apply (nth_ext _ _ 0 0).
  - now rewrite length_map, !length_swap_items, length_seq.
  - intros i Hi.
    rewrite length_map, length_swap_items, length_seq in Hi.
    rewrite (nth_indep _ 0 (nth 0 l 0)) by
      (now rewrite length_map, length_swap_items, length_seq).
    rewrite (map_nth (fun p => nth p l 0)).
    rewrite !nth_swap_items by (rewrite ?length_seq; lia).
    rewrite seq_nth; [reflexivity|].
    destruct (i =? 0); [lia|]. destruct (i =? d); lia.
Qed.

Lemma prod_list_swap_items (l : list nat) (d : nat) :
  d < length l -> prod_list (swap_items 0 0 d l) = prod_list l.
Proof.
  intros Hd. destruct d as [|d]; [now rewrite swap_items_same|].
  destruct (swap_items_split l (S d)) as [x [mid [y [rest [E [_ ->]]]]]];
    [lia|].
  rewrite E. simpl. fold (prod_list (mid ++ x :: rest)).
  fold (prod_list (mid ++ y :: rest)). rewrite !prod_list_app. simpl.
  fold (prod_list rest). lia.
Qed.

Lemma offset_swap_items (st idx : list nat) (d : nat) :
  length st = length idx -> d < length st ->
  offset (swap_items 0 0 d st) idx = offset st (swap_items 0 0 d idx).
Proof.
  intros Hl Hd. destruct d as [|d]; [now rewrite !swap_items_same|].
  destruct (swap_items_split st (S d)) as [x [mid [y [rest [E [Lm ->]]]]]];
    [lia|].
  destruct (swap_items_split idx (S d)) as [x' [mid' [y' [rest' [E' [Lm' ->]]]]]];
    [lia|].
  rewrite E, E'. simpl. rewrite !offset_app by lia. simpl. lia.
Qed.

Lemma valid_index_swap_items (sz idx : list nat) (d : nat) :
  d < length sz ->
  valid_index (swap_items 0 0 d sz) idx ->
  valid_index sz (swap_items 0 0 d idx).
Proof.
  intros Hd H. apply valid_index_nth in H. destruct H as [Hl H].
  rewrite length_swap_items in Hl, H.
  apply valid_index_nth. split; [now rewrite length_swap_items|].
  intros i Hi. rewrite nth_swap_items by lia.
  set (k := if i =? 0 then d else if i =? d then 0 else i).
  assert (Hk : k < length sz).
  { unfold k. destruct (i =? 0); auto. destruct (i =? d); lia. }
  specialize (H k Hk). rewrite nth_swap_items in H by lia.
  replace (if k =? 0 then d else if k =? d then 0 else k) with i in H; auto.
  unfold k. clear. case_eqb.
Qed.

(** ** tile: the tensor operations *)

Section TensorFacts.
Context {A : Type}.
Implicit Types (t x : Tensor A) (sz idx : list nat).

Lemma length_gather (ixs : list nat) (l : list A) :
  l <> [] -> length (gather ixs l) = length ixs.
Proof. destruct l; [congruence|]. intros _. apply length_map. Qed.

Lemma nth_error_gather_seq (g : nat -> nat) (n : nat) (l : list A) (i : nat) :
  i < n -> g i < length l ->
  nth_error (gather (map g (seq 0 n)) l) i = nth_error l (g i).
Proof.
  intros Hi Hg. destruct l as [|d l]; [simpl in Hg; lia|].
  unfold gather. rewrite map_map, nth_error_map, nth_error_seq.
  destruct (Nat.ltb_spec i n); [|lia]. cbn [option_map Nat.add].
  symmetry. now apply nth_error_nth'.
Qed.

(** [permute] along an exchange of axis 0 and axis [d]. *)
Lemma permute_swap t (d : nat) :
  wf_tensor t -> d < length (size t) ->
  let t' := permute t (swap_items 0 0 d (seq 0 (length (size t)))) in
  size t' = swap_items 0 0 d (size t) /\
  wf_tensor t' /\
  forall idx, valid_index (size t') idx ->
    tensor_get t' idx = tensor_get t (swap_items 0 0 d idx).
Proof.
  intros Hwf Hd. cbv zeta. unfold permute.
  assert (E2 : map (fun p => nth p (strides (size t)) 0)
                   (swap_items 0 0 d (seq 0 (length (size t)))) =
               swap_items 0 0 d (strides (size t))).
  { rewrite <- (length_strides (size t)). apply map_nth_swap_items.
    now rewrite length_strides. }
  rewrite (map_nth_swap_items (size t) d Hd), E2. clear E2.
  set (sz' := swap_items 0 0 d (size t)).
  set (st' := swap_items 0 0 d (strides (size t))).
  assert (Hprod : prod_list sz' = prod_list (size t))
    by (now apply prod_list_swap_items).
  split; [reflexivity|]. split.
  - unfold wf_tensor in *. cbn [data size].
    destruct (data t) as [|a l] eqn:E.
    + simpl in *. lia.
    + rewrite length_gather by discriminate.
      now rewrite length_map, length_seq.
  - intros idx Hv. unfold tensor_get. cbn [data size] in *.
    pose proof (offset_lt sz' idx Hv) as Hlt.
    pose proof (valid_index_swap_items (size t) idx d Hd Hv) as Hv'.
    pose proof (offset_lt _ _ Hv') as Hlt'.
    assert (Hoff : offset st' idx =
                   offset (strides (size t)) (swap_items 0 0 d idx)).
    { apply offset_swap_items.
      - rewrite length_strides. symmetry.
        apply valid_index_length in Hv. unfold sz' in Hv.
        now rewrite length_swap_items in Hv.
      - now rewrite length_strides. }
    rewrite (nth_error_gather_seq
               (fun f => offset st' (unravel sz' f)) _ _ _ Hlt).
    + now rewrite (unravel_offset sz' idx Hv), Hoff.
    + rewrite (unravel_offset sz' idx Hv), Hoff. unfold wf_tensor in Hwf. lia.
Qed.

(** A matrix and its transpose. *)
Lemma transpose_matrix t (r c : nat) :
  wf_tensor t -> size t = [r; c] ->
  size (transpose t 0 1) = [c; r] /\
  wf_tensor (transpose t 0 1) /\
  forall i j, i < c -> j < r ->
    tensor_get (transpose t 0 1) [i; j] = tensor_get t [j; i].
Proof.
  intros Hwf Hs. unfold transpose.
  destruct (permute_swap t 1 Hwf) as [E1 [E2 E3]]; [rewrite Hs; simpl; lia|].
  cbv zeta in *.
  assert (E1' : size (permute t (swap_items 0 0 1 (seq 0 (length (size t)))))
                = [c; r]) by (rewrite E1, Hs; reflexivity).
  split; [exact E1'|]. split; [exact E2|].
  intros i j Hi Hj. rewrite E3; [reflexivity|].
  rewrite E1'. repeat constructor; auto.
Qed.

Lemma nth_error_concat_repeat (l : list A) (count k : nat) :
  k < count * length l ->
  nth_error (concat (repeat l count)) k = nth_error l (k mod length l).
Proof.
  revert k; induction count as [|count IH]; intros k Hk; [lia|].
  simpl. destruct (Nat.lt_ge_cases k (length l)) as [Hlt|Hge].
  - rewrite nth_error_app1 by assumption. now rewrite Nat.mod_small.
  - rewrite nth_error_app2 by assumption. rewrite IH by lia.
    f_equal. replace k with ((k - length l) + 1 * length l) at 2 by lia.
    now rewrite Nat.Div0.mod_add.
Qed.

Lemma length_concat_repeat (l : list A) (count : nat) :
  length (concat (repeat l count)) = count * length l.
Proof.
  induction count as [|count IH]; simpl; auto.
  rewrite length_app, IH. lia.
Qed.
End TensorFacts.

(** ** tile: strides, and when [view] is possible *)

Lemma prod_list_pos (l : list nat) :
  0 < prod_list l <-> Forall (fun s => 1 <= s) l.
Proof.
  induction l as [|x l IH]; cbn [prod_list fold_right].
  - split; [constructor|lia].
  - fold (prod_list l). split.
    + intros H. constructor; [nia|apply IH; nia].
    + intros H. inversion H as [|? ? Hx Hl]; subst. apply IH in Hl. nia.
Qed.

Lemma prod_list_rev (l : list nat) : prod_list (rev l) = prod_list l.
Proof.
  induction l as [|x l IH]; [reflexivity|].
  cbn [rev]. rewrite prod_list_app, IH. cbn. fold (prod_list l). lia.
Qed.

Lemma prod_list_one (l : list nat) :
  prod_list l = 1 -> Forall (fun s => s = 1) l.
Proof.
  induction l as [|x l IH]; intros H; [constructor|].
  cbn [prod_list fold_right] in H. fold (prod_list l) in H.
  apply Nat.eq_mul_1 in H. destruct H as [H1 H2]. constructor; auto.
Qed.

Lemma map_fst_combine_eq {X Y} (a : list X) (b : list Y) :
  length a = length b -> map fst (combine a b) = a.
Proof.
  revert b; induction a as [|x a IH]; intros [|y b] H; try discriminate;
    [reflexivity|].
  cbn. f_equal. apply IH. now injection H.
Qed.

Lemma combine_app_eq {X Y} (a1 a2 : list X) (b1 b2 : list Y) :
  length a1 = length b1 ->
  combine (a1 ++ a2) (b1 ++ b2) = combine a1 b1 ++ combine a2 b2.
Proof.
  revert b1; induction a1 as [|x a1 IH]; intros [|y b1] H; try discriminate;
    [reflexivity|].
  cbn. f_equal. apply IH. now injection H.
Qed.

Lemma rev_combine {X Y} (a : list X) (b : list Y) :
  length a = length b -> rev (combine a b) = combine (rev a) (rev b).
Proof.
  revert b; induction a as [|x a IH]; intros [|y b] H; try discriminate;
    [reflexivity|].
  injection H as H. cbn [combine rev]. rewrite IH by exact H.
  rewrite combine_app_eq by (now rewrite !length_rev). reflexivity.
Qed.

Lemma length_resize_strides (sz : list nat) :
  length (resize_strides sz) = length sz.
Proof. induction sz as [|s t IH]; [reflexivity|]. cbn. now rewrite IH. Qed.

Lemma contiguous_from_app (z : nat) (l1 l2 : list (nat * nat)) :
  contiguous_from z (l1 ++ l2) =
  contiguous_from z l1 && contiguous_from (z * prod_list (map fst l1)) l2.
Proof.
  revert z; induction l1 as [|[s st] l1 IH]; intros z.
  - cbn. now rewrite Nat.mul_1_r.
  - cbn [app contiguous_from map fst prod_list fold_right].
    fold (prod_list (map fst l1)).
    destruct (Nat.eqb_spec s 1) as [->|Hs].
    + rewrite IH. do 2 f_equal. lia.
    + rewrite IH, andb_assoc. do 2 f_equal. lia.
Qed.

Lemma contiguous_from_ones (z : nat) (view sts : list nat) :
  Forall (fun s => s = 1) view -> contiguous_from z (combine view sts) = true.
Proof.
  intros H; revert sts; induction H as [|v view -> _ IH]; intros [|st sts];
    try reflexivity.
  cbn. apply IH.
Qed.

(** Row-major strides are contiguous. *)
Lemma strides_contiguous (sz : list nat) :
  contiguous_from 1 (rev (combine sz (strides sz))) = true.
Proof.
  induction sz as [|s t IH]; [reflexivity|].
  cbn [strides combine rev]. rewrite contiguous_from_app, IH.
  cbn [andb contiguous_from].
  rewrite map_rev, prod_list_rev, map_fst_combine_eq
    by (now rewrite length_strides).
  rewrite Nat.mul_1_l, Nat.eqb_refl. now destruct (s =? 1).
Qed.

(** A chunk of one element takes the axes of size 1 and no other. *)
Lemma view_chunk_ones (view : list nat) (base : nat) :
  exists ones sts todo,
    view_chunk view 1 1 base = (sts, todo, 1) /\
    view = ones ++ todo /\ length sts = length ones /\
    Forall (fun s => s = 1) ones.
Proof.
  induction view as [|v view IH].
  - exists [], [], []. repeat split. constructor.
  - cbn [view_chunk Nat.ltb Nat.leb orb].
    destruct (Nat.eqb_spec v 1) as [->|Hv].
    + destruct IH as [ones [sts [todo [E [Hv [Hl Ho]]]]]].
      change (1 * 1) with 1. rewrite E.
      exists (1 :: ones), (1 * base :: sts), todo.
      repeat split; cbn; auto. now rewrite Hv.
    + exists [], [], (v :: view). repeat split. constructor.
Qed.

(** The last chunk of a contiguous tensor takes all the axes that are
    left, and gives them contiguous strides. *)
Lemma view_chunk_all (view : list nat) (vn tn base : nat) :
  Forall (fun s => 1 <= s) view -> vn * prod_list view = tn -> 1 <= vn ->
  exists sts,
    view_chunk view vn tn base = (sts, [], tn) /\
    length sts = length view /\
    contiguous_from (vn * base) (combine view sts) = true.
Proof.
  intros H; revert vn; induction H as [|v view Hv Hrest IH]; intros vn E Hvn.
  - cbn in *. exists []. repeat split. f_equal. lia.
  - cbn [prod_list fold_right] in E. fold (prod_list view) in E.
    apply prod_list_pos in Hrest.
    cbn [view_chunk].
    assert (C : (vn <? tn) || (v =? 1) = true).
    { destruct (Nat.ltb_spec vn tn); [reflexivity|].
      assert (v * prod_list view <= 1) by nia.
      assert (v = 1) by nia. subst v. reflexivity. }
    rewrite C.
    destruct (IH (vn * v)) as [sts [E' [Hl Hc]]]; [lia|nia|].
    rewrite E'. exists (vn * base :: sts). split; [reflexivity|].
    split; [cbn; now rewrite Hl|].
    cbn [combine contiguous_from]. rewrite Nat.eqb_refl. cbn [andb].
    replace (vn * base * v) with (vn * v * base) by lia.
    destruct (Nat.eqb_spec v 1) as [->|_]; [|exact Hc].
    now rewrite Nat.mul_1_r in Hc.
Qed.

(** [computeStride] on the axes of a contiguous tensor, the last first:
    either the chunk in progress holds every axis of a size other than 1
    met so far and starts at stride 1, or only axes of size 1 have been
    met. *)
Lemma tensor_chunks_contiguous (old : list (nat * nat)) :
  forall (view : list nat) (tn base z : nat),
    old <> [] ->
    Forall (fun d => 1 <= fst d) old ->
    contiguous_from z old = true ->
    Forall (fun s => 1 <= s) view ->
    prod_list view = tn * prod_list (map fst old) ->
    (base = 1 /\ tn = z /\ 1 <= tn) \/
    (tn = 1 /\ z = 1 /\ fst (hd (1, 1) old) = 1) ->
    exists sts,
      tensor_chunks old view tn base = Some sts /\
      length sts = length view /\
      contiguous_from 1 (combine view sts) = true.
Proof.
  induction old as [|[s st] prev IH]; intros view tn base z Hne Hpos Hc Hv Hp Hst;
    [congruence|].
  inversion Hpos as [|? ? Hs Hpos']; subst. cbn [fst] in Hs.
  cbn [map fst prod_list fold_right] in Hp. fold (prod_list (map fst prev)) in Hp.
  assert (Hc' : contiguous_from (z * s) prev = true /\ (s <> 1 -> st = z)).
  { cbn [contiguous_from] in Hc. destruct (Nat.eqb_spec s 1) as [->|Hs1].
    - rewrite Nat.mul_1_r. split; [exact Hc|congruence].
    - apply andb_true_iff in Hc. destruct Hc as [H1 H2].
      apply Nat.eqb_eq in H1. auto. }
  destruct Hc' as [Hc' _].
  cbn [tensor_chunks]. cbv zeta.
  destruct prev as [|[s' st'] prev'].
  - (* the first axis: the last chunk *)
    cbn [map prod_list fold_right] in Hp.
    destruct Hst as [[-> [-> Htn]] | [-> [-> Hs1]]].
    + destruct (view_chunk_all view 1 (z * s) 1 Hv) as [sts [E [Hl Hcc]]];
        [lia|lia|].
      rewrite E, Nat.eqb_refl. exists sts. auto.
    + cbn [hd fst] in Hs1. subst s.
      assert (Hones : Forall (fun s => s = 1) view)
        by (apply prod_list_one; lia).
      destruct (view_chunk_all view 1 (1 * 1) base Hv) as [sts [E [Hl _]]];
        [lia|lia|].
      rewrite E, Nat.eqb_refl. exists sts. split; [reflexivity|].
      split; [exact Hl|]. now apply contiguous_from_ones.
  - (* an axis before this one *)
    inversion Hpos' as [|? ? Hs' _]; subst. cbn [fst] in Hs'.
    assert (Hst' : s' <> 1 -> st' = z * s).
    { intros Hn. cbn [contiguous_from] in Hc'.
      destruct (Nat.eqb_spec s' 1); [contradiction|].
      apply andb_true_iff in Hc'. destruct Hc' as [H1 _].
      now apply Nat.eqb_eq in H1. }
    assert (Hne' : (s', st') :: prev' <> []) by discriminate.
    destruct Hst as [[-> [-> Htn]] | [-> [-> Hs1]]].
    + (* the chunk goes on *)
      assert (E : negb (s' =? 1) && negb (st' =? z * s * 1) = false).
      { destruct (Nat.eqb_spec s' 1); [reflexivity|]. cbn [negb andb].
        rewrite (Hst' ltac:(assumption)), Nat.mul_1_r, Nat.eqb_refl.
        reflexivity. }
      rewrite E.
      apply (IH view (z * s) 1 (z * s) Hne' Hpos' Hc' Hv); [lia|].
      left. repeat split; nia.
    + cbn [hd fst] in Hs1. subst s. change (1 * 1) with 1 in *.
      destruct (Nat.eqb_spec s' 1) as [->|Hn]; cbn [negb andb].
      * (* still nothing but axes of size 1 *)
        apply (IH view 1 base 1 Hne' Hpos' Hc' Hv); [lia|]. now right.
      * pose proof (Hst' Hn) as Est. subst st'.
        destruct (Nat.eqb_spec 1 (1 * base)) as [Hb|Hb]; cbn [negb].
        -- apply (IH view 1 base 1 Hne' Hpos' Hc' Hv); [lia|].
           left. repeat split; lia.
        -- (* the chunk of the axes of size 1 ends here *)
           destruct (view_chunk_ones view base)
             as [ones [sts [todo [E [Hview [Hl Hones]]]]]].
           rewrite E. cbn [Nat.eqb].
           assert (Hv2 : Forall (fun s => 1 <= s) todo).
           { rewrite Hview in Hv. apply Forall_app in Hv. tauto. }
           assert (Hp1 : prod_list ones = 1).
           { clear -Hones. induction Hones as [|x l -> _ IH];
               [reflexivity|]. cbn. fold (prod_list l). lia. }
           destruct (IH todo 1 1 1 Hne' Hpos' Hc' Hv2) as [sts2 [E2 [Hl2 Hc2]]].
           { rewrite Hview, prod_list_app, Hp1 in Hp. lia. }
           { left. repeat split; lia. }
           rewrite E2. cbn [option_map]. exists (sts ++ sts2).
           split; [reflexivity|]. split.
           { rewrite Hview, !length_app. lia. }
           rewrite Hview, combine_app_eq by (symmetry; exact Hl).
           rewrite contiguous_from_app.
           rewrite (contiguous_from_ones 1 ones sts Hones). cbn [andb].
           rewrite map_fst_combine_eq by (symmetry; exact Hl).
           now rewrite Hp1.
Qed.

(** [view] never fails for want of suitable strides on a contiguous
    tensor, and the strides it gives are contiguous. *)
Lemma compute_stride_contiguous (sz st new : list nat) :
  length st = length sz -> 0 < prod_list sz ->
  contiguous_from 1 (rev (combine sz st)) = true ->
  prod_list new = prod_list sz ->
  exists nst,
    compute_stride sz st new = Some nst /\
    length nst = length new /\
    contiguous_from 1 (rev (combine new nst)) = true.
Proof.
  intros Hl Hpos Hc Hp. unfold compute_stride.
  assert (Hnew : Forall (fun s => 1 <= s) new) by (apply prod_list_pos; lia).
  destruct (rev (combine sz st)) as [|[s0 st0] old'] eqn:E.
  - assert (sz = []) as ->.
    { apply (f_equal (@length _)) in E.
      rewrite length_rev, length_combine, Hl, Nat.min_id in E.
      now destruct sz. }
    cbn in Hp. eexists. split; [reflexivity|].
    split; [apply length_map|].
    rewrite rev_combine by (symmetry; apply length_map).
    apply contiguous_from_ones. apply Forall_rev. now apply prod_list_one.
  - destruct (Nat.eqb_spec (prod_list sz) 0) as [H0|_]; [lia|].
    assert (Hfst : map fst ((s0, st0) :: old') = rev sz).
    { rewrite <- E, map_rev, map_fst_combine_eq by (symmetry; exact Hl).
      reflexivity. }
    destruct (tensor_chunks_contiguous ((s0, st0) :: old')
                (rev new) 1 st0 1) as [sts [E1 [Hl1 Hc1]]].
    + discriminate.
    + apply Forall_forall. intros d Hd.
      assert (Hin : In (fst d) (rev sz)) by (rewrite <- Hfst; now apply in_map).
      apply in_rev in Hin. apply prod_list_pos in Hpos.
      rewrite Forall_forall in Hpos. now apply Hpos.
    + exact Hc.
    + now apply Forall_rev.
    + rewrite Hfst, !prod_list_rev. lia.
    + cbn [hd fst]. destruct (Nat.eq_dec s0 1) as [->|Hn]; [now right|].
      left. cbn [contiguous_from] in Hc.
      destruct (Nat.eqb_spec s0 1); [contradiction|].
      apply andb_true_iff in Hc. destruct Hc as [H1 _].
      apply Nat.eqb_eq in H1. repeat split; lia.
    + cbv iota. rewrite E1. cbn [option_map]. exists (rev sts).
      split; [reflexivity|]. rewrite length_rev in Hl1 |- *.
      split; [now rewrite Hl1|].
      rewrite rev_combine by (now rewrite length_rev).
      now rewrite rev_involutive.
Qed.

Section TileFacts.
Context {A : Type}.
Implicit Types (t x : Tensor A) (sz idx : list nat).

Lemma tensor_get_matrix t (r c i j : nat) :
  size t = [r; c] -> tensor_get t [i; j] = nth_error (data t) (i * c + j).
Proof.
  intros E. unfold tensor_get. rewrite E. simpl. f_equal. lia.
Qed.

Lemma tensor_get_cons t (b : nat) (rest : list nat) (i : nat) idx :
  size t = b :: rest ->
  tensor_get t (i :: idx) =
  nth_error (data t) (i * prod_list rest + offset (strides rest) idx).
Proof. intros E. unfold tensor_get. rewrite E. reflexivity. Qed.

Lemma size_contiguous t : size (contiguous t) = size t.
Proof. unfold contiguous. now destruct (is_contiguous t). Qed.

Lemma data_contiguous t : data (contiguous t) = data t.
Proof. unfold contiguous. now destruct (is_contiguous t). Qed.

Lemma tensor_get_contiguous t idx :
  tensor_get (contiguous t) idx = tensor_get t idx.
Proof. unfold tensor_get. now rewrite size_contiguous, data_contiguous. Qed.

Lemma wf_contiguous t : wf_tensor t -> wf_tensor (contiguous t).
Proof.
  unfold wf_tensor. now rewrite size_contiguous, data_contiguous.
Qed.

(** [contiguous()] gives a contiguous tensor. *)
Lemma contiguous_is_contiguous t :
  length (stride t) = length (size t) -> contiguous_tensor (contiguous t).
Proof.
  intros Hl. unfold contiguous. destruct (is_contiguous t) eqn:E.
  - now split.
  - split; cbn [size stride]; [apply length_strides|].
    unfold is_contiguous. cbn [size stride].
    rewrite strides_contiguous. apply orb_true_r.
Qed.

Lemma length_stride_permute t (perm : list nat) :
  length (stride (permute t perm)) = length (size (permute t perm)).
Proof. unfold permute. cbn [size stride]. now rewrite !length_map. Qed.

(** [view] of a contiguous tensor, for a shape with as many elements. *)
Lemma view_of_contiguous t sz :
  wf_tensor t -> contiguous_tensor t -> prod_list sz = numel t ->
  exists st,
    view t sz = Ok (mk_tensor sz st (data t)) /\
    contiguous_tensor (mk_tensor sz st (data t)).
Proof.
  intros Hwf [Hl Hc] Hp. unfold view. rewrite Hp, Nat.eqb_refl.
  unfold wf_tensor in Hwf. unfold numel in *.
  destruct (Nat.eq_dec (length (data t)) 0) as [H0|H0].
  - (* no element: any strides do *)
    assert (G : forall st, length st = length sz ->
                contiguous_tensor (mk_tensor sz st (data t))).
    { intros st Hst. split; [exact Hst|].
      unfold is_contiguous, numel. cbn [data]. now rewrite H0. }
    unfold compute_stride.
    destruct (rev (combine (size t) (stride t))) as [|[s0 st0] old] eqn:E.
    + exfalso. apply (f_equal (@length _)) in E.
      rewrite length_rev, length_combine, Hl, Nat.min_id in E.
      destruct (size t); [cbn in Hwf; lia|discriminate].
    + rewrite <- Hwf, H0. cbn [Nat.eqb].
      destruct (list_eq_dec Nat.eq_dec (size t) sz) as [Heq|_].
      * eexists. split; [reflexivity|]. apply G. now rewrite Hl, Heq.
      * eexists. split; [reflexivity|]. apply G, length_resize_strides.
  - destruct (compute_stride_contiguous (size t) (stride t) sz Hl)
      as [nst [E [Hln Hcn]]].
    + lia.
    + unfold is_contiguous, numel in Hc.
      destruct (Nat.eqb_spec (length (data t)) 0); [contradiction|].
      exact Hc.
    + lia.
    + rewrite E. eexists. split; [reflexivity|]. split; [exact Hln|].
      unfold is_contiguous. cbn [size stride]. rewrite Hcn.
      apply orb_true_r.
Qed.

Lemma tile_axis0_spec x (count b : nat) (rest : list nat) :
  wf_tensor x -> contiguous_tensor x -> size x = b :: rest -> 0 < b ->
  exists out,
    tile_axis0 x count = Ok out /\
    size out = b * count :: rest /\
    wf_tensor out /\
    contiguous_tensor out /\
    forall i j idx, i < b -> j < count -> valid_index rest idx ->
      tensor_get out ((i * count + j) :: idx) = tensor_get x (i :: idx).
Proof.
  intros Hwf Hcx Hs Hb. set (n := prod_list rest).
  assert (Hlen : length (data x) = b * n).
  { unfold wf_tensor in Hwf. rewrite Hwf, Hs. reflexivity. }
  unfold tile_axis0. rewrite Hs. cbn [bind hd].
  (* view(batch, -1) *)
  unfold view_rows, numel. rewrite Hlen.
  destruct (Nat.eqb_spec b 0) as [|_]; [lia|].
  rewrite (Nat.mul_comm b n), Nat.Div0.mod_mul, Nat.div_mul by lia.
  cbn [Nat.eqb].
  destruct (view_of_contiguous x [b; n] Hwf Hcx) as [st1 [E1 _]].
  { unfold numel. rewrite Hlen. cbn. lia. }
  rewrite E1. cbn [bind].
  set (x1 := mk_tensor [b; n] st1 (data x)).
  assert (W1 : wf_tensor x1) by (unfold wf_tensor, x1; simpl; lia).
  (* transpose(0, 1) *)
  destruct (transpose_matrix x1 b n W1 eq_refl) as [S2 [W2 G2]].
  set (x2 := transpose x1 0 1) in *.
  (* repeat(count, 1) *)
  unfold repeat_rows. rewrite S2. cbn [bind].
  set (x3 := mk_tensor [count * n; b] (strides [count * n; b])
                       (concat (repeat (data x2) count))).
  assert (L2 : length (data x2) = n * b).
  { unfold wf_tensor in W2. rewrite W2, S2. simpl. lia. }
  assert (W3 : wf_tensor x3).
  { unfold wf_tensor, x3. cbn [data size].
    rewrite length_concat_repeat, L2. simpl. lia. }
  (* transpose(0, 1).contiguous() *)
  destruct (transpose_matrix x3 (count * n) b W3 eq_refl) as [S4 [W4 G4]].
  set (x4 := transpose x3 0 1) in *.
  assert (C5 : contiguous_tensor (contiguous x4))
    by (apply contiguous_is_contiguous, length_stride_permute).
  pose proof (size_contiguous x4) as S5.
  pose proof (data_contiguous x4) as D5.
  pose proof (wf_contiguous x4 W4) as W5.
  set (x5 := contiguous x4) in *.
  assert (L4 : length (data x4) = b * (count * n)).
  { unfold wf_tensor in W4. rewrite W4, S4. simpl. lia. }
  (* view( *out_size ) *)
  destruct (view_of_contiguous x5 (b * count :: rest) W5 C5) as [st6 [E6 C6]].
  { unfold numel. rewrite D5, L4. simpl. fold (prod_list rest). fold n. lia. }
  rewrite E6.
  eexists. split; [reflexivity|]. split; [reflexivity|]. split; [|split].
  - unfold wf_tensor. cbn [data size]. rewrite D5, L4. simpl.
    fold (prod_list rest). fold n. lia.
  - exact C6.
  - intros i j idx Hi Hj Hv.
    pose proof (offset_lt rest idx Hv) as Hq. fold n in Hq.
    set (q := offset (strides rest) idx) in *.
    rewrite (tensor_get_cons _ (b * count) rest) by reflexivity.
    rewrite (tensor_get_cons x b rest) by assumption.
    fold n q. cbn [data]. rewrite D5.
    assert (Hc : j * n + q < count * n) by nia.
    (* back through the second transpose *)
    replace ((i * count + j) * n + q) with (i * (count * n) + (j * n + q))
      by lia.
    rewrite <- (tensor_get_matrix x4 b (count * n)) by exact S4.
    rewrite (G4 i (j * n + q) Hi Hc).
    (* back through the repetition *)
    rewrite (tensor_get_matrix x3 (count * n) b) by reflexivity.
    unfold x3. cbn [data].
    rewrite nth_error_concat_repeat by (rewrite L2; nia).
    rewrite L2.
    replace (((j * n + q) * b + i) mod (n * b)) with (q * b + i).
    2:{ replace ((j * n + q) * b + i) with ((q * b + i) + j * (n * b)) by lia.
        rewrite Nat.Div0.mod_add. symmetry. apply Nat.mod_small. nia. }
    (* back through the first transpose *)
    rewrite <- (tensor_get_matrix x2 n b) by exact S2.
    rewrite (G2 q i Hq Hi).
    now rewrite (tensor_get_matrix x1 b n) by reflexivity.
Qed.
End TileFacts.

(** ** tile: the replicated axis *)

Lemma nth_cons_tl (v : nat) (l : list nat) (k : nat) :
  nth k (v :: tl l) 0 = if k =? 0 then v else nth k l 0.
Proof. destruct k as [|k]; [reflexivity|]. now destruct l; destruct k. Qed.

Lemma length_set_nth {A} (v : A) (l : list A) (d : nat) :
  length (set_nth d v l) = length l.
Proof. apply length_update_nth. Qed.

Lemma nth_set_nth (v : nat) (l : list nat) (d k : nat) :
  d < length l ->
  nth k (set_nth d v l) 0 = if k =? d then v else nth k l 0.
Proof. intros H. unfold set_nth. now rewrite nth_update_nth. Qed.

Lemma swap_items_cons_tl (v : nat) (l : list nat) (d : nat) :
  d < length l ->
  swap_items 0 0 d (v :: tl (swap_items 0 0 d l)) = set_nth d v l.
Proof.
  intros Hd.
  assert (Hl : length (v :: tl (swap_items 0 0 d l)) = length l).
  { pose proof (length_swap_items l d) as H.
    destruct (swap_items 0 0 d l); simpl in *; lia. }
  apply (nth_ext _ _ 0 0).
  - rewrite length_swap_items, Hl. unfold set_nth.
    now rewrite length_update_nth.
  - intros k _. rewrite nth_swap_items by lia.
    rewrite nth_cons_tl, nth_set_nth by assumption.
    rewrite nth_swap_items by assumption. case_eqb.
Qed.

Lemma swap_items_set_nth (v : nat) (l : list nat) (d : nat) :
  d < length l ->
  swap_items 0 0 d (set_nth d v l) = v :: tl (swap_items 0 0 d l).
Proof.
  intros Hd. rewrite <- (swap_items_cons_tl v l d Hd).
  apply swap_items_involutive.
  pose proof (length_swap_items l d) as H.
  destruct (swap_items 0 0 d l); simpl in *; lia.
Qed.

Lemma swap_items_head (l : list nat) (d : nat) :
  d < length l ->
  swap_items 0 0 d l = nth d l 0 :: tl (swap_items 0 0 d l).
Proof.
  intros Hd. pose proof (length_swap_items l d) as H.
  pose proof (nth_swap_items l d 0 Hd) as H0. simpl in H0.
  destruct (swap_items 0 0 d l); simpl in *; [lia|]. now rewrite H0.
Qed.

Lemma py_index_lt (n : nat) (i : Z) (d : nat) :
  py_index n i = Ok d -> d < n.
Proof.
  unfold py_index.
  destruct (Z.leb_spec 0 i), (Z.ltb_spec i (Z.of_nat n)); cbn [andb].
  - intros [= <-]. lia.
  - destruct (Z.ltb_spec i 0); [lia|]. discriminate.
  - destruct (Z.ltb_spec i 0), (Z.leb_spec (- Z.of_nat n) i); cbn [andb];
      try discriminate. intros [= <-]. lia.
  - destruct (Z.ltb_spec i 0), (Z.leb_spec (- Z.of_nat n) i); cbn [andb];
      try discriminate. intros [= <-]. lia.
Qed.

Section TileTensor.
Context {A : Type}.
Implicit Types (t x : Tensor A) (sz idx : list nat).

Lemma tile_tensor_unfold x (count : nat) (dim : Z) :
  tile_tensor x count dim =
  (px <- (if (dim =? 0)%Z then Ok (seq 0 (length (size x)), x)
          else d <- py_index (length (seq 0 (length (size x)))) dim ;;
               let perm := swap_items 0 0 d (seq 0 (length (size x))) in
               Ok (perm, contiguous (permute x perm))) ;;
   r <- tile_axis0 (snd px) count ;;
   if (dim =? 0)%Z then Ok r else Ok (contiguous (permute r (fst px)))).
Proof.
  unfold tile_tensor, tile_axis0.
  destruct (dim =? 0)%Z; cbn [bind fst snd].
  - destruct (size x); cbn [bind]; [reflexivity|].
    destruct (view_rows _ _); cbn [bind]; [|reflexivity].
    destruct (repeat_rows _ _); cbn [bind]; [|reflexivity].
    destruct (view _ _); reflexivity.
  - destruct (py_index _ _); cbn [bind fst snd]; [|reflexivity].
    destruct (size _); cbn [bind]; [reflexivity|].
    destruct (view_rows _ _); cbn [bind]; [|reflexivity].
    destruct (repeat_rows _ _); cbn [bind]; [|reflexivity].
    destruct (view _ _); reflexivity.
Qed.

(** Tiling along axis [d], the axis that [dim] names: every slice of the
    result at position [i * count + j] of that axis is the slice of [x] at
    position [i].  For [dim = 0] the tensor goes to [view] as it is and has
    to be contiguous; for another axis [tile] makes it contiguous. *)
Lemma tile_tensor_spec x (count : nat) (dim : Z) (d b : nat) :
  wf_tensor x ->
  (dim = 0%Z -> contiguous_tensor x) ->
  py_index (length (size x)) dim = Ok d ->
  nth d (size x) 0 = b -> 0 < b ->
  exists out,
    tile_tensor x count dim = Ok out /\
    size out = set_nth d (b * count) (size x) /\
    wf_tensor out /\
    contiguous_tensor out /\
    forall idx j, valid_index (size x) idx -> j < count ->
      tensor_get out (set_nth d (nth d idx 0 * count + j) idx) =
      tensor_get x idx.
Proof.
  intros Hwf Hcx Hpy Hb Hpos. pose proof (py_index_lt _ _ _ Hpy) as Hd.
  rewrite tile_tensor_unfold.
  destruct (Z.eqb_spec dim 0) as [->|Hdim].
  - (* the batch axis *)
    assert (d = 0) as -> by (unfold py_index in Hpy; simpl in Hpy;
      destruct (0 <? Z.of_nat (length (size x)))%Z; simpl in Hpy; congruence).
    cbn [bind snd].
    destruct (size x) as [|b' rest] eqn:Hs; [simpl in Hd; lia|].
    simpl in Hb. subst b'.
    destruct (tile_axis0_spec x count b rest Hwf (Hcx eq_refl) Hs Hpos)
      as [out [E [So [Wo [Co Go]]]]].
    rewrite E. cbn [bind]. exists out.
    split; [reflexivity|]. split; [exact So|]. split; [exact Wo|].
    split; [exact Co|].
    intros idx j Hv Hj. inversion Hv as [|i s ridx sz Hi Hr]; subst.
    cbn. now apply Go.
  - (* another axis: exchange, tile, exchange back *)
    clear Hcx.
    rewrite length_seq, Hpy. cbn [bind fst snd].
    set (perm := swap_items 0 0 d (seq 0 (length (size x)))).
    destruct (permute_swap x d Hwf Hd) as [S1 [W1 G1]]. cbv zeta in *.
    fold perm in S1, W1, G1.
    assert (C1 : contiguous_tensor (contiguous (permute x perm)))
      by (apply contiguous_is_contiguous, length_stride_permute).
    apply wf_contiguous in W1.
    rewrite <- (size_contiguous (permute x perm)) in S1.
    assert (G1' : forall idx, valid_index (size (contiguous (permute x perm))) idx ->
              tensor_get (contiguous (permute x perm)) idx =
              tensor_get x (swap_items 0 0 d idx)).
    { intros idx Hv. rewrite tensor_get_contiguous. apply G1.
      now rewrite <- size_contiguous. }
    clear G1. rename G1' into G1.
    set (x1 := contiguous (permute x perm)) in *.
    rewrite (swap_items_head (size x) d Hd), Hb in S1.
    set (rest := tl (swap_items 0 0 d (size x))) in *.
    destruct (tile_axis0_spec x1 count b rest W1 C1 S1 Hpos)
      as [y [E [Sy [Wy [_ Gy]]]]].
    rewrite E. cbn [bind].
    assert (Ly : length (size y) = length (size x)).
    { rewrite Sy. unfold rest.
      pose proof (length_swap_items (size x) d) as H.
      destruct (swap_items 0 0 d (size x)); simpl in *; lia. }
    assert (Hdy : d < length (size y)) by lia.
    destruct (permute_swap y d Wy Hdy) as [S2 [W2 G2]]. cbv zeta in *.
    rewrite Ly in S2, W2, G2. fold perm in S2, W2, G2.
    assert (S2' : size (permute y perm) = set_nth d (b * count) (size x)).
    { rewrite S2, Sy. unfold rest. now apply swap_items_cons_tl. }
    exists (contiguous (permute y perm)).
    split; [reflexivity|].
    split; [now rewrite size_contiguous|].
    split; [now apply wf_contiguous|].
    split; [apply contiguous_is_contiguous, length_stride_permute|].
    intros idx j Hv Hj. rewrite tensor_get_contiguous.
    pose proof (valid_index_length _ _ Hv) as Lidx.
    assert (Hdi : d < length idx) by lia.
    (* the index seen after the exchange *)
    assert (Hv1 : valid_index (b :: rest) (swap_items 0 0 d idx)).
    { rewrite <- Hb. unfold rest.
      rewrite <- (swap_items_head (size x) d Hd).
      apply valid_index_swap_items; [now rewrite length_swap_items|].
      now rewrite swap_items_involutive. }
    rewrite (swap_items_head idx d Hdi) in Hv1.
    inversion Hv1 as [|i s ridx sz Hi Hr]; subst.
    (* the index in the result *)
    assert (HvI : valid_index (size (permute y perm))
                    (set_nth d (nth d idx 0 * count + j) idx)).
    { rewrite S2'. apply valid_index_nth. apply valid_index_nth in Hv.
      destruct Hv as [_ Hn]. split.
      - now rewrite !length_set_nth.
      - rewrite length_set_nth. intros k Hk.
        rewrite !nth_set_nth by lia.
        destruct (Nat.eqb_spec k d) as [->|_]; [nia|]. now apply Hn. }
    rewrite (G2 _ HvI), (swap_items_set_nth _ idx d Hdi).
    rewrite (Gy _ j _ Hi Hj Hr).
    rewrite <- (swap_items_head idx d Hdi).
    rewrite G1.
    + now rewrite swap_items_involutive.
    + rewrite S1. rewrite (swap_items_head idx d Hdi). exact Hv1.
Qed.
End TileTensor.




(** * Further properties *)

(** ** Quotients of counts *)

Lemma count_ratio (c n : Z) :
  (0 <= c <= n)%Z -> (0 < n)%Z ->
  (0 <= inject_Z c / inject_Z n * 100)%Q /\
  (inject_Z c / inject_Z n * 100 <= 100)%Q /\
  ((inject_Z c / inject_Z n * 100 == 100)%Q <-> c = n) /\
  ((inject_Z c / inject_Z n * 100 == 0)%Q <-> c = 0%Z).
Proof.
  intros Hc Hn. destruct n as [|p|p]; try lia.
  unfold Qdiv, Qinv, Qmult, Qle, Qeq, inject_Z. simpl.
  repeat split; intros; nia.
Qed.

Lemma py_sum_ones {A} (l : list A) :
  py_sum (map (fun _ => 1%Z) l) = Z.of_nat (length l).
Proof.
  unfold py_sum. change (fold_left Z.add ?l 0%Z) with (np_sum l).
  induction l as [|x l IH]; [reflexivity|].
  cbn [map length]. rewrite np_sum_cons, IH. lia.
Qed.

(** ** sequence_accuracy *)

Lemma count_equal_sequences (hs rs : list string) :
  length hs = length rs ->
  let c := length (filter (fun hr => String.eqb (fst hr) (snd hr))
                          (combine hs rs)) in
  c <= length hs /\ (c = length hs <-> hs = rs) /\
  (c = 0 <-> forall i h r, nth_error hs i = Some h ->
                           nth_error rs i = Some r -> h <> r).
Proof.
  revert rs; induction hs as [|h hs IH]; intros [|r rs] Hl; try discriminate.
  - simpl. repeat split; auto. intros _ [|i] h r; discriminate.
  - simpl in Hl. injection Hl as Hl. specialize (IH rs Hl). cbv zeta in IH.
    destruct IH as [IH1 [IH2 IH3]].
    cbn [combine filter fst snd].
    destruct (String.eqb_spec h r) as [->|Hne]; cbn [length].
    + split; [lia|]. split; [|split].
      * split; intros H; [f_equal; apply IH2; lia|].
        injection H as H. apply IH2 in H. lia.
      * discriminate.
      * intros H. exfalso. apply (H 0 r r); reflexivity.
    + split; [lia|]. split; [|split].
      * split; intros H; [lia|congruence].
      * intros H [|i] h' r' Hh Hr; simpl in Hh, Hr.
        -- congruence.
        -- exact (proj1 IH3 H i h' r' Hh Hr).
      * intros H. apply IH3. intros i h' r'. apply (H (S i)).
Qed.

(** X1: [sequence_accuracy] on two lists of one length is a percentage: it
    lies between 0 and 100, is 100 exactly when every hypothesis equals its
    reference, is 0 exactly when none does, and is 0 on empty lists; on
    lists of unequal length the assertion fails. *)
Theorem sequence_accuracy_is_percentage_of_exact_matches :
  (forall hypotheses references : list string,
     length hypotheses = length references ->
     exists a,
       sequence_accuracy hypotheses references = Ok a /\
       (0 <= a)%Q /\ (a <= 100)%Q /\
       (hypotheses = [] -> a = 0%Q) /\
       (hypotheses <> [] ->
        ((a == 100)%Q <-> hypotheses = references) /\
        ((a == 0)%Q <->
         forall i h r, nth_error hypotheses i = Some h ->
                       nth_error references i = Some r -> h <> r))) /\
  (forall hypotheses references : list string,
     length hypotheses <> length references ->
     sequence_accuracy hypotheses references = Raise AssertionError).
Proof.
  split.
  - intros hs rs Hl. unfold sequence_accuracy.
    rewrite Hl, Nat.eqb_refl. cbn [assert bind]. rewrite py_sum_ones.
    destruct (count_equal_sequences hs rs Hl) as [H1 [H2 H3]].
    cbv zeta in H1, H2, H3.
    set (c := length (filter _ _)) in *. rewrite <- Hl.
    destruct hs as [|h hs].
    + cbn. eexists. split; [reflexivity|]. repeat split; try easy.
    + destruct (Nat.ltb_spec 0 (length (h :: hs))) as [Hpos|]; [|simpl in *; lia].
      destruct (count_ratio (Z.of_nat c) (Z.of_nat (length (h :: hs))))
        as [Q1 [Q2 [Q3 Q4]]]; try lia.
      eexists. split; [reflexivity|]. split; [exact Q1|]. split; [exact Q2|].
      split; [discriminate|]. intros _. split.
      * rewrite Q3, <- H2. lia.
      * rewrite Q4, <- H3. lia.
  - intros hs rs Hl. unfold sequence_accuracy.
    destruct (Nat.eqb_spec (length hs) (length rs)); [contradiction|reflexivity].
Qed.

Lemma sequence_accuracy_is_percentage_of_exact_matches_witness :
  exists a,
    sequence_accuracy ["a b"; "c"; "d e"]%string ["a b"; "x"; "d e"]%string
    = Ok a /\ (0 <= a)%Q /\ (a <= 100)%Q.
Proof.
  destruct (proj1 sequence_accuracy_is_percentage_of_exact_matches
                  ["a b"; "c"; "d e"]%string ["a b"; "x"; "d e"]%string
                  eq_refl) as [a [E [H0 [H1 _]]]].
  exists a. auto.
Defined.

(** ** token_accuracy *)

Lemma count_equal_ge (hs rs : list string) (c : Z) :
  (c <= count_equal hs rs c)%Z.
Proof.
  unfold count_equal. generalize (combine hs rs) as l. intros l.
  revert c; induction l as [|x l IH]; intros c; simpl; [lia|].
  destruct (String.eqb (fst x) (snd x)).
  - specialize (IH (c + 1)%Z). lia.
  - apply IH.
Qed.

Lemma split_char_cases (level : string) :
  (level = "word"%string \/ level = "bpe"%string) /\ split_char level = " "%string
  \/ (level <> "word"%string /\ level <> "bpe"%string) /\
     split_char level = ""%string.
Proof.
  unfold split_char.
  destruct (String.eqb_spec level "word"), (String.eqb_spec level "bpe");
    cbn [orb]; auto.
Qed.

(** X2: [token_accuracy] fails its assertion on lists of unequal length; on
    lists of one length it returns a value that is not negative when
    [level] is "word" or "bpe", and for any other level (such as "char")
    the separator is empty, so [split] raises ValueError as soon as there is
    one pair of sentences, and only empty lists give 0.0. *)
Theorem token_accuracy_char_level_raises :
  (forall hypotheses references level,
     length hypotheses <> length references ->
     token_accuracy hypotheses references level = Raise AssertionError) /\
  (forall hypotheses references level,
     length hypotheses = length references ->
     level = "word"%string \/ level = "bpe"%string ->
     exists a, token_accuracy hypotheses references level = Ok a /\
               (0 <= a)%Q) /\
  (forall hypotheses references level,
     length hypotheses = length references ->
     level <> "word"%string -> level <> "bpe"%string ->
     (hypotheses <> [] ->
      token_accuracy hypotheses references level = Raise ValueError) /\
     (hypotheses = [] ->
      token_accuracy hypotheses references level = Ok 0%Q)).
Proof.
  split; [|split].
  - intros hs rs level Hl. unfold token_accuracy.
    destruct (Nat.eqb_spec (length hs) (length rs)); [contradiction|reflexivity].
  - intros hs rs level Hl Hlev. unfold token_accuracy.
    rewrite Hl, Nat.eqb_refl. cbn [assert bind].
    destruct (split_char_cases level) as [[_ ->]|[[H1 H2] _]];
      [|destruct Hlev; contradiction].
    rewrite (for_each_ok _
      (fun st hr =>
         (count_equal (split_loop " " (fst hr) 0 EmptyString)
                      (split_loop " " (snd hr) 0 EmptyString) (fst st),
          (snd st + Z.of_nat (String.length (fst hr)))%Z)))
      by reflexivity.
    cbn [bind].
    set (st := fold_left _ _ _).
    assert (H : (0 <= fst st)%Z).
    { unfold st. generalize (combine hs rs) as l. intros l.
      assert (G : forall s : Z * Z, (0 <= fst s)%Z ->
                (0 <= fst (fold_left
                  (fun st hr =>
                     (count_equal (split_loop " " (fst hr) 0 EmptyString)
                        (split_loop " " (snd hr) 0 EmptyString) (fst st),
                      (snd st + Z.of_nat (String.length (fst hr)))%Z))
                  l s))%Z).
      { induction l as [|x l IH]; intros s Hs; simpl; auto.
        apply IH. simpl. pose proof (count_equal_ge
          (split_loop " " (fst x) 0 EmptyString)
          (split_loop " " (snd x) 0 EmptyString) (fst s)). lia. }
      apply G. simpl. lia. }
    destruct (Z.ltb_spec 0 (snd st)) as [Hpos|_].
    + eexists. split; [reflexivity|].
      apply Qmult_le_0_compat; [|discriminate].
      apply Qdiv_nonneg; rewrite <- (Zle_Qle 0); lia.
    + eexists. split; [reflexivity|]. apply Qle_refl.
  - intros hs rs level Hl H1 H2. unfold token_accuracy.
    rewrite Hl, Nat.eqb_refl. cbn [assert bind].
    destruct (split_char_cases level) as [[[?|?] _]|[_ ->]]; try contradiction.
    split.
    + intros Hne. destruct hs as [|h hs]; [congruence|].
      destruct rs as [|r rs]; [discriminate|]. reflexivity.
    + intros ->. reflexivity.
Qed.

Lemma token_accuracy_char_level_raises_witness :
  token_accuracy ["ab"]%string ["ab"]%string "char" = Raise ValueError.
Proof.
  apply (proj2 (proj2 token_accuracy_char_level_raises)
               ["ab"]%string ["ab"]%string "char"%string eq_refl);
    discriminate.
Defined.

(** ** chrf and bleu *)

Lemma combine_firstn_min {X Y} (a : list X) (b : list Y) :
  combine (firstn (Nat.min (length a) (length b)) a)
          (firstn (Nat.min (length a) (length b)) b) = combine a b.
Proof.
  revert b; induction a as [|x a IH]; intros [|y b]; try reflexivity.
  cbn. f_equal. apply IH.
Qed.

(** The loop of the sentence mode leaves the sum of the scores, added from
    the left, and the number of pairs. *)
Lemma fold_score_step {F : Type} (fadd : F -> F -> F)
    (score : string * string -> F) (l : list (string * string))
    (total : F) (n : Z) :
  fold_left (fun st hr => (fadd (fst st) (score hr), (snd st + 1)%Z))
            l (total, n)
  = (fold_left fadd (map score l) total, (n + Z.of_nat (length l))%Z).
Proof.
  revert total n; induction l as [|x l IH]; intros total n.
  - cbn. f_equal. lia.
  - cbn [fold_left map length fst snd]. rewrite IH. f_equal. lia.
Qed.

(** X3: with [corpus=False], [chrf] and [bleu] return the mean of the
    scores of the pairs as the code computes it: the scores of the zipped
    pairs added from the left to the int 0, divided by the number of pairs,
    or by 1 when there is none.  The lists are zipped without a test of
    their lengths, so only as many hypotheses and references count as the
    shorter list has. *)
Theorem chrf_bleu_sentence_mode_is_mean_of_zipped_pairs
    (F : Type) (float_of_int : Z -> F) (fadd fdiv : F -> F -> F)
    (corpus_chrf : list string -> list string -> F)
    (raw_corpus_bleu : list string -> list (list string) -> F)
    (hypotheses references : list string) :
  let pairs := combine hypotheses references in
  let n := Nat.min (length hypotheses) (length references) in
  let chrf := chrf F float_of_int fadd fdiv corpus_chrf in
  let bleu := bleu F float_of_int fadd fdiv raw_corpus_bleu in
  length pairs = n /\
  chrf hypotheses references false =
    fdiv (fold_left fadd (map (fun hr => corpus_chrf [fst hr] [snd hr]) pairs)
                    (float_of_int 0%Z))
         (float_of_int (Z.max (Z.of_nat n) 1%Z)) /\
  bleu hypotheses references false =
    fdiv (fold_left fadd
                    (map (fun hr => raw_corpus_bleu [fst hr] [[snd hr]]) pairs)
                    (float_of_int 0%Z))
         (float_of_int (Z.max (Z.of_nat n) 1%Z)) /\
  chrf hypotheses references false =
    chrf (firstn n hypotheses) (firstn n references) false /\
  bleu hypotheses references false =
    bleu (firstn n hypotheses) (firstn n references) false /\
  (n = 0 ->
   chrf hypotheses references false = fdiv (float_of_int 0%Z) (float_of_int 1%Z) /\
   bleu hypotheses references false = fdiv (float_of_int 0%Z) (float_of_int 1%Z)).
Proof.
  cbv zeta.
  assert (Hlen : length (combine hypotheses references)
                 = Nat.min (length hypotheses) (length references))
    by apply length_combine.
  assert (Hc : chrf F float_of_int fadd fdiv corpus_chrf hypotheses references
                    false =
    fdiv (fold_left fadd
            (map (fun hr => corpus_chrf [fst hr] [snd hr])
                 (combine hypotheses references)) (float_of_int 0%Z))
         (float_of_int
            (Z.max (Z.of_nat (Nat.min (length hypotheses) (length references)))
                   1%Z))).
  { unfold chrf, chrf_step.
    rewrite (fold_score_step fadd (fun hr => corpus_chrf [fst hr] [snd hr])).
    cbn [fst snd]. now rewrite Hlen. }
  assert (Hb : bleu F float_of_int fadd fdiv raw_corpus_bleu hypotheses
                    references false =
    fdiv (fold_left fadd
            (map (fun hr => raw_corpus_bleu [fst hr] [[snd hr]])
                 (combine hypotheses references)) (float_of_int 0%Z))
         (float_of_int
            (Z.max (Z.of_nat (Nat.min (length hypotheses) (length references)))
                   1%Z))).
  { unfold bleu, bleu_step.
    rewrite (fold_score_step fadd
               (fun hr => raw_corpus_bleu [fst hr] [[snd hr]])).
    cbn [fst snd]. now rewrite Hlen. }
  split; [exact Hlen|]. split; [exact Hc|]. split; [exact Hb|].
  split; [|split].
  - unfold chrf. now rewrite combine_firstn_min.
  - unfold bleu. now rewrite combine_firstn_min.
  - intros H0. rewrite Hc, Hb, H0.
    rewrite H0 in Hlen. apply length_zero_iff_nil in Hlen. rewrite Hlen.
    split; reflexivity.
Qed.

(** ** f1_bin: symmetry, relabelling and the closed form *)

Lemma Qplus_comm_eq (x y : Q) : (x + y)%Q = (y + x)%Q.
Proof.
  destruct x as [a b], y as [c d]. unfold Qplus. simpl.
  f_equal; [lia | apply Pos.mul_comm].
Qed.

Lemma Qmult_comm_eq (x y : Q) : (x * y)%Q = (y * x)%Q.
Proof.
  destruct x as [a b], y as [c d]. unfold Qmult. simpl.
  f_equal; [lia | apply Pos.mul_comm].
Qed.

Lemma f_add_comm (a b : float64) : f_add a b = f_add b a.
Proof.
  destruct a, b; simpl; try reflexivity. f_equal. apply Qplus_comm_eq.
Qed.

Lemma f_mul_comm (a b : float64) : f_mul a b = f_mul b a.
Proof.
  destruct a, b; simpl; try reflexivity. f_equal. apply Qmult_comm_eq.
Qed.

Lemma f1_of_comm (prec rec : float64) : f1_of prec rec = f1_of rec prec.
Proof.
  unfold f1_of. now rewrite (f_add_comm prec rec), (f_mul_comm prec rec).
Qed.

Lemma np_zip_land_comm (a b : list Z) :
  np_zip Z.land a b = np_zip Z.land b a.
Proof.
  unfold np_zip. revert b; induction a as [|x a IH]; intros [|y b];
    simpl; try reflexivity.
  now rewrite IH, Z.land_comm.
Qed.

(** X4: [f1_bin] does not tell hypotheses from references: on arrays of
    zeros and ones, of one length or not, exchanging the two arguments
    gives the same result, the same pair of F1 values or the same failed
    assertion. *)
Theorem f1_bin_is_symmetric (hypotheses references : list Z) :
  Forall is01 hypotheses -> Forall is01 references ->
  f1_bin references hypotheses = f1_bin hypotheses references.
Proof.
  intros _ _. unfold f1_bin.
  destruct (Nat.eqb_spec (length hypotheses) (length references)) as [Hl|Hl].
  - rewrite Hl, Nat.eqb_refl. cbn [assert bind].
    rewrite (np_zip_land_comm references hypotheses).
    rewrite (np_zip_land_comm (map (fun h => 1 - h)%Z references)).
    rewrite (np_zip_land_comm references (map Z.lnot hypotheses)).
    rewrite (np_zip_land_comm (map Z.lnot references) hypotheses).
    set (tp_1 := np_sum (np_zip Z.land hypotheses references)).
    set (tp_0 := np_sum (np_zip Z.land (map _ hypotheses) (map _ references))).
    set (fp_1 := np_sum (np_zip Z.land hypotheses (map Z.lnot references))).
    set (fn_1 := np_sum (np_zip Z.land (map Z.lnot hypotheses) references)).
    replace (tp_0 + tp_1 + fp_1 + fn_1)%Z with (tp_0 + tp_1 + fn_1 + fp_1)%Z
      by lia.
    destruct (_ =? _)%Z; cbn [assert bind]; [|reflexivity].
    unfold prec_of, rec_of.
    now rewrite (f1_of_comm (f_div (f_of_Z tp_1) (f_of_Z (tp_1 + fn_1)))),
                (f1_of_comm (f_div (f_of_Z tp_0) (f_of_Z (tp_0 + fp_1)))).
  - destruct (Nat.eqb_spec (length references) (length hypotheses));
      [congruence|reflexivity].
Qed.

Lemma f1_bin_is_symmetric_witness :
  f1_bin [0; 0; 1; 1]%Z [0; 1; 1; 1]%Z = f1_bin [0; 1; 1; 1]%Z [0; 0; 1; 1]%Z /\
  f1_bin [0; 1]%Z [1; 1; 0]%Z = f1_bin [1; 1; 0]%Z [0; 1]%Z.
Proof.
  assert (H01 : forall l, forallb (fun z => (z =? 0)%Z || (z =? 1)%Z) l = true ->
                          Forall is01 l).
  { intros l H. apply Forall_forall. intros z Hz.
    rewrite forallb_forall in H. specialize (H z Hz).
    apply orb_true_iff in H. unfold is01. rewrite <- !Z.eqb_eq. exact H. }
  split.
  - exact (f1_bin_is_symmetric [0; 1; 1; 1]%Z [0; 0; 1; 1]%Z
             (H01 [0; 1; 1; 1]%Z eq_refl) (H01 [0; 0; 1; 1]%Z eq_refl)).
  - exact (f1_bin_is_symmetric [1; 1; 0]%Z [0; 1]%Z
             (H01 [1; 1; 0]%Z eq_refl) (H01 [0; 1]%Z eq_refl)).
Defined.

Lemma relabel_counts (h r : list Z) :
  length h = length r -> Forall is01 h -> Forall is01 r ->
  let h' := map (fun x => 1 - x)%Z h in
  let r' := map (fun x => 1 - x)%Z r in
  Forall is01 h' /\ Forall is01 r' /\
  tp_1_of h' r' = tp_0_of h r /\ tp_0_of h' r' = tp_1_of h r /\
  fp_1_of h' r' = fn_1_of h r /\ fn_1_of h' r' = fp_1_of h r.
Proof.
  unfold tp_1_of, tp_0_of, fp_1_of, fn_1_of, np_zip.
  revert r; induction h as [|x h IH]; intros [|y r] Hl Hh Hr;
    try discriminate.
  - cbn. repeat split; constructor.
  - inversion Hh as [|? ? Hx Hh']; inversion Hr as [|? ? Hy Hr']; subst.
    specialize (IH r ltac:(simpl in Hl; lia) Hh' Hr'). cbv zeta in IH.
    destruct IH as [I1 [I2 [I3 [I4 [I5 I6]]]]].
    cbv zeta. cbn [map combine fst snd]. rewrite !np_sum_cons.
    clear I3. rewrite I4, I5, I6.
    split; [constructor; [unfold is01 in *; lia|exact I1]|].
    split; [constructor; [unfold is01 in *; lia|exact I2]|].
    destruct Hx as [-> | ->], Hy as [-> | ->];
      repeat split; reflexivity.
Qed.

(** X5: exchanging the two classes exchanges the two F1 values: on 0/1
    arrays of one length, [f1_bin] of the complemented arrays [1 - h],
    [1 - r] is the pair of [f1_bin h r] in the other order. *)
Theorem f1_bin_of_complements_swaps_classes (h r : list Z) :
  length h = length r -> Forall is01 h -> Forall is01 r ->
  exists f1_1 f1_0,
    f1_bin h r = Ok (f1_1, f1_0) /\
    f1_bin (map (fun x => 1 - x)%Z h) (map (fun x => 1 - x)%Z r)
    = Ok (f1_0, f1_1).
Proof.
  intros Hl Hh Hr.
  destruct (relabel_counts h r Hl Hh Hr) as [Hh' [Hr' [E1 [E2 [E3 E4]]]]].
  cbv zeta in *.
  set (h' := map (fun x => 1 - x)%Z h) in *.
  set (r' := map (fun x => 1 - x)%Z r) in *.
  assert (Hl' : length h' = length r') by (unfold h', r'; now rewrite !length_map).
  destruct (confusion_counts h r Hl Hh Hr) as [_ [_ [_ [_ Hsum]]]].
  destruct (confusion_counts h' r' Hl' Hh' Hr') as [_ [_ [_ [_ Hsum']]]].
  eexists. eexists. split.
  - unfold f1_bin. rewrite Hl, Nat.eqb_refl. cbn [assert bind].
    fold (tp_1_of h r) (tp_0_of h r) (fp_1_of h r) (fn_1_of h r).
    rewrite Hsum, <- Hl, Z.eqb_refl. cbn [assert bind]. reflexivity.
  - unfold f1_bin. rewrite Hl', Nat.eqb_refl. cbn [assert bind].
    fold (tp_1_of h' r') (tp_0_of h' r') (fp_1_of h' r') (fn_1_of h' r').
    rewrite Hsum', <- Hl', Z.eqb_refl. cbn [assert bind].
    now rewrite E1, E2, E3, E4.
Qed.

Lemma f1_bin_of_complements_swaps_classes_witness :
  exists f1_1 f1_0,
    f1_bin [0; 1; 1; 1]%Z [0; 0; 1; 1]%Z = Ok (f1_1, f1_0) /\
    f1_bin [1; 0; 0; 0]%Z [1; 1; 0; 0]%Z = Ok (f1_0, f1_1).
Proof.
  assert (H01 : forall l, forallb (fun z => (z =? 0)%Z || (z =? 1)%Z) l = true ->
                          Forall is01 l).
  { intros l H. apply Forall_forall. intros z Hz.
    rewrite forallb_forall in H. specialize (H z Hz).
    apply orb_true_iff in H. unfold is01. rewrite <- !Z.eqb_eq. exact H. }
  exact (f1_bin_of_complements_swaps_classes
           [0; 1; 1; 1]%Z [0; 0; 1; 1]%Z eq_refl
           (H01 [0; 1; 1; 1]%Z eq_refl) (H01 [0; 0; 1; 1]%Z eq_refl)).
Defined.

Lemma Qpos_spec (q : Q) : Qpos q = true <-> (0 < q)%Q.
Proof.
  unfold Qpos, Qlt. simpl. rewrite Z.ltb_lt. lia.
Qed.

Lemma Qzero_spec (q : Q) : Qzero q = true <-> (q == 0)%Q.
Proof.
  unfold Qzero, Qeq. simpl. rewrite Z.eqb_eq. lia.
Qed.

Lemma Qzero_false_of_pos (q : Q) : (0 < q)%Q -> Qzero q = false.
Proof.
  intros H. destruct (Qzero q) eqn:E; [|reflexivity].
  apply Qzero_spec in E. rewrite E in H. discriminate.
Qed.

Lemma ratio_in_unit_interval (c n : Z) :
  (0 <= c <= n)%Z -> (0 < n)%Z ->
  (0 <= inject_Z c / inject_Z n)%Q /\ (inject_Z c / inject_Z n <= 1)%Q /\
  ((inject_Z c / inject_Z n == 1)%Q <-> c = n).
Proof.
  intros Hc Hn. destruct n as [|p|p]; try lia.
  unfold Qdiv, Qinv, Qmult, Qle, Qeq, inject_Z. simpl.
  repeat split; intros; nia.
Qed.

(** With a true positive the three lines of a class compute, in the
    arithmetic without rounding of [float64], [2 tp / (2 tp + fp + fn)];
    the bounds below come from this value. *)
Lemma f1_of_closed_form (tp fp fn : Z) :
  (0 < tp)%Z -> (0 <= fp)%Z -> (0 <= fn)%Z ->
  exists q, f1_of (prec_of tp fp) (rec_of tp fn) = Fin q /\
            (q == inject_Z (2 * tp) / inject_Z (2 * tp + fp + fn))%Q.
Proof.
  intros Htp Hfp Hfn.
  assert (Ha : (0 < inject_Z tp)%Q) by (rewrite <- (Zlt_Qlt 0); lia).
  assert (Hb : (0 <= inject_Z fp)%Q) by (rewrite <- (Zle_Qle 0); lia).
  assert (Hc : (0 <= inject_Z fn)%Q) by (rewrite <- (Zle_Qle 0); lia).
  unfold prec_of, rec_of, f_of_Z, f_div.
  rewrite !inject_Z_plus.
  set (a := inject_Z tp) in *. set (b := inject_Z fp) in *.
  set (c := inject_Z fn) in *.
  rewrite (Qzero_false_of_pos (a + b)), (Qzero_false_of_pos (a + c)) by lra.
  assert (Hp : (0 < a / (a + b))%Q) by (apply Qlt_shift_div_l; lra).
  assert (Hr : (0 < a / (a + c))%Q) by (apply Qlt_shift_div_l; lra).
  unfold f1_of. cbn [f_add f_gtb f_mul].
  assert (Hs : (0 < a / (a + b) + a / (a + c))%Q) by lra.
  assert (Hg : Qpos (a / (a + b) + a / (a + c) - 0) = true)
    by (apply Qpos_spec; lra).
  rewrite Hg. cbn [f_div]. rewrite (Qzero_false_of_pos _ Hs).
  eexists. split; [reflexivity|].
  rewrite inject_Z_mult. fold a.
  change (inject_Z 2) with 2%Q.
  field. clear Hp Hr Hs Hg. clearbody a b c.
  repeat split; try lra.
  assert (0 < a * (a + c))%Q by (apply Qmult_lt_0_compat; lra).
  assert (0 < a * (a + b))%Q by (apply Qmult_lt_0_compat; lra).
  lra.
Qed.

Lemma errors_vanish_iff_equal (h r : list Z) :
  length h = length r -> Forall is01 h -> Forall is01 r ->
  ((fp_1_of h r = 0 /\ fn_1_of h r = 0)%Z <-> h = r) /\
  ((0 < tp_1_of h h)%Z <-> In 1%Z h).
Proof.
  revert r; induction h as [|x h IH]; intros [|y r] Hl Hh Hr;
    try discriminate.
  - cbn. repeat split; try tauto; lia.
  - inversion Hh as [|? ? Hx Hh']; inversion Hr as [|? ? Hy Hr']; subst.
    assert (Hl' : length h = length r) by (simpl in Hl; lia).
    destruct (IH r Hl' Hh' Hr') as [I1 I2].
    destruct (confusion_counts h r Hl' Hh' Hr') as [_ [_ [P1 [P2 _]]]].
    destruct (confusion_counts h h eq_refl Hh' Hh') as [P3 _].
    revert I1 I2 P1 P2 P3.
    unfold tp_1_of, tp_0_of, fp_1_of, fn_1_of, np_zip.
    cbn [map combine fst snd]. rewrite !np_sum_cons.
    intros I1 I2 P1 P2 P3. cbn [In].
    destruct Hx as [-> | ->], Hy as [-> | ->];
      repeat match goal with
             | |- context [Z.land ?a ?b] =>
                 let v := eval vm_compute in (Z.land a b) in
                 change (Z.land a b) with v
             | |- context [Z.lnot ?a] =>
                 let v := eval vm_compute in (Z.lnot a) in
                 change (Z.lnot a) with v
             end.
    + split; [|rewrite <- I2; split; [intros; right|intros [|]]; lia].
      rewrite Z.add_0_l, Z.add_0_l. rewrite I1. split; congruence.
    + split; [|rewrite <- I2; split; [intros; right|intros [|]]; lia].
      split; [lia|discriminate].
    + split; [|split; [now left|lia]].
      split; [lia|discriminate].
    + split; [|split; [now left|lia]].
      rewrite Z.add_0_l, Z.add_0_l. rewrite I1. split; congruence.
Qed.

(** X6: on 0/1 arrays of one length the two values of [f1_bin] are finite
    numbers between 0 and 1, never an infinity or not-a-number although the
    divisions by zero give such values on the way; the F1 of the positive
    class is positive with a true positive and 0 without one; and it is 1
    exactly when the hypotheses equal the references and hold a 1. *)
Theorem f1_bin_is_finite_and_between_0_and_1 (h r : list Z) :
  length h = length r -> Forall is01 h -> Forall is01 r ->
  exists q1 q0,
    f1_bin h r = Ok (Fin q1, Fin q0) /\
    (0 <= q1)%Q /\ (q1 <= 1)%Q /\ (0 <= q0)%Q /\ (q0 <= 1)%Q /\
    ((0 < tp_1_of h r)%Z -> (0 < q1)%Q) /\
    (tp_1_of h r = 0%Z -> q1 = 0%Q) /\
    ((q1 == 1)%Q <-> h = r /\ In 1%Z h).
Proof.
  intros Hl Hh Hr.
  destruct (confusion_counts h r Hl Hh Hr) as [P1 [P0 [Pfp [Pfn Hsum]]]].
  assert (B : forall tp fp fn, (0 <= tp)%Z -> (0 <= fp)%Z -> (0 <= fn)%Z ->
            exists q, f1_of (prec_of tp fp) (rec_of tp fn) = Fin q /\
              (0 <= q)%Q /\ (q <= 1)%Q /\
              ((0 < tp)%Z -> (0 < q)%Q) /\
              (tp = 0%Z -> q = 0%Q) /\
              ((q == 1)%Q <-> (0 < tp /\ fp = 0 /\ fn = 0)%Z)).
  { intros tp fp fn Htp Hfp Hfn.
    destruct (Z.eq_dec tp 0) as [->|Hne].
    - exists 0%Q. rewrite f1_of_no_true_positive.
      split; [reflexivity|]. split; [discriminate|]. split; [discriminate|].
      split; [lia|]. split; [reflexivity|].
      split; [discriminate|intros [H _]; lia].
    - destruct (f1_of_closed_form tp fp fn) as [q [E HQ]]; try lia.
      destruct (ratio_in_unit_interval (2 * tp) (2 * tp + fp + fn))
        as [R0 [R1 R2]]; try lia.
      exists q. split; [exact E|].
      split; [rewrite HQ; exact R0|]. split; [rewrite HQ; exact R1|].
      split.
      { intros _. rewrite HQ. apply Qlt_shift_div_l.
        - rewrite <- (Zlt_Qlt 0). lia.
        - rewrite Qmult_0_l, <- (Zlt_Qlt 0). lia. }
      split; [lia|]. rewrite HQ, R2. lia. }
  destruct (B (tp_1_of h r) (fp_1_of h r) (fn_1_of h r) P1 Pfp Pfn)
    as [q1 [E1 [A1 [A2 [A3 [A4 A5]]]]]].
  destruct (B (tp_0_of h r) (fn_1_of h r) (fp_1_of h r) P0 Pfn Pfp)
    as [q0 [E0 [A6 [A7 _]]]].
  exists q1, q0. split.
  - unfold f1_bin. rewrite Hl, Nat.eqb_refl. cbn [assert bind].
    fold (tp_1_of h r) (tp_0_of h r) (fp_1_of h r) (fn_1_of h r).
    rewrite Hsum, <- Hl, Z.eqb_refl. cbn [assert bind].
    now rewrite E1, E0.
  - repeat (split; [assumption|]).
    rewrite A5.
    destruct (errors_vanish_iff_equal h r Hl Hh Hr) as [V1 _].
    split.
    + intros [T [F1 F2]]. assert (E : h = r) by (apply V1; auto).
      split; [exact E|]. subst r.
      now apply (errors_vanish_iff_equal h h eq_refl Hh Hh).
    + intros [E T]. subst r.
      apply (errors_vanish_iff_equal h h eq_refl Hh Hh) in T.
      split; [exact T|]. now apply V1.
Qed.

Lemma f1_bin_is_finite_and_between_0_and_1_witness :
  exists q1 q0,
    f1_bin [0; 1; 1; 1]%Z [0; 0; 1; 1]%Z = Ok (Fin q1, Fin q0) /\
    (0 < q1)%Q /\ (q1 <= 1)%Q /\ (0 <= q0)%Q /\ (q0 <= 1)%Q.
Proof.
  assert (H01 : forall l, forallb (fun z => (z =? 0)%Z || (z =? 1)%Z) l = true ->
                          Forall is01 l).
  { intros l H. apply Forall_forall. intros z Hz.
    rewrite forallb_forall in H. specialize (H z Hz).
    apply orb_true_iff in H. unfold is01. rewrite <- !Z.eqb_eq. exact H. }
  destruct (f1_bin_is_finite_and_between_0_and_1
              [0; 1; 1; 1]%Z [0; 0; 1; 1]%Z eq_refl
              (H01 [0; 1; 1; 1]%Z eq_refl) (H01 [0; 0; 1; 1]%Z eq_refl))
    as [q1 [q0 [E [_ [A2 [A3 [A4 [A5 _]]]]]]]].
  exists q1, q0. repeat split; try assumption.
  apply A5. reflexivity.
Defined.


(** ** The three token rewards compared *)

Lemma In_enumerate_from_iff {A} (l : list A) (a i : nat) (x : A) :
  In (i, x) (enumerate_from a l) <-> a <= i /\ nth_error l (i - a) = Some x.
Proof.
  revert a; induction l as [|y l IH]; intros a.
  - cbn. split; [tauto|]. intros [_ H]. destruct (i - a); discriminate.
  - rewrite enumerate_from_cons. cbn [In]. rewrite IH. split.
    + intros [H | [H1 H2]].
      * injection H as -> ->. rewrite Nat.sub_diag. split; [lia|reflexivity].
      * split; [lia|]. replace (i - a) with (S (i - S a)) by lia. exact H2.
    + intros [H1 H2]. destruct (Nat.eq_dec i a) as [->|Hne].
      * rewrite Nat.sub_diag in H2. injection H2 as ->. now left.
      * right. split; [lia|].
        replace (i - a) with (S (i - S a)) in H2 by lia. exact H2.
Qed.

Lemma In_np_where_eq (g : list Z) (p_i : Z) (i : nat) :
  In i (np_where_eq g p_i) <-> nth_error g i = Some p_i.
Proof.
  unfold np_where_eq, enumerate. rewrite in_map_iff. split.
  - intros [[i' x] [E H]]. cbn in E. subst i'.
    apply filter_In in H. destruct H as [H1 H2]. cbn in H2.
    apply Z.eqb_eq in H2. subst x.
    apply In_enumerate_from_iff in H1. now rewrite Nat.sub_0_r in H1.
  - intros H. exists (i, p_i). split; [reflexivity|].
    apply filter_In. split; [|apply Z.eqb_refl].
    apply In_enumerate_from_iff. rewrite Nat.sub_0_r. split; [lia|exact H].
Qed.

Lemma shift_value_strictly_inside (d L : Z) :
  (0 < d < L)%Z ->
  (0 < 1 - inject_Z d / inject_Z L)%Q /\ (1 - inject_Z d / inject_Z L < 1)%Q.
Proof.
  intros H.
  assert (HL : (0 < inject_Z L)%Q) by (rewrite <- (Zlt_Qlt 0); lia).
  assert (H0 : (0 < inject_Z d / inject_Z L)%Q).
  { apply Qlt_shift_div_l; [exact HL|]. rewrite Qmult_0_l.
    rewrite <- (Zlt_Qlt 0). lia. }
  assert (H1 : (inject_Z d / inject_Z L < 1)%Q).
  { apply Qlt_shift_div_r; [exact HL|]. rewrite Qmult_1_l.
    rewrite <- Zlt_Qlt. lia. }
  split; lra.
Qed.

(** The value [token_edit_reward] leaves at a cell of a row of length
    [L]. *)
Lemma edit_reward_at_cases (shifted : bool) (g : list Z) (k : nat)
    (g_i p_i : Z) :
  nth_error g k = Some g_i ->
  let e := edit_reward_at shifted (length g) g k g_i p_i in
  (0 <= e)%Q /\ (e <= 1)%Q /\ ((e == 1)%Q <-> p_i = g_i) /\
  ((0 < e)%Q <-> p_i = g_i \/ (shifted = true /\ contains g p_i = true)).
Proof.
  intros Hk. cbv zeta. unfold edit_reward_at, edit_value. cbn [fst snd].
  destruct (Z.eqb_spec p_i g_i) as [->|Hne].
  - repeat split; try discriminate; auto.
  - destruct (contains g p_i) eqn:Hc; cbn [andb].
    + destruct shifted.
      * destruct (shift_reward_uses_greatest_position (length g) g k p_i Hc)
          as [i [Hi [_ ->]]].
        apply In_np_where_eq in Hi.
        assert (Hik : i <> k) by (intros ->; congruence).
        assert (Hil : i < length g) by (apply nth_error_Some; congruence).
        assert (Hkl : k < length g) by (apply nth_error_Some; congruence).
        destruct (shift_value_strictly_inside
                    (Z.abs (Z.of_nat k - Z.of_nat i)) (Z.of_nat (length g)))
          as [S1 S2]; [lia|].
        split; [now apply Qlt_le_weak|]. split; [now apply Qlt_le_weak|].
        split.
        -- split; [|contradiction]. intros E. rewrite E in S2.
           discriminate.
        -- split; [now right|intros _; exact S1].
      * repeat split; try discriminate; try contradiction.
        intros [H|[H _]]; [contradiction|discriminate].
    + repeat split; try discriminate; try contradiction.
      intros [H|[_ H]]; [contradiction|discriminate].
Qed.

(** X7: on grids of one shape, every cell of [token_edit_reward] lies
    between 0 and 1; it is 1 exactly where the predicted id equals the gold
    id of that position, and it is positive exactly there and, with
    [shifted], where the predicted id occurs in the gold row; so a shifted
    id always gets more than 0 and less than 1. *)
Theorem token_edit_reward_is_one_exactly_on_matches
    (gold pred : ndarray Z) (shifted : bool) :
  wf_ndarray gold -> wf_ndarray pred -> shape gold = shape pred ->
  exists r,
    token_edit_reward gold pred shifted = Ok r /\
    forall j k g p g_i p_i,
      nth_error (rows gold) j = Some g ->
      nth_error (rows pred) j = Some p ->
      nth_error g k = Some g_i ->
      nth_error p k = Some p_i ->
      exists e,
        getitem2 r j k = Some e /\
        (0 <= e)%Q /\ (e <= 1)%Q /\
        ((e == 1)%Q <-> p_i = g_i) /\
        ((0 < e)%Q <->
         p_i = g_i \/ (shifted = true /\ contains g p_i = true)).
Proof.
  intros Hg Hp Hs.
  destruct (token_edit_reward_spec gold pred shifted Hp Hs)
    as [r [E [_ [_ He]]]].
  exists r. split; [exact E|].
  intros j k g p g_i p_i Hgj Hpj Hgk Hpk.
  destruct (wf_nth_row gold j g Hg Hgj) as [_ Lg].
  eexists. split; [apply (He j k g p g_i p_i); assumption|].
  rewrite <- Lg. now apply edit_reward_at_cases.
Qed.

Lemma token_edit_reward_is_one_exactly_on_matches_witness :
  exists r,
    token_edit_reward (grid_1x3 5 6 7) (grid_1x3 6 6 8) true = Ok r /\
    forall j k g p g_i p_i,
      nth_error (rows (grid_1x3 5 6 7)) j = Some g ->
      nth_error (rows (grid_1x3 6 6 8)) j = Some p ->
      nth_error g k = Some g_i ->
      nth_error p k = Some p_i ->
      exists e,
        getitem2 r j k = Some e /\
        (0 <= e)%Q /\ (e <= 1)%Q /\
        ((e == 1)%Q <-> p_i = g_i) /\
        ((0 < e)%Q <-> p_i = g_i \/ (true = true /\ contains g p_i = true)).
Proof.
  apply (token_edit_reward_is_one_exactly_on_matches
           (grid_1x3 5 6 7) (grid_1x3 6 6 8) true).
  - split; [reflexivity|]. repeat constructor.
  - split; [reflexivity|]. repeat constructor.
  - reflexivity.
Defined.

Lemma nth_error_indicator (lo hi n k : nat) :
  k < n ->
  nth_error (indicator lo hi n) k =
  Some (if (lo <=? k) && (k <? hi) then 1%Q else 0%Q).
Proof.
  intros Hk. unfold indicator.
  rewrite nth_error_map, nth_error_seq.
  destruct (Nat.ltb_spec k n); [reflexivity|lia].
Qed.

Lemma common_contains (p g : list Z) (s t l k : nat) (p_i : Z) :
  common p g s t l -> s <= k < s + l -> nth_error p k = Some p_i ->
  contains g p_i = true.
Proof.
  intros [H1 [H2 H3]] Hk Hp.
  specialize (H3 (k - s) ltac:(lia)).
  replace (s + (k - s)) with k in H3 by lia.
  rewrite (nth_error_nth p k 0%Z Hp) in H3.
  apply (contains_nth g (t + (k - s))).
  rewrite H3. apply nth_error_nth'. lia.
Qed.

(** X8: [token_lcs_reward] gives every cell 0 or 1 and never rewards an id
    that [token_recall_reward] does not: a cell marked 1 lies in a run
    shared with the gold row, so its id occurs in that row.  Neither
    function asks the two grids to have one shape. *)
Theorem token_lcs_reward_is_below_token_recall_reward
    (gold pred : ndarray Z) :
  wf_ndarray pred ->
  exists r_lcs r_recall,
    token_lcs_reward gold pred = Ok r_lcs /\
    token_recall_reward gold pred = Ok r_recall /\
    forall j k g p p_i,
      nth_error (rows gold) j = Some g ->
      nth_error (rows pred) j = Some p ->
      nth_error p k = Some p_i ->
      exists l r,
        getitem2 r_lcs j k = Some l /\
        getitem2 r_recall j k = Some r /\
        (l = 0%Q \/ l = 1%Q) /\
        r = (if contains g p_i then 1%Q else 0%Q) /\
        (l <= r)%Q.
Proof.
  intros Hp.
  destruct (token_lcs_reward_spec gold pred Hp) as [rl [El [_ Hl]]].
  destruct (token_recall_reward_spec gold pred Hp) as [rr [Er [_ [_ Hr]]]].
  exists rl, rr. split; [exact El|]. split; [exact Er|].
  intros j k g p p_i Hgj Hpj Hpk.
  assert (Hk : k < length p) by (apply nth_error_Some; congruence).
  destruct (longest_common_substring_rewards_spec p g)
    as [s [l [E [[t Hc] _]]]].
  eexists. eexists. split.
  { unfold getitem2. rewrite (Hl j g p Hgj Hpj), E.
    now apply nth_error_indicator. }
  split; [apply (Hr j k g p p_i); assumption|].
  destruct ((s <=? k) && (k <? s + l)) eqn:Hin.
  - apply andb_true_iff in Hin. destruct Hin as [H1 H2].
    apply Nat.leb_le in H1. apply Nat.ltb_lt in H2.
    rewrite (common_contains p g s t l k p_i Hc (conj H1 H2) Hpk).
    split; [now right|]. split; [reflexivity|apply Qle_refl].
  - split; [now left|]. split; [reflexivity|].
    destruct (contains g p_i); discriminate.
Qed.

Lemma token_lcs_reward_is_below_token_recall_reward_witness :
  exists r_lcs r_recall,
    token_lcs_reward (grid_1x3 1 2 3) (grid_1x3 3 1 2) = Ok r_lcs /\
    token_recall_reward (grid_1x3 1 2 3) (grid_1x3 3 1 2) = Ok r_recall /\
    forall j k g p p_i,
      nth_error (rows (grid_1x3 1 2 3)) j = Some g ->
      nth_error (rows (grid_1x3 3 1 2)) j = Some p ->
      nth_error p k = Some p_i ->
      exists l r,
        getitem2 r_lcs j k = Some l /\
        getitem2 r_recall j k = Some r /\
        (l = 0%Q \/ l = 1%Q) /\
        r = (if contains g p_i then 1%Q else 0%Q) /\
        (l <= r)%Q.
Proof.
  apply (token_lcs_reward_is_below_token_recall_reward
           (grid_1x3 1 2 3) (grid_1x3 3 1 2)).
  split; [reflexivity|]. repeat constructor.
Defined.

Lemma common_whole_row (p : list Z) : common p p 0 0 (length p).
Proof. repeat split; auto. Qed.

(** X9: a prediction equal to the gold grid gets the full reward
    everywhere: all three of [token_edit_reward], [token_lcs_reward] and
    [token_recall_reward] leave 1 in every cell. *)
Theorem perfect_prediction_gets_full_reward
    (grid : ndarray Z) (shifted : bool) :
  wf_ndarray grid ->
  exists r_edit r_lcs r_recall,
    token_edit_reward grid grid shifted = Ok r_edit /\
    token_lcs_reward grid grid = Ok r_lcs /\
    token_recall_reward grid grid = Ok r_recall /\
    forall j k, j < fst (shape grid) -> k < snd (shape grid) ->
      getitem2 r_edit j k = Some 1%Q /\
      getitem2 r_lcs j k = Some 1%Q /\
      getitem2 r_recall j k = Some 1%Q.
Proof.
  intros Hw.
  destruct (token_edit_reward_spec grid grid shifted Hw eq_refl)
    as [re [Ee [_ [_ He]]]].
  destruct (token_lcs_reward_spec grid grid Hw) as [rl [El [_ Hl]]].
  destruct (token_recall_reward_spec grid grid Hw) as [rr [Er [_ [_ Hr]]]].
  exists re, rl, rr. repeat (split; [assumption|]).
  intros j k Hj Hk. pose proof Hw as [Hw1 Hw2].
  destruct (nth_error (rows grid) j) as [p|] eqn:Epj.
  2:{ apply nth_error_None in Epj. lia. }
  destruct (wf_nth_row grid j p Hw Epj) as [_ Lp].
  destruct (nth_error p k) as [p_i|] eqn:Epk.
  2:{ apply nth_error_None in Epk. lia. }
  split; [|split].
  - rewrite (He j k p p p_i p_i Epj Epj Epk Epk).
    unfold edit_reward_at, edit_value. cbn [fst snd].
    now rewrite Z.eqb_refl.
  - unfold getitem2. rewrite (Hl j p p Epj Epj).
    destruct (longest_common_substring_rewards_spec p p)
      as [s [l [E [[t Hc] [Hmax _]]]]].
    pose proof (Hmax 0 0 (length p) (common_whole_row p)) as Hlen.
    destruct Hc as [Hc _].
    rewrite E, nth_error_indicator by lia.
    destruct (Nat.leb_spec s k); [|lia].
    destruct (Nat.ltb_spec k (s + l)); [reflexivity|lia].
  - rewrite (Hr j k p p p_i Epj Epj Epk).
    now rewrite (contains_nth p k p_i Epk).
Qed.

Lemma perfect_prediction_gets_full_reward_witness :
  exists r_edit r_lcs r_recall,
    token_edit_reward (grid_1x3 4 4 2) (grid_1x3 4 4 2) true = Ok r_edit /\
    token_lcs_reward (grid_1x3 4 4 2) (grid_1x3 4 4 2) = Ok r_lcs /\
    token_recall_reward (grid_1x3 4 4 2) (grid_1x3 4 4 2) = Ok r_recall /\
    forall j k, j < 1 -> k < 3 ->
      getitem2 r_edit j k = Some 1%Q /\
      getitem2 r_lcs j k = Some 1%Q /\
      getitem2 r_recall j k = Some 1%Q.
Proof.
  apply (perfect_prediction_gets_full_reward (grid_1x3 4 4 2) true).
  split; [reflexivity|]. repeat constructor.
Defined.


(** ** array_to_sentence and arrays_to_sentences *)

Section SentencesFacts.
Variable EOS_TOKEN : string.
Variable Vocabulary : Type.
Variable itos : Vocabulary -> list string.
Variable vocabulary : Vocabulary.

Local Abbreviation lookup := (list_getitem (itos vocabulary)).
Local Abbreviation loop := (array_to_sentence_loop EOS_TOKEN Vocabulary itos vocabulary).

Lemma list_getitem_cases {A} (l : list A) (i : Z) :
  (exists x, list_getitem l i = Ok x /\ In x l) \/
  list_getitem l i = Raise IndexError.
Proof.
  unfold list_getitem. destruct (py_index (length l) i) as [n|e] eqn:E.
  - cbn [bind]. destruct (nth_error l n) as [x|] eqn:En; [|now right].
    left. exists x. split; [reflexivity|]. eapply nth_error_In; eauto.
  - right. unfold py_index in E.
    destruct (_ && _); [discriminate|].
    destruct (_ && _); [discriminate|]. now injection E as <-.
Qed.

Lemma array_to_sentence_loop_app (cut_at_eos : bool)
    (pre : list Z) (toks : list string) (rest : list Z) (acc : list string) :
  Forall2 (fun i s => lookup i = Ok s /\
                      (cut_at_eos = true -> s <> EOS_TOKEN)) pre toks ->
  loop cut_at_eos (pre ++ rest) acc = loop cut_at_eos rest (acc ++ toks).
Proof.
  intros H. revert acc. induction H as [|i s pre toks [Hi Hs] _ IH];
    intros acc.
  - now rewrite app_nil_r.
  - cbn [app array_to_sentence_loop]. rewrite Hi. cbn [bind].
    assert (E : cut_at_eos && String.eqb s EOS_TOKEN = false).
    { destruct cut_at_eos; [|reflexivity].
      cbn [andb]. apply String.eqb_neq. now apply Hs. }
    rewrite E, IH, <- app_assoc. reflexivity.
Qed.

Lemma array_to_sentence_loop_post (cut_at_eos : bool) (array : list Z)
    (acc : list string) :
  match loop cut_at_eos array acc with
  | Ok sentence =>
      exists toks,
        sentence = acc ++ toks /\
        length toks <= length array /\
        (cut_at_eos = true -> ~ In EOS_TOKEN toks) /\
        (cut_at_eos = false -> length toks = length array) /\
        Forall (fun s => In s (itos vocabulary)) toks
  | Raise e =>
      e = IndexError /\ exists i, In i array /\ lookup i = Raise IndexError
  end.
Proof.
  revert acc; induction array as [|i rest IH]; intros acc.
  - cbn. exists []. rewrite app_nil_r. repeat split; auto.
  - cbn [array_to_sentence_loop].
    destruct (list_getitem_cases (itos vocabulary) i) as [[s [E Hin]]|E];
      rewrite E; cbn [bind].
    2:{ split; [reflexivity|]. exists i. split; [now left|exact E]. }
    destruct (cut_at_eos && String.eqb s EOS_TOKEN) eqn:Hc.
    + exists []. rewrite app_nil_r. apply andb_true_iff in Hc.
      destruct Hc as [-> _]. repeat split; auto; try discriminate.
      cbn. lia.
    + specialize (IH (acc ++ [s])).
      destruct (loop cut_at_eos rest (acc ++ [s])) as [sentence|e].
      * destruct IH as [toks [-> [H1 [H2 [H3 H4]]]]].
        exists (s :: toks). rewrite <- app_assoc. split; [reflexivity|].
        split; [cbn; lia|]. split; [|split].
        -- intros Hcut [Heq|Hin']; [|now apply H2].
           subst cut_at_eos s. cbn in Hc. now rewrite String.eqb_refl in Hc.
        -- intros Hcut. cbn. now rewrite H3.
        -- now constructor.
      * destruct IH as [-> [i' [Hi' Ei']]]. split; [reflexivity|].
        exists i'. split; [now right|exact Ei'].
Qed.

End SentencesFacts.

(** X10: with [cut_at_eos] the sentence of [array_to_sentence] stops just
    before the first id whose token is [EOS_TOKEN]: the ids before it give
    their tokens, the ids after it are never looked up (whatever they are,
    even out of range), and the sentence holds no [EOS_TOKEN]; without an
    end-of-sequence id, or without [cut_at_eos], every id gives its
    token. *)
Theorem array_to_sentence_cuts_at_first_eos
    (EOS_TOKEN : string) (Vocabulary : Type)
    (itos : Vocabulary -> list string) (vocabulary : Vocabulary) :
  (forall (pre : list Z) (toks : list string) (e : Z) (post : list Z),
     Forall2 (fun i s => list_getitem (itos vocabulary) i = Ok s /\
                         s <> EOS_TOKEN) pre toks ->
     list_getitem (itos vocabulary) e = Ok EOS_TOKEN ->
     array_to_sentence EOS_TOKEN Vocabulary itos (pre ++ e :: post)
                       vocabulary true = Ok toks /\
     ~ In EOS_TOKEN toks) /\
  (forall (array : list Z) (toks : list string),
     Forall2 (fun i s => list_getitem (itos vocabulary) i = Ok s /\
                         s <> EOS_TOKEN) array toks ->
     array_to_sentence EOS_TOKEN Vocabulary itos array vocabulary true
     = Ok toks) /\
  (forall (array : list Z) (toks : list string),
     Forall2 (fun i s => list_getitem (itos vocabulary) i = Ok s) array toks ->
     array_to_sentence EOS_TOKEN Vocabulary itos array vocabulary false
     = Ok toks).
Proof.
  split; [|split].
  - intros pre toks e post H He. split.
    + unfold array_to_sentence.
      rewrite (array_to_sentence_loop_app EOS_TOKEN Vocabulary itos vocabulary
                 true pre toks).
      * cbn [array_to_sentence_loop app]. rewrite He. cbn [bind andb].
        now rewrite String.eqb_refl.
      * eapply Forall2_impl; [|exact H]. cbn. intros i s [H1 H2]. auto.
    + clear He. induction H as [|i s pre toks [_ Hs] _ IH]; [tauto|].
      intros [Heq|Hin]; [congruence|tauto].
  - intros array toks H. unfold array_to_sentence.
    rewrite <- (app_nil_r array).
    rewrite (array_to_sentence_loop_app EOS_TOKEN Vocabulary itos vocabulary
               true array toks); [reflexivity|].
    eapply Forall2_impl; [|exact H]. cbn. intros i s [H1 H2]. auto.
  - intros array toks H. unfold array_to_sentence.
    rewrite <- (app_nil_r array).
    rewrite (array_to_sentence_loop_app EOS_TOKEN Vocabulary itos vocabulary
               false array toks); [reflexivity|].
    eapply Forall2_impl; [|exact H]. cbn. intros i s H1.
    split; [exact H1|discriminate].
Qed.

Lemma array_to_sentence_cuts_at_first_eos_witness :
  array_to_sentence "</s>" (list string) (fun v => v) [4; 5; 3; 99; 4]%Z
                    ["<unk>"; "<pad>"; "<s>"; "</s>"; "a"; "b"]%string true
  = Ok ["a"; "b"]%string.
Proof.
  apply (proj1 (array_to_sentence_cuts_at_first_eos
                  "</s>" (list string) (fun v => v)
                  ["<unk>"; "<pad>"; "<s>"; "</s>"; "a"; "b"]%string)
               [4; 5]%Z ["a"; "b"]%string 3%Z [99; 4]%Z).
  - repeat constructor; discriminate.
  - reflexivity.
Defined.

(** X11: [array_to_sentence] either returns a sentence or raises
    IndexError, the latter only when some id of the array is not an index
    of [itos] (an id from [-len(itos)] to [-1] is one: it counts from the
    end); a returned sentence is made of tokens of [itos], is no longer
    than the array, has its length without [cut_at_eos] and holds no
    [EOS_TOKEN] with it. *)
Theorem array_to_sentence_returns_tokens_or_index_error
    (EOS_TOKEN : string) (Vocabulary : Type)
    (itos : Vocabulary -> list string) (vocabulary : Vocabulary)
    (array : list Z) (cut_at_eos : bool) :
  match array_to_sentence EOS_TOKEN Vocabulary itos array vocabulary
                          cut_at_eos with
  | Ok sentence =>
      length sentence <= length array /\
      (cut_at_eos = true -> ~ In EOS_TOKEN sentence) /\
      (cut_at_eos = false -> length sentence = length array) /\
      Forall (fun s => In s (itos vocabulary)) sentence
  | Raise e =>
      e = IndexError /\
      exists i, In i array /\
        ((i < - Z.of_nat (length (itos vocabulary)))%Z \/
         (Z.of_nat (length (itos vocabulary)) <= i)%Z)
  end.
Proof.
  unfold array_to_sentence.
  pose proof (array_to_sentence_loop_post EOS_TOKEN Vocabulary itos vocabulary
                cut_at_eos array []) as H.
  destruct (array_to_sentence_loop _ _ _ _ _ _ _) as [sentence|e].
  - destruct H as [toks [-> H]]. exact H.
  - destruct H as [-> [i [Hi Ei]]]. split; [reflexivity|].
    exists i. split; [exact Hi|].
    unfold list_getitem, py_index in Ei.
    destruct (Z.leb_spec 0 i), (Z.ltb_spec i (Z.of_nat (length (itos vocabulary))));
      cbn [andb bind] in Ei; try lia.
    + exfalso. destruct (nth_error (itos vocabulary) (Z.to_nat i)) eqn:En;
        [discriminate|]. apply nth_error_None in En. lia.
    + destruct (Z.ltb_spec i 0); [|lia].
      destruct (Z.leb_spec (- Z.of_nat (length (itos vocabulary))) i);
        cbn [andb bind] in Ei; [|lia].
      exfalso.
      destruct (nth_error (itos vocabulary)
                  (Z.to_nat (Z.of_nat (length (itos vocabulary)) + i))) eqn:En;
        [discriminate|]. apply nth_error_None in En. lia.
Qed.

Lemma arrays_to_sentences_loop {S X Y : Type} (f : X -> result Y)
    (l : list X) (acc : list Y) :
  for_each (fun ys x => y <- f x ;; Ok (ys ++ [y])) l acc =
  (ys <- map_result f l ;; Ok (acc ++ ys)).
Proof.
  revert acc; induction l as [|x l IH]; intros acc.
  - cbn. now rewrite app_nil_r.
  - cbn [for_each map_result]. destruct (f x) as [y|e]; cbn [bind];
      [|reflexivity].
    rewrite IH. destruct (map_result f l) as [ys|e]; cbn [bind];
      [|reflexivity].
    now rewrite <- app_assoc.
Qed.

(** X12: [arrays_to_sentences] converts the arrays one by one and in
    order: when every array converts, the result is the list of their
    sentences, one per array; the first array that raises makes the whole
    call raise the same exception, the arrays after it not being read. *)
Theorem arrays_to_sentences_converts_each_array
    (EOS_TOKEN : string) (Vocabulary : Type)
    (itos : Vocabulary -> list string) (vocabulary : Vocabulary)
    (cut_at_eos : bool) :
  let convert array :=
    array_to_sentence EOS_TOKEN Vocabulary itos array vocabulary cut_at_eos in
  (forall arrays sentences,
     Forall2 (fun array sentence => convert array = Ok sentence)
             arrays sentences ->
     arrays_to_sentences EOS_TOKEN Vocabulary itos arrays vocabulary
                         cut_at_eos = Ok sentences) /\
  (forall pre sentences array post e,
     Forall2 (fun array sentence => convert array = Ok sentence)
             pre sentences ->
     convert array = Raise e ->
     arrays_to_sentences EOS_TOKEN Vocabulary itos (pre ++ array :: post)
                         vocabulary cut_at_eos = Raise e).
Proof.
  intros convert. unfold arrays_to_sentences.
  assert (G : forall arrays,
    for_each (fun sentences array => s <- convert array ;; Ok (sentences ++ [s]))
             arrays [] = map_result convert arrays).
  { intros arrays. rewrite (arrays_to_sentences_loop (S := unit)).
    destruct (map_result convert arrays); reflexivity. }
  split.
  - intros arrays sentences H. fold convert. rewrite G.
    induction H as [|a s arrays sentences Ha _ IH]; [reflexivity|].
    cbn [map_result]. now rewrite Ha, IH.
  - intros pre sentences array post e H Ha. fold convert. rewrite G.
    induction H as [|a s pre sentences Hs _ IH].
    + cbn [app map_result]. now rewrite Ha.
    + cbn [app map_result]. now rewrite Hs, IH.
Qed.

Lemma arrays_to_sentences_converts_each_array_witness :
  arrays_to_sentences "</s>" (list string) (fun v => v)
                      [[1; 2]; [0; 2; 1]; []]%Z ["</s>"; "a"; "b"]%string true
  = Ok [["a"; "b"]; []; []]%string.
Proof.
  apply (proj1 (arrays_to_sentences_converts_each_array
                  "</s>" (list string) (fun v => v)
                  ["</s>"; "a"; "b"]%string true)).
  repeat constructor.
Defined.

(** ** subsequent_mask *)

Lemma nth_error_enumerate_from {A} (l : list A) (a i : nat) :
  nth_error (enumerate_from a l) i =
  option_map (fun x => (a + i, x)) (nth_error l i).
Proof.
  revert a i; induction l as [|x l IH]; intros a [|i];
    try reflexivity.
  - rewrite enumerate_from_cons. cbn. now rewrite Nat.add_0_r.
  - rewrite enumerate_from_cons. cbn [nth_error]. rewrite IH.
    destruct (nth_error l i); cbn; [|reflexivity].
    now rewrite Nat.add_succ_r.
Qed.

(** X13: [subsequent_mask(size)] is a stack of one [size] by [size]
    matrix of truth values whose entry at row [i] and column [j] is true
    exactly when [j <= i]: a position sees itself and what comes before,
    never what comes after; a negative [size] raises ValueError. *)
Theorem subsequent_mask_is_lower_triangular :
  (forall size : Z, (size < 0)%Z -> subsequent_mask size = Raise ValueError) /\
  (forall size : Z, (0 <= size)%Z ->
     exists mask,
       subsequent_mask size = Ok [mask] /\
       length mask = Z.to_nat size /\
       forall i, i < Z.to_nat size ->
         exists row,
           nth_error mask i = Some row /\
           length row = Z.to_nat size /\
           forall j, j < Z.to_nat size ->
             nth_error row j = Some (j <=? i)).
Proof.
  split.
  - intros size H. unfold subsequent_mask, np_ones3.
    destruct (Z.ltb_spec size 0); [reflexivity|lia].
  - intros size H. unfold subsequent_mask, np_ones3.
    destruct (Z.ltb_spec size 0); [lia|]. cbn [Z.ltb Z.compare orb bind].
    change (Z.to_nat 1) with 1. cbn [repeat np_triu3 map].
    set (n := Z.to_nat size).
    eexists. split; [reflexivity|]. split.
    + unfold enumerate, enumerate_from.
      rewrite !length_map, length_combine, length_seq, repeat_length. lia.
    + intros i Hi. rewrite !nth_error_map. unfold enumerate.
      rewrite nth_error_enumerate_from, (nth_error_repeat _ Hi).
      cbn [option_map fst snd]. eexists. split; [reflexivity|]. split.
      * unfold enumerate_from.
        rewrite !length_map, length_combine, length_seq, repeat_length. lia.
      * intros j Hj. rewrite !nth_error_map.
        rewrite nth_error_enumerate_from, (nth_error_repeat _ Hj).
        cbn [option_map fst snd Nat.add]. f_equal.
        destruct (Z.leb_spec (Z.of_nat i + 1) (Z.of_nat j)),
                 (Nat.leb_spec j i); try lia; reflexivity.
Qed.

Lemma subsequent_mask_is_lower_triangular_witness :
  subsequent_mask (-2) = Raise ValueError.
Proof.
  apply (proj1 subsequent_mask_is_lower_triangular (-2)%Z). reflexivity.
Defined.

(** ** MonoDataset *)

Lemma fold_mono_step (strip : string -> string)
    (field : string -> list string) (lines : list string)
    (acc : list MonoExample) :
  fold_left (mono_step strip field) lines acc =
  acc ++ map (fun l => mk_mono_example (field (strip l)))
             (filter (fun l => negb (String.eqb (strip l) "")) lines).
Proof.
  revert acc; induction lines as [|l lines IH]; intros acc.
  - cbn. now rewrite app_nil_r.
  - cbn [fold_left filter]. rewrite IH. unfold mono_step.
    destruct (negb (String.eqb (strip l) "")); [|reflexivity].
    cbn [map]. now rewrite <- app_assoc.
Qed.

(** X14: [MonoDataset] makes one example of every line that is not empty
    after [strip], in the order of the file, and none of a blank line: the
    examples are numbered by the non-blank lines, not by the lines of the
    file; the dataset of a file with blank lines is that of the file
    without them, and the dataset of two files one after the other is the
    two datasets one after the other. *)
Theorem MonoDataset_skips_blank_lines
    (strip : string -> string) (field : string -> list string)
    (filter_pred : option (MonoExample -> bool)) :
  let blank l := String.eqb (strip l) "" in
  (forall src_file,
     MonoDataset strip src_file field None =
     map (fun l => mk_mono_example (field (strip l)))
         (filter (fun l => negb (blank l)) src_file)) /\
  (forall src_file,
     MonoDataset strip src_file field filter_pred =
     MonoDataset strip (filter (fun l => negb (blank l)) src_file) field
                 filter_pred) /\
  (forall file1 file2,
     MonoDataset strip (file1 ++ file2) field filter_pred =
     MonoDataset strip file1 field filter_pred ++
     MonoDataset strip file2 field filter_pred) /\
  (forall src_file,
     length (MonoDataset strip src_file field filter_pred)
     <= length src_file).
Proof.
  intros blank. unfold MonoDataset.
  assert (F : forall l : list string,
            filter (fun l => negb (blank l)) (filter (fun l => negb (blank l)) l)
            = filter (fun l => negb (blank l)) l).
  { induction l as [|x l IH]; [reflexivity|]. cbn [filter].
    destruct (negb (blank x)) eqn:E; [|exact IH].
    cbn [filter]. now rewrite E, IH. }
  split; [|split; [|split]].
  - intros src_file. now rewrite fold_mono_step.
  - intros src_file. rewrite !fold_mono_step. fold blank. now rewrite F.
  - intros file1 file2. rewrite !fold_mono_step. cbn [app].
    rewrite filter_app, map_app.
    destruct filter_pred; [apply filter_app|reflexivity].
  - intros src_file. rewrite fold_mono_step. cbn [app].
    set (ex := map _ _).
    assert (L : length ex <= length src_file).
    { unfold ex. rewrite length_map. apply filter_length_le. }
    destruct filter_pred; [|exact L].
    etransitivity; [apply filter_length_le|exact L].
Qed.

(** ** bpe_postprocess *)

Lemma str_append_assoc (a b c : string) :
  ((a ++ b) ++ c)%string = (a ++ (b ++ c))%string.
Proof. induction a as [|x a IH]; cbn; [reflexivity|now rewrite IH]. Qed.

Lemma str_append_nil_r (a : string) : (a ++ "")%string = a.
Proof. induction a as [|x a IH]; cbn; [reflexivity|now rewrite IH]. Qed.

Lemma bpe_marker_removed (s : string) :
  replace_loop "@@ " "" ("@@ " ++ s) 0 = replace_loop "@@ " "" s 0.
Proof. destruct s; reflexivity. Qed.

Lemma bpe_keeps_text_without_at (a s : string) :
  no_at a ->
  replace_loop "@@ " "" (a ++ s) 0 = (a ++ replace_loop "@@ " "" s 0)%string.
Proof.
  unfold no_at. induction a as [|c a IH]; intros H; [reflexivity|].
  cbn [list_ascii_of_string In] in H.
  assert (Hc : c <> "@"%char) by (intros ->; apply H; now left).
  cbn [String.append replace_loop].
  assert (P : String.prefix "@@ " (String c (a ++ s)) = false).
  { cbn [String.prefix]. destruct (ascii_dec "@" c) as [E|E];
      [congruence|reflexivity]. }
  rewrite P. f_equal. apply IH. tauto.
Qed.

(** X15: [bpe_postprocess] glues the fragments of a text back together:
    where fragments without [@] are each followed by the marker [@@] and a
    space, the markers disappear and the fragments are concatenated, the
    rest of the text being processed in the same way; a text without [@]
    is returned as it is.  It is not idempotent on every text: from four
    [@] and two spaces it makes the marker itself. *)
Theorem bpe_postprocess_joins_fragments :
  (forall (fragments : list string) (rest : string),
     Forall no_at fragments ->
     bpe_postprocess (bpe_join fragments rest) =
     (str_concat fragments ++ bpe_postprocess rest)%string) /\
  (forall s : string, no_at s -> bpe_postprocess s = s) /\
  bpe_postprocess "@@@@  " = "@@ "%string /\
  bpe_postprocess (bpe_postprocess "@@@@  ") <> bpe_postprocess "@@@@  ".
Proof.
  assert (G : forall s, bpe_postprocess s = replace_loop "@@ " "" s 0)
    by reflexivity.
  split; [|split; [|split]].
  - intros fragments rest H. rewrite !G.
    induction H as [|f fragments Hf _ IH]; [reflexivity|].
    cbn [bpe_join fold_right str_concat].
    rewrite (bpe_keeps_text_without_at f _ Hf), bpe_marker_removed.
    fold (bpe_join fragments rest). rewrite IH.
    now rewrite str_append_assoc.
  - intros s H. rewrite G.
    rewrite <- (str_append_nil_r s) at 1.
    rewrite (bpe_keeps_text_without_at s "" H). cbn [replace_loop].
    apply str_append_nil_r.
  - reflexivity.
  - vm_compute. discriminate.
Qed.

Lemma bpe_postprocess_joins_fragments_witness :
  bpe_postprocess "new@@ est low@@ er@@ ing" = "newest lowering"%string.
Proof.
  apply (proj1 bpe_postprocess_joins_fragments
               ["new"; "est low"; "er"]%string "ing"%string).
  repeat constructor; unfold no_at; cbn; intuition discriminate.
Defined.

(** ** get_latest_checkpoint *)

Lemma py_max_key_fold {A} (key : A -> Q) (t pre mid : list A) (x : A) :
  (forall g, In g pre -> (key g < key x)%Q) ->
  (forall g, In g mid -> (key g <= key x)%Q) ->
  exists pre' post',
    let f := fold_left
               (fun best y => if Qle_bool (key y) (key best) then best else y)
               t x in
    pre ++ x :: mid ++ t = pre' ++ f :: post' /\
    (forall g, In g pre' -> (key g < key f)%Q) /\
    (forall g, In g post' -> (key g <= key f)%Q).
Proof.
  revert pre mid x; induction t as [|y t IH]; intros pre mid x Hpre Hmid.
  - exists pre, mid. cbn. rewrite app_nil_r. auto.
  - cbn [fold_left]. destruct (Qle_bool (key y) (key x)) eqn:E.
    + apply Qle_bool_iff in E.
      destruct (IH pre (mid ++ [y]) x Hpre) as [pre' [post' [H1 H2]]].
      { intros g Hg. apply in_app_or in Hg. destruct Hg as [Hg|[<-|[]]]; auto. }
      exists pre', post'. cbv zeta in *. split; [|exact H2].
      rewrite <- H1, <- app_assoc. reflexivity.
    + assert (Hlt : (key x < key y)%Q).
      { apply Qnot_le_lt. intros H. apply Qle_bool_iff in H. congruence. }
      destruct (IH (pre ++ x :: mid) [] y) as [pre' [post' [H1 H2]]].
      { intros g Hg. apply in_app_or in Hg. destruct Hg as [Hg|[<-|Hg]].
        - eapply Qlt_trans; [apply Hpre|]; eauto.
        - exact Hlt.
        - eapply Qle_lt_trans; [apply Hmid|]; eauto. }
      { intros g []. }
      exists pre', post'. cbv zeta in *. split; [|exact H2].
      rewrite <- H1, <- app_assoc. reflexivity.
Qed.

(** X16: [get_latest_checkpoint] raises ValueError when the directory
    holds no file ending in [.ckpt], it does not return [None]; otherwise
    it returns one of the files found, created no earlier than any other of
    them, and among files of one creation time the one found first. *)
Theorem get_latest_checkpoint_returns_first_newest
    (glob : string -> list string) (getctime : string -> Q) (dir : string) :
  let list_of_files := glob (dir ++ "/*.ckpt")%string in
  (list_of_files = [] ->
   get_latest_checkpoint glob getctime dir = Raise ValueError) /\
  (list_of_files <> [] ->
   exists latest_file before after,
     get_latest_checkpoint glob getctime dir = Ok latest_file /\
     list_of_files = before ++ latest_file :: after /\
     (forall f, In f before -> (getctime f < getctime latest_file)%Q) /\
     (forall f, In f after -> (getctime f <= getctime latest_file)%Q)).
Proof.
  cbv zeta. unfold get_latest_checkpoint.
  destruct (glob (dir ++ "/*.ckpt")%string) as [|x t].
  - split; [reflexivity|congruence].
  - split; [discriminate|]. intros _.
    destruct (py_max_key_fold getctime t [] [] x) as [pre' [post' [H1 H2]]];
      try (intros g []).
    cbv zeta in *. cbn [py_max_key bind].
    eexists. exists pre', post'. split; [reflexivity|].
    split; [exact H1|exact H2].
Qed.

Lemma get_latest_checkpoint_returns_first_newest_witness :
  get_latest_checkpoint (fun _ => []) (fun _ => 0%Q) "models"
  = Raise ValueError.
Proof.
  apply (proj1 (get_latest_checkpoint_returns_first_newest
                  (fun _ => []) (fun _ => 0%Q) "models"%string)).
  reflexivity.
Defined.


(** ** WeightedTranslationDataset: lines whose weights do not parse *)

Lemma zip3_app {A B C} (a1 a2 : list A) (b1 b2 : list B) (c1 c2 : list C) :
  length a1 = length c1 -> length b1 = length c1 ->
  zip3 (a1 ++ a2) (b1 ++ b2) (c1 ++ c2) = zip3 a1 b1 c1 ++ zip3 a2 b2 c2.
Proof.
  revert b1 c1; induction a1 as [|x a1 IH]; intros [|y b1] [|z c1] Ha Hb;
    try discriminate; [reflexivity|].
  cbn. rewrite IH; [reflexivity| |]; cbn in *; lia.
Qed.

Lemma for_each_app {S X : Type} (body : S -> X -> result S)
    (l1 l2 : list X) (s : S) :
  for_each body (l1 ++ l2) s = (s' <- for_each body l1 s ;; for_each body l2 s').
Proof.
  revert s; induction l1 as [|x l1 IH]; intros s; [reflexivity|].
  cbn [app for_each]. destruct (body s x); cbn [bind]; [apply IH|reflexivity].
Qed.

Lemma line_weights_raises (W : Type) (strip : string -> string)
    (split_space : string -> list string) (float : string -> option W)
    (np_exp : W -> W) (log_weights : bool) (weights_line : string) :
  (exists weight, In weight (split_space (strip weights_line)) /\
                  float weight = None) ->
  line_weights strip split_space float np_exp log_weights weights_line
  = Raise ValueError.
Proof.
  unfold line_weights. generalize (split_space (strip weights_line)) as l.
  induction l as [|x l IH]; intros [weight [Hin Hf]]; [destruct Hin|].
  cbn [map_result]. destruct (float x) as [w|] eqn:E; [|reflexivity].
  cbn [bind]. destruct Hin as [->|Hin]; [congruence|].
  rewrite IH by eauto. reflexivity.
Qed.

(** X17: a weight line holding a piece that [float] does not read makes
    [WeightedTranslationDataset] raise ValueError when the lines before it
    parse: the weights are read before the test for blank lines, so this
    happens even where the source or target line is blank and the triple
    would have been skipped, and no dataset is returned at all. *)
Theorem WeightedTranslationDataset_raises_on_unreadable_weight
    (W : Type) (strip : string -> string)
    (split_space : string -> list string) (float : string -> option W)
    (np_exp : W -> W) (fields : Fields W) (log_weights : bool)
    (filter_pred : option (Example W -> bool))
    (src1 trg1 weights1 : list string) (src_line trg_line weights_line : string)
    (src2 trg2 weights2 : list string) :
  length src1 = length weights1 -> length trg1 = length weights1 ->
  Forall (fun line =>
            exists ws,
              line_weights strip split_space float np_exp log_weights line
              = Ok ws) weights1 ->
  (exists weight, In weight (split_space (strip weights_line)) /\
                  float weight = None) ->
  WeightedTranslationDataset strip split_space float np_exp
    (src1 ++ src_line :: src2) (trg1 ++ trg_line :: trg2)
    (weights1 ++ weights_line :: weights2) fields log_weights filter_pred
  = Raise ValueError.
Proof.
  intros Hs Ht Hok Hbad. unfold WeightedTranslationDataset.
  rewrite zip3_app by assumption. rewrite for_each_app.
  rewrite for_each_weighted_step.
  - cbn [bind zip3 for_each]. unfold weighted_step at 1.
    rewrite (line_weights_raises W strip split_space float np_exp
               log_weights weights_line Hbad).
    reflexivity.
  - apply (Forall_zip3_weights
             (fun line => exists ws,
                line_weights strip split_space float np_exp log_weights line
                = Ok ws)).
    exact Hok.
Qed.

Lemma WeightedTranslationDataset_raises_on_unreadable_weight_witness :
  let fields : Fields Q :=
    mk_fields (fun s => split_on_space s EmptyString)
              (fun s => split_on_space s EmptyString) (fun ws => ws) in
  WeightedTranslationDataset ascii_strip
    (fun s => split_on_space s EmptyString) float_of_numeral (fun w => w)
    ["a b"; ""; "c"]%string ["x y"; "z"; "u"]%string
    ["1 2"; ""; "3"]%string fields false None
  = Raise ValueError.
Proof.
  intros fields.
  apply (WeightedTranslationDataset_raises_on_unreadable_weight
           Q ascii_strip (fun s => split_on_space s EmptyString)
           float_of_numeral (fun w => w) fields false None
           ["a b"]%string ["x y"]%string ["1 2"]%string
           ""%string "z"%string ""%string
           ["c"]%string ["u"]%string ["3"]%string).
  - reflexivity.
  - reflexivity.
  - repeat constructor. eexists. vm_compute. reflexivity.
  - exists ""%string. split; [now left|reflexivity].
Defined.

(** ** build_vocab: what the vocabulary holds *)

Lemma filtered_counter_spec_any (min_freq : Z) (tokens : list string) :
  NoDup (map fst (filtered_counter min_freq tokens)) /\
  forall t n,
    In (t, n) (filtered_counter min_freq tokens) <->
    In t tokens /\ n = Z.of_nat (count_occ string_dec tokens t) /\
    (min_freq <= n)%Z.
Proof.
  destruct (Z.ltb_spec (-1) min_freq) as [H|H].
  - now apply filtered_counter_spec.
  - unfold filtered_counter. destruct (Z.ltb_spec (-1) min_freq); [lia|].
    destruct (Counter_spec tokens) as [Hnd Hin]. split; [exact Hnd|].
    intros t n. rewrite Hin. split; [|tauto].
    intros [H1 H2]. repeat split; auto. lia.
Qed.

Lemma filtered_counter_min_freq_le_1 (min_freq : Z) (tokens : list string) :
  (min_freq <= 1)%Z -> filtered_counter min_freq tokens = Counter tokens.
Proof.
  intros H. unfold filtered_counter, filter_min.
  destruct (-1 <? min_freq)%Z; [|reflexivity].
  destruct (Counter_spec tokens) as [_ Hin].
  assert (G : forall l : counter,
            (forall x, In x l -> (1 <= snd x)%Z) ->
            filter (fun tc => (min_freq <=? snd tc)%Z) l = l).
  { induction l as [|x l IH]; intros Hl; [reflexivity|]. cbn [filter].
    destruct (Z.leb_spec min_freq (snd x)).
    - f_equal. apply IH. intros y Hy. apply Hl. now right.
    - specialize (Hl x (or_introl eq_refl)). lia. }
  apply G. intros [t n] Hx. apply Hin in Hx. destruct Hx as [Ht ->].
  apply (count_occ_In string_dec) in Ht. cbn [snd]. lia.
Qed.

Lemma StronglySorted_app_inv {A} (R : A -> A -> Prop) (l1 l2 : list A) :
  StronglySorted R (l1 ++ l2) ->
  forall a b, In a l1 -> In b l2 -> R a b.
Proof.
  induction l1 as [|x l1 IH]; intros H a b Ha Hb; [destruct Ha|].
  cbn [app] in H. apply StronglySorted_inv in H. destruct H as [H1 H2].
  destruct Ha as [->|Ha].
  - rewrite Forall_forall in H2. apply H2. apply in_or_app. now right.
  - now apply IH.
Qed.

Lemma StronglySorted_app_l {A} (R : A -> A -> Prop) (l1 l2 : list A) :
  StronglySorted R (l1 ++ l2) -> StronglySorted R l1.
Proof.
  induction l1 as [|x l1 IH]; intros H; [constructor|].
  cbn in H. apply StronglySorted_inv in H. destruct H as [H1 H2].
  constructor; [now apply IH|].
  apply Forall_app in H2. tauto.
Qed.

(** A sorted counter whose entries carry the count of their key is sorted
    as a list of keys, each compared with its count. *)
Lemma StronglySorted_keys (count : string -> Z) (l : list (string * Z)) :
  (forall t n, In (t, n) l -> n = count t) ->
  StronglySorted vocab_before l ->
  StronglySorted (fun t u => vocab_before (t, count t) (u, count u))
                 (map fst l).
Proof.
  intros Hc H. induction H as [|[t n] l Hs IH Hall]; [constructor|].
  cbn [map fst]. constructor.
  - apply IH. intros t' n' Hin. apply Hc. now right.
  - apply Forall_forall. intros u Hu.
    apply in_map_iff in Hu. destruct Hu as [[u' m] [E Hu]]. cbn in E. subst u'.
    rewrite Forall_forall in Hall. specialize (Hall _ Hu).
    rewrite <- (Hc t n) by now left.
    rewrite <- (Hc u m) by now right.
    exact Hall.
Qed.

Lemma NoDup_pairs_of_keys {A B} (l : list (A * B)) :
  NoDup (map fst l) -> NoDup l.
Proof.
  induction l as [|x l IH]; intros H; [constructor|].
  cbn [map] in H. inversion H as [|? ? Hx Hl]; subst. constructor.
  - intros Hin. apply Hx. now apply in_map.
  - now apply IH.
Qed.

Lemma sorted_counter_of_permutation (min_freq : Z) (tokens1 tokens2 : list string) :
  Permutation tokens1 tokens2 ->
  stable_sort by_frequency (stable_sort by_token
                              (filtered_counter min_freq tokens1)) =
  stable_sort by_frequency (stable_sort by_token
                              (filtered_counter min_freq tokens2)).
Proof.
  intros HP.
  destruct (filtered_counter_spec_any min_freq tokens1) as [N1 S1].
  destruct (filtered_counter_spec_any min_freq tokens2) as [N2 S2].
  apply vocab_order_unique; try apply sort_by_token_then_frequency.
  assert (P : Permutation (filtered_counter min_freq tokens1)
                          (filtered_counter min_freq tokens2)).
  { apply NoDup_Permutation; try now apply NoDup_pairs_of_keys.
    intros [t n]. rewrite S1, S2.
    rewrite (Permutation_count_occ string_dec tokens1 tokens2) in HP.
    rewrite (HP t). split; intros [H1 H2]; split; auto.
    - eapply Permutation_in; [|exact H1].
      now apply (Permutation_count_occ string_dec).
    - eapply Permutation_in; [|exact H1]. apply Permutation_sym.
      now apply (Permutation_count_occ string_dec). }
  rewrite !stable_sort_perm. exact P.
Qed.

Section BuildVocabMore.
Variables UNK_TOKEN PAD_TOKEN BOS_TOKEN EOS_TOKEN : string.
Variable Vocabulary : Type.
Variable Vocabulary_tokens : list string -> Vocabulary.
Variable Vocabulary_file : string -> result Vocabulary.
Variable W : Type.

Local Abbreviation build' :=
  (@build_vocab UNK_TOKEN PAD_TOKEN BOS_TOKEN EOS_TOKEN Vocabulary
                Vocabulary_tokens Vocabulary_file W).

(** Below zero the slice [[:max_size]] still leaves a list, and the four
    special tokens alone are more than [max_size + 4]. *)
Lemma build_vocab_negative (field : string) (max_size min_freq : Z)
    (data : Dataset W) :
  (max_size < 0)%Z ->
  build' field max_size min_freq data None = Raise AssertionError.
Proof.
  intros H. unfold build_vocab, specials, DEFAULT_UNK_ID.
  cbn [app nth_error]. rewrite String.eqb_refl. cbn [assert bind].
  match goal with
  | |- context [assert ?b] => replace b with false; [reflexivity|]
  end.
  symmetry. apply Z.leb_gt. cbn [length]. lia.
Qed.

End BuildVocabMore.

(** X18: without a vocabulary file [build_vocab] returns a vocabulary
    exactly when [max_size] is not negative; every negative [max_size], not
    only -1, fails the assertion on the length of the token list. *)
Theorem build_vocab_returns_iff_max_size_is_not_negative
    (UNK_TOKEN PAD_TOKEN BOS_TOKEN EOS_TOKEN : string) (Vocabulary : Type)
    (Vocabulary_tokens : list string -> Vocabulary)
    (Vocabulary_file : string -> result Vocabulary) (W : Type)
    (field : string) (max_size min_freq : Z) (data : Dataset W) :
  ((max_size < 0)%Z ->
   @build_vocab UNK_TOKEN PAD_TOKEN BOS_TOKEN EOS_TOKEN Vocabulary
                Vocabulary_tokens Vocabulary_file W
                field max_size min_freq data None = Raise AssertionError) /\
  ((exists vocab,
      @build_vocab UNK_TOKEN PAD_TOKEN BOS_TOKEN EOS_TOKEN Vocabulary
                   Vocabulary_tokens Vocabulary_file W
                   field max_size min_freq data None = Ok vocab)
   <-> (0 <= max_size)%Z).
Proof.
  split; [apply build_vocab_negative|]. split.
  - intros [vocab E]. destruct (Z.lt_ge_cases max_size 0) as [H|H]; [|exact H].
    rewrite build_vocab_negative in E by exact H. discriminate.
  - intros H. eexists. now apply build_vocab_ok.
Qed.

Lemma build_vocab_returns_iff_max_size_is_not_negative_witness :
  @build_vocab "<unk>" "<pad>" "<s>" "</s>" (list string) (fun l => l)
               (fun _ => Raise RuntimeError) Q "src" (-3) 1
               (mk_dataset [mk_example ["a"; "b"; "c"; "d"]%string [] None])
               None
  = Raise AssertionError.
Proof.
  apply (proj1 (build_vocab_returns_iff_max_size_is_not_negative
                  "<unk>" "<pad>" "<s>" "</s>" (list string) (fun l => l)
                  (fun _ => Raise RuntimeError) Q "src" (-3) 1
                  (mk_dataset [mk_example ["a"; "b"; "c"; "d"]%string [] None]))).
  reflexivity.
Defined.

(** X19: the vocabulary of [build_vocab] is the four special tokens
    followed by a list [T] of distinct tokens of the data, at most
    [max_size] of them, each occurring at least [min_freq] times, in the
    order of falling frequency and, within one frequency, of the strings.
    Every token that occurs at least [min_freq] times is in [T], unless
    [T] holds [max_size] tokens already; a token left out then is not more
    frequent than any token of [T], nor alphabetically before one of its
    own frequency.  So [T] is the list of the [max_size] first tokens in
    that order, or of all of them when they are fewer. *)
Theorem build_vocab_keeps_the_most_frequent_tokens
    (UNK_TOKEN PAD_TOKEN BOS_TOKEN EOS_TOKEN : string) (Vocabulary : Type)
    (Vocabulary_tokens : list string -> Vocabulary)
    (Vocabulary_file : string -> result Vocabulary) (W : Type)
    (field : string) (max_size min_freq : Z) (data : Dataset W) :
  (0 <= max_size)%Z ->
  let tokens := field_tokens field data in
  let count t := Z.of_nat (count_occ string_dec tokens t) in
  exists T : list string,
    @build_vocab UNK_TOKEN PAD_TOKEN BOS_TOKEN EOS_TOKEN Vocabulary
                 Vocabulary_tokens Vocabulary_file W
                 field max_size min_freq data None =
    Ok (Vocabulary_tokens ([UNK_TOKEN; PAD_TOKEN; BOS_TOKEN; EOS_TOKEN] ++ T)) /\
    NoDup T /\
    (Z.of_nat (length T) <= max_size)%Z /\
    (forall t, In t T -> In t tokens /\ (min_freq <= count t)%Z) /\
    StronglySorted (fun t u => vocab_before (t, count t) (u, count u)) T /\
    (forall u, In u tokens -> (min_freq <= count u)%Z ->
               In u T \/
               (length T = Z.to_nat max_size /\
                forall t, In t T ->
                          (count u <= count t)%Z /\
                          (count u = count t -> String.leb t u = true))).
Proof.
  intros Hmax tokens count.
  rewrite build_vocab_ok by assumption. fold tokens.
  set (L := stable_sort by_frequency
              (stable_sort by_token (filtered_counter min_freq tokens))).
  destruct (filtered_counter_spec_any min_freq tokens) as [Hnd Hin].
  assert (HP : Permutation L (filtered_counter min_freq tokens)).
  { unfold L. now rewrite !stable_sort_perm. }
  assert (HL : forall t n, In (t, n) L <->
                 In t tokens /\ n = count t /\ (min_freq <= n)%Z).
  { intros t n. unfold count. rewrite <- (Hin t n).
    split; apply Permutation_in; [exact HP|now apply Permutation_sym]. }
  assert (HndL : NoDup (map fst L)).
  { eapply Permutation_NoDup; [|exact Hnd].
    apply Permutation_map, Permutation_sym, HP. }
  assert (Hsort : StronglySorted vocab_before L)
    by apply sort_by_token_then_frequency.
  set (k := Z.to_nat max_size).
  exists (firstn k (map fst L)). split; [reflexivity|].
  assert (Hpre : forall x, In x (firstn k L) -> In x L).
  { intros x Hx. rewrite <- (firstn_skipn k L). apply in_or_app. now left. }
  rewrite <- (firstn_skipn k L) in HndL, Hsort.
  rewrite map_app in HndL.
  assert (Efst : firstn k (map fst L) = map fst (firstn k L))
    by apply firstn_map.
  rewrite Efst.
  assert (Hmem : forall t, In t (map fst (firstn k L)) ->
                   In (t, count t) (firstn k L)).
  { intros t Ht. apply in_map_iff in Ht. destruct Ht as [[t' n] [E Ht]].
    cbn in E. subst t'.
    assert (Hn : In (t, n) L) by now apply Hpre.
    apply HL in Hn. destruct Hn as [_ [-> _]]. exact Ht. }
  split; [now apply NoDup_app_remove_r in HndL|].
  split; [rewrite length_map, length_firstn; lia|]. split; [|split].
  - intros t Ht. apply Hmem in Ht.
    assert (Hn : In (t, count t) L) by now apply Hpre.
    apply HL in Hn. tauto.
  - apply StronglySorted_keys.
    + intros t n Ht. apply Hpre in Ht. apply HL in Ht. tauto.
    + exact (StronglySorted_app_l vocab_before _ _ Hsort).
  - intros u Hutok Hucount.
    assert (HuL : In (u, count u) L) by (apply HL; auto).
    rewrite <- (firstn_skipn k L) in HuL. apply in_app_or in HuL.
    destruct HuL as [HuL|HuL].
    { left. apply in_map_iff. exists (u, count u). auto. }
    right. split.
    + rewrite length_map, length_firstn.
      assert (k < length L); [|lia].
      destruct (Nat.lt_ge_cases k (length L)) as [Hk|Hk]; [exact Hk|].
      rewrite skipn_all2 in HuL by exact Hk. destruct HuL.
    + intros t Ht. apply Hmem in Ht.
      pose proof (StronglySorted_app_inv vocab_before _ _ Hsort _ _ Ht HuL)
        as Hb.
      unfold vocab_before in Hb. cbn [fst snd] in Hb.
      destruct Hb as [Hb|[Hb1 Hb2]]; split; try lia; auto.
Qed.

Lemma build_vocab_keeps_the_most_frequent_tokens_witness :
  let data : Dataset Q :=
    mk_dataset [mk_example ["b"; "a"; "c"; "b"; "a"; "c"; "d"]%string [] None] in
  let tokens := field_tokens "src" data in
  let count t := Z.of_nat (count_occ string_dec tokens t) in
  exists T : list string,
    @build_vocab "<unk>" "<pad>" "<s>" "</s>" (list string) (fun l => l)
                 (fun _ => Raise RuntimeError) Q "src" 2 1 data None =
    Ok (["<unk>"; "<pad>"; "<s>"; "</s>"]%string ++ T) /\
    NoDup T /\
    (Z.of_nat (length T) <= 2)%Z /\
    (forall t, In t T -> In t tokens /\ (1 <= count t)%Z) /\
    StronglySorted (fun t u => vocab_before (t, count t) (u, count u)) T /\
    (forall u, In u tokens -> (1 <= count u)%Z ->
               In u T \/
               (length T = Z.to_nat 2 /\
                forall t, In t T ->
                          (count u <= count t)%Z /\
                          (count u = count t -> String.leb t u = true))).
Proof.
  intros data.
  apply (build_vocab_keeps_the_most_frequent_tokens
           "<unk>" "<pad>" "<s>" "</s>" (list string) (fun l => l)
           (fun _ => Raise RuntimeError) Q "src" 2 1 data).
  lia.
Defined.

(** X20: the vocabulary depends on the tokens of the data only through
    how often each occurs: two datasets whose token lists for the field are
    rearrangements of each other give the same result, ties in frequency
    being broken by the order of strings and not by the order of
    appearance. *)
Theorem build_vocab_ignores_the_order_of_tokens
    (UNK_TOKEN PAD_TOKEN BOS_TOKEN EOS_TOKEN : string) (Vocabulary : Type)
    (Vocabulary_tokens : list string -> Vocabulary)
    (Vocabulary_file : string -> result Vocabulary) (W : Type)
    (field : string) (max_size min_freq : Z) (data1 data2 : Dataset W) :
  Permutation (field_tokens field data1) (field_tokens field data2) ->
  @build_vocab UNK_TOKEN PAD_TOKEN BOS_TOKEN EOS_TOKEN Vocabulary
               Vocabulary_tokens Vocabulary_file W
               field max_size min_freq data1 None =
  @build_vocab UNK_TOKEN PAD_TOKEN BOS_TOKEN EOS_TOKEN Vocabulary
               Vocabulary_tokens Vocabulary_file W
               field max_size min_freq data2 None.
Proof.
  intros HP. destruct (Z.lt_ge_cases max_size 0) as [H|H].
  - now rewrite !build_vocab_negative.
  - rewrite !build_vocab_ok by assumption.
    now rewrite (sorted_counter_of_permutation min_freq _ _ HP).
Qed.

Lemma build_vocab_ignores_the_order_of_tokens_witness :
  @build_vocab "<unk>" "<pad>" "<s>" "</s>" (list string) (fun l => l)
               (fun _ => Raise RuntimeError) Q "src" 5 1
               (mk_dataset [mk_example ["b"; "a"]%string [] None;
                            mk_example ["c"]%string [] None]) None =
  @build_vocab "<unk>" "<pad>" "<s>" "</s>" (list string) (fun l => l)
               (fun _ => Raise RuntimeError) Q "src" 5 1
               (mk_dataset [mk_example ["c"; "b"]%string [] None;
                            mk_example ["a"]%string [] None]) None.
Proof.
  apply (build_vocab_ignores_the_order_of_tokens
           "<unk>" "<pad>" "<s>" "</s>" (list string) (fun l => l)
           (fun _ => Raise RuntimeError) Q "src" 5 1
           (mk_dataset [mk_example ["b"; "a"]%string [] None;
                        mk_example ["c"]%string [] None])
           (mk_dataset [mk_example ["c"; "b"]%string [] None;
                        mk_example ["a"]%string [] None])).
  change (Permutation ["b"; "a"; "c"]%string ["c"; "b"; "a"]%string).
  apply (perm_trans (l' := ["b"; "c"; "a"]%string)).
  - apply perm_skip, perm_swap.
  - apply perm_swap.
Defined.

(** X21: a token counted by [Counter] occurs at least once, so every
    [min_freq] up to 1 filters nothing: [build_vocab] gives for it what it
    gives for [min_freq = 1], and the test [min_freq > -1] guarding the
    filter changes no result. *)
Theorem build_vocab_min_freq_up_to_one_keeps_every_token
    (UNK_TOKEN PAD_TOKEN BOS_TOKEN EOS_TOKEN : string) (Vocabulary : Type)
    (Vocabulary_tokens : list string -> Vocabulary)
    (Vocabulary_file : string -> result Vocabulary) (W : Type)
    (field : string) (max_size min_freq : Z) (data : Dataset W) :
  (min_freq <= 1)%Z ->
  @build_vocab UNK_TOKEN PAD_TOKEN BOS_TOKEN EOS_TOKEN Vocabulary
               Vocabulary_tokens Vocabulary_file W
               field max_size min_freq data None =
  @build_vocab UNK_TOKEN PAD_TOKEN BOS_TOKEN EOS_TOKEN Vocabulary
               Vocabulary_tokens Vocabulary_file W
               field max_size 1 data None.
Proof.
  intros H. unfold build_vocab.
  rewrite (filtered_counter_min_freq_le_1 min_freq) by assumption.
  rewrite (filtered_counter_min_freq_le_1 1) by lia. reflexivity.
Qed.

Lemma build_vocab_min_freq_up_to_one_keeps_every_token_witness :
  @build_vocab "<unk>" "<pad>" "<s>" "</s>" (list string) (fun l => l)
               (fun _ => Raise RuntimeError) Q "trg" 5 (-1)
               (mk_dataset [mk_example [] ["b"; "a"; "b"]%string None]) None =
  @build_vocab "<unk>" "<pad>" "<s>" "</s>" (list string) (fun l => l)
               (fun _ => Raise RuntimeError) Q "trg" 5 1
               (mk_dataset [mk_example [] ["b"; "a"; "b"]%string None]) None.
Proof.
  apply (build_vocab_min_freq_up_to_one_keeps_every_token
           "<unk>" "<pad>" "<s>" "</s>" (list string) (fun l => l)
           (fun _ => Raise RuntimeError) Q "trg" 5 (-1)
           (mk_dataset [mk_example [] ["b"; "a"; "b"]%string None])).
  lia.
Defined.


(** ** tile: equal tensors, and how tilings compose *)

Lemma offset_unravel (sz : list nat) (f : nat) :
  f < prod_list sz ->
  valid_index sz (unravel sz f) /\ offset (strides sz) (unravel sz f) = f.
Proof.
  revert f; induction sz as [|b sz IH]; intros f Hf.
  - cbn in *. split; [constructor|lia].
  - cbn [prod_list fold_right] in Hf. fold (prod_list sz) in Hf.
    assert (HP : prod_list sz <> 0) by (intros E; rewrite E in Hf; lia).
    cbn [unravel strides offset].
    destruct (IH (f mod prod_list sz)) as [V O];
      [now apply Nat.mod_upper_bound|].
    split.
    + constructor; [|exact V].
      apply Nat.Div0.div_lt_upper_bound. lia.
    + rewrite O. pose proof (Nat.div_mod_eq f (prod_list sz)). lia.
Qed.

Lemma set_nth_same (l : list nat) (d : nat) : set_nth d (nth d l 0) l = l.
Proof.
  unfold set_nth. revert d; induction l as [|x l IH]; intros [|d];
    cbn; try reflexivity.
  now rewrite IH.
Qed.

Lemma set_nth_twice {A} (l : list A) (d : nat) (v w : A) :
  set_nth d v (set_nth d w l) = set_nth d v l.
Proof. unfold set_nth. now rewrite update_nth_compose. Qed.

Lemma valid_index_set_nth (sz idx : list nat) (d v w : nat) :
  d < length sz -> v < w ->
  (forall k, k <> d -> k < length sz -> nth k idx 0 < nth k sz 0) ->
  length idx = length sz ->
  valid_index (set_nth d w sz) (set_nth d v idx).
Proof.
  intros Hd Hv Hk Hl. apply valid_index_nth. split.
  - now rewrite !length_set_nth.
  - rewrite length_set_nth. intros k Hlt.
    rewrite !nth_set_nth by lia.
    destruct (Nat.eqb_spec k d); [exact Hv|now apply Hk].
Qed.

Section TileCompose.
Context {A : Type}.
Implicit Types (t x y : Tensor A).

(** Two tensors of one size hold the same elements when they agree at
    every multi-index. *)
Lemma tensor_ext t1 t2 :
  wf_tensor t1 -> wf_tensor t2 -> size t1 = size t2 ->
  (forall idx, valid_index (size t1) idx ->
               tensor_get t1 idx = tensor_get t2 idx) ->
  data t1 = data t2.
Proof.
  destruct t1 as [s1 st1 d1], t2 as [s2 st2 d2]. unfold wf_tensor, tensor_get.
  cbn [size data]. intros W1 W2 <- H.
  apply nth_error_ext. intros f.
  destruct (Nat.lt_ge_cases f (prod_list s1)) as [Hf|Hf].
  - destruct (offset_unravel s1 f Hf) as [V O].
    specialize (H _ V). now rewrite O in H.
  - transitivity (@None A); [|symmetry]; apply nth_error_None; lia.
Qed.

Lemma tile_axis0_empty x (count : nat) (rest : list nat) :
  size x = 0 :: rest -> tile_axis0 x count = Raise RuntimeError.
Proof. intros E. unfold tile_axis0. rewrite E. reflexivity. Qed.

Lemma tile_tensor_off_axis x (count : nat) (dim : Z) :
  (dim < - Z.of_nat (length (size x)) \/ Z.of_nat (length (size x)) <= dim)%Z ->
  tile_tensor x count dim = Raise IndexError.
Proof.
  intros H. rewrite tile_tensor_unfold.
  destruct (Z.eqb_spec dim 0) as [->|Hdim].
  - cbn [bind snd]. unfold tile_axis0.
    destruct (size x); [reflexivity|cbn in H; lia].
  - rewrite length_seq.
    assert (E : py_index (length (size x)) dim = Raise IndexError).
    { unfold py_index.
      destruct (Z.leb_spec 0 dim),
               (Z.ltb_spec dim (Z.of_nat (length (size x)))),
               (Z.ltb_spec dim 0),
               (Z.leb_spec (- Z.of_nat (length (size x))) dim);
        cbn [andb]; try lia; reflexivity. }
    rewrite E. reflexivity.
Qed.

Lemma tile_tensor_empty_axis x (count : nat) (dim : Z) (d : nat) :
  wf_tensor x -> py_index (length (size x)) dim = Ok d ->
  nth d (size x) 0 = 0 ->
  tile_tensor x count dim = Raise RuntimeError.
Proof.
  intros Hwf Hpy Hb. pose proof (py_index_lt _ _ _ Hpy) as Hd.
  rewrite tile_tensor_unfold.
  destruct (Z.eqb_spec dim 0) as [->|Hdim].
  - assert (d = 0) as -> by (unfold py_index in Hpy; simpl in Hpy;
      destruct (0 <? Z.of_nat (length (size x)))%Z; simpl in Hpy; congruence).
    cbn [bind snd].
    destruct (size x) as [|b' rest] eqn:Hs; [simpl in Hd; lia|].
    simpl in Hb. subst b'.
    now rewrite (tile_axis0_empty x count rest Hs).
  - rewrite length_seq, Hpy. cbn [bind fst snd].
    destruct (permute_swap x d Hwf Hd) as [S1 _]. cbv zeta in S1.
    rewrite (swap_items_head (size x) d Hd), Hb in S1.
    rewrite <- size_contiguous in S1.
    now rewrite (tile_axis0_empty _ count _ S1).
Qed.

Lemma tile_tensor_once x (dim : Z) (d : nat) :
  wf_tensor x -> (dim = 0%Z -> contiguous_tensor x) ->
  py_index (length (size x)) dim = Ok d ->
  0 < nth d (size x) 0 ->
  exists out,
    tile_tensor x 1 dim = Ok out /\
    size out = size x /\ data out = data x /\ contiguous_tensor out.
Proof.
  intros Hwf Hcx Hpy Hpos.
  destruct (tile_tensor_spec x 1 dim d _ Hwf Hcx Hpy eq_refl Hpos)
    as [out [E [So [Wo [Co Go]]]]].
  exists out. split; [exact E|].
  rewrite Nat.mul_1_r, set_nth_same in So.
  split; [exact So|]. split; [|exact Co].
  apply tensor_ext; auto.
  intros idx Hv. rewrite So in Hv.
  specialize (Go idx 0 Hv ltac:(lia)).
  rewrite Nat.mul_1_r, Nat.add_0_r in Go.
  assert (E' : set_nth d (nth d idx 0) idx = idx) by apply set_nth_same.
  now rewrite E' in Go.
Qed.

Lemma tile_tensor_twice x (a b : nat) (dim : Z) (d : nat) :
  wf_tensor x -> (dim = 0%Z -> contiguous_tensor x) ->
  py_index (length (size x)) dim = Ok d ->
  0 < nth d (size x) 0 -> 0 < a ->
  exists y out1 out2,
    tile_tensor x a dim = Ok y /\
    tile_tensor y b dim = Ok out1 /\
    tile_tensor x (a * b) dim = Ok out2 /\
    size out1 = size out2 /\ data out1 = data out2.
Proof.
  intros Hwf Hcx Hpy Hn Ha. pose proof (py_index_lt _ _ _ Hpy) as Hd.
  set (n := nth d (size x) 0) in *.
  destruct (tile_tensor_spec x a dim d n Hwf Hcx Hpy eq_refl Hn)
    as [y [Ey [Sy [Wy [Cy Gy]]]]].
  assert (Ly : length (size y) = length (size x))
    by (rewrite Sy; apply length_set_nth).
  assert (Hpy' : py_index (length (size y)) dim = Ok d) by now rewrite Ly.
  assert (Hny : nth d (size y) 0 = n * a).
  { rewrite Sy, nth_set_nth by exact Hd. now rewrite Nat.eqb_refl. }
  destruct (tile_tensor_spec y b dim d (n * a) Wy (fun _ => Cy) Hpy' Hny
              ltac:(nia))
    as [out1 [E1 [S1 [W1 [_ G1]]]]].
  destruct (tile_tensor_spec x (a * b) dim d n Hwf Hcx Hpy eq_refl Hn)
    as [out2 [E2 [S2 [W2 [_ G2]]]]].
  rewrite Sy, set_nth_twice in S1.
  rewrite Nat.mul_assoc in S2.
  exists y, out1, out2. split; [exact Ey|]. split; [exact E1|].
  split; [exact E2|]. split; [congruence|].
  apply tensor_ext; auto; [congruence|].
  intros idx Hv. rewrite S1 in Hv.
  apply valid_index_nth in Hv. rewrite length_set_nth in Hv.
  destruct Hv as [Lidx Hlt].
  set (q := nth d idx 0).
  assert (Hq : q < n * a * b).
  { specialize (Hlt d Hd). rewrite nth_set_nth in Hlt by exact Hd.
    now rewrite Nat.eqb_refl in Hlt. }
  assert (Hb : 0 < b) by nia.
  assert (Hother : forall k, k <> d -> k < length (size x) ->
                             nth k idx 0 < nth k (size x) 0).
  { intros k Hk Hkl. specialize (Hlt k Hkl).
    rewrite nth_set_nth in Hlt by exact Hd.
    destruct (Nat.eqb_spec k d); [contradiction|exact Hlt]. }
  set (i := q / (a * b)). set (r := q mod (a * b)).
  set (j1 := r / b). set (j2 := r mod b).
  assert (Dq : q = a * b * i + r) by apply Nat.div_mod_eq.
  assert (Dr : r = b * j1 + j2) by apply Nat.div_mod_eq.
  assert (Hr : r < a * b) by (apply Nat.mod_upper_bound; nia).
  assert (Hj2 : j2 < b) by (apply Nat.mod_upper_bound; lia).
  assert (Hj1 : j1 < a) by (apply Nat.Div0.div_lt_upper_bound; nia).
  assert (Hi : i < n) by (apply Nat.Div0.div_lt_upper_bound; nia).
  assert (Hdi : d < length idx) by lia.
  (* the multi-index of [x] and that of [y] this position comes from *)
  set (idx0 := set_nth d i idx).
  set (idx1 := set_nth d (i * a + j1) idx).
  assert (V0 : valid_index (size x) idx0).
  { rewrite <- (set_nth_same (size x) d). fold n.
    apply valid_index_set_nth; auto. }
  assert (V1 : valid_index (size y) idx1).
  { rewrite Sy. apply valid_index_set_nth; auto. nia. }
  assert (N0 : nth d idx0 0 = i).
  { unfold idx0. rewrite nth_set_nth by exact Hdi. now rewrite Nat.eqb_refl. }
  assert (N1 : nth d idx1 0 = i * a + j1).
  { unfold idx1. rewrite nth_set_nth by exact Hdi. now rewrite Nat.eqb_refl. }
  assert (Eidx : set_nth d q idx = idx) by apply set_nth_same.
  pose proof (G1 idx1 j2 V1 Hj2) as P1.
  rewrite N1 in P1. unfold idx1 in P1 at 1. rewrite set_nth_twice in P1.
  replace ((i * a + j1) * b + j2) with q in P1 by nia.
  rewrite Eidx in P1.
  pose proof (Gy idx0 j1 V0 Hj1) as Py.
  rewrite N0 in Py. unfold idx0 in Py at 1. rewrite set_nth_twice in Py.
  fold idx1 in Py.
  pose proof (G2 idx0 r V0 Hr) as P2.
  rewrite N0 in P2. unfold idx0 in P2 at 1. rewrite set_nth_twice in P2.
  replace (i * (a * b) + r) with q in P2 by nia.
  rewrite Eidx in P2.
  congruence.
Qed.

End TileCompose.

(** X22: [tile] with [count = 1] changes neither the size nor the elements
    of a tensor with at least one row on the axis that [dim] names,
    whichever axis that is; for [dim = 0] the tensor has to be contiguous,
    as it goes to [view] as it is.  The result is contiguous. *)
Theorem tile_once_is_the_identity
    (A : Type) (x : Tensor A) (dim : Z) (d : nat) :
  wf_tensor x -> (dim = 0%Z -> contiguous_tensor x) ->
  py_index (length (size x)) dim = Ok d ->
  0 < nth d (size x) 0 ->
  exists out,
    tile (Single x) 1 dim = Ok (Single out) /\
    size out = size x /\ data out = data x /\ contiguous_tensor out.
Proof.
  intros Hwf Hcx Hpy Hpos.
  destruct (tile_tensor_once x dim d Hwf Hcx Hpy Hpos) as [out [E H]].
  exists out. split; [|exact H]. cbn [tile]. now rewrite E.
Qed.

Lemma tile_once_is_the_identity_witness :
  let x : Tensor Z := mk_tensor [2; 3] [3; 1] [1; 2; 3; 4; 5; 6]%Z in
  (exists out,
     tile (Single x) 1 0 = Ok (Single out) /\
     size out = size x /\ data out = data x /\ contiguous_tensor out) /\
  (exists out,
     tile (Single x) 1 (-1) = Ok (Single out) /\
     size out = size x /\ data out = data x /\ contiguous_tensor out).
Proof.
  intros x. split.
  - apply (tile_once_is_the_identity Z x 0%Z 0).
    + reflexivity.
    + intros _. split; reflexivity.
    + reflexivity.
    + cbn. lia.
  - apply (tile_once_is_the_identity Z x (-1)%Z 1).
    + reflexivity.
    + discriminate.
    + reflexivity.
    + cbn. lia.
Defined.

(** X23: tiling [a] times and then [b] times along one axis gives a tensor
    of the size and with the elements of tiling [a * b] times, for
    [a >= 1] and a tensor with at least one row on that axis, contiguous
    when the axis is named by [dim = 0]: the copies of a row stay next to
    each other at each step, and the first result is contiguous, so that
    the second call does not fail in [view]. *)
Theorem tile_twice_is_tile_of_the_product
    (A : Type) (x : Tensor A) (a b : nat) (dim : Z) (d : nat) :
  wf_tensor x -> (dim = 0%Z -> contiguous_tensor x) ->
  py_index (length (size x)) dim = Ok d ->
  0 < nth d (size x) 0 -> 0 < a ->
  exists y out1 out2,
    tile (Single x) a dim = Ok (Single y) /\
    tile (Single y) b dim = Ok (Single out1) /\
    tile (Single x) (a * b) dim = Ok (Single out2) /\
    size out1 = size out2 /\ data out1 = data out2.
Proof.
  intros Hwf Hcx Hpy Hpos Ha.
  destruct (tile_tensor_twice x a b dim d Hwf Hcx Hpy Hpos Ha)
    as [y [out1 [out2 [E1 [E2 [E3 H]]]]]].
  exists y, out1, out2. cbn [tile]. now rewrite E1, E2, E3.
Qed.

Lemma tile_twice_is_tile_of_the_product_witness :
  let x : Tensor Z := mk_tensor [2; 2] [2; 1] [1; 2; 3; 4]%Z in
  exists y out1 out2,
    tile (Single x) 2 0 = Ok (Single y) /\
    tile (Single y) 3 0 = Ok (Single out1) /\
    tile (Single x) (2 * 3) 0 = Ok (Single out2) /\
    size out1 = size out2 /\ data out1 = data out2.
Proof.
  intros x. apply (tile_twice_is_tile_of_the_product Z x 2 3 0%Z 0).
  - reflexivity.
  - intros _. split; reflexivity.
  - reflexivity.
  - cbn. lia.
  - lia.
Defined.

(** X24: [tile] raises IndexError when [dim] names no axis of the tensor
    (it may count from the end, from [-rank] to [rank - 1]; a tensor of
    rank 0 has no axis at all), and RuntimeError when the axis it names has
    no row, whatever [count] is; a pair whose first member fails fails in
    the same way. *)
Theorem tile_raises_off_axis_and_on_empty_axis
    (A : Type) (x : Tensor A) (count : nat) (dim : Z) :
  ((dim < - Z.of_nat (length (size x)) \/
    Z.of_nat (length (size x)) <= dim)%Z ->
   tile (Single x) count dim = Raise IndexError /\
   forall c : State A,
     tile (Paired (Single x) c) count dim = Raise IndexError) /\
  (forall d, wf_tensor x -> py_index (length (size x)) dim = Ok d ->
             nth d (size x) 0 = 0 ->
             tile (Single x) count dim = Raise RuntimeError /\
             forall c : State A,
               tile (Paired (Single x) c) count dim = Raise RuntimeError).
Proof.
  split.
  - intros H. cbn [tile]. rewrite (tile_tensor_off_axis x count dim H).
    split; [reflexivity|]. intros c. reflexivity.
  - intros d Hwf Hpy Hb. cbn [tile].
    rewrite (tile_tensor_empty_axis x count dim d Hwf Hpy Hb).
    split; [reflexivity|]. intros c. reflexivity.
Qed.

Lemma tile_raises_off_axis_and_on_empty_axis_witness :
  let x : Tensor Z := mk_tensor [2; 3] [3; 1] [1; 2; 3; 4; 5; 6]%Z in
  tile (Single x) 4 2 = Raise IndexError.
Proof.
  intros x.
  apply (proj1 (tile_raises_off_axis_and_on_empty_axis Z x 4 2%Z)).
  right. cbn. lia.
Defined.


(** ** load_data: the vocabulary limit it passes on *)

Section LoadDataFacts.
Variables UNK_TOKEN PAD_TOKEN BOS_TOKEN EOS_TOKEN : string.
Variable Vocabulary : Type.
Variable Vocabulary_tokens : list string -> Vocabulary.
Variable Vocabulary_file : string -> result Vocabulary.
Variable W : Type.
Variable strip : string -> string.
Variable split_space : string -> list string.
Variable float : string -> option W.
Variable np_exp : W -> W.
Variable Field : (string -> list string) -> bool -> string -> list string.
Variable TranslationDataset :
  string -> string * string ->
  (string -> list string) * (string -> list string) ->
  option (Example W -> bool) -> result (Dataset W).
Variable open : string -> list string.
Variable expanduser : string -> string.
Variable isfile : string -> bool.
Variable list_chars : string -> list string.
Variable split_whitespace : string -> list string.

Local Abbreviation load :=
  (load_data UNK_TOKEN PAD_TOKEN BOS_TOKEN EOS_TOKEN Vocabulary
             Vocabulary_tokens Vocabulary_file W strip split_space float
             np_exp Field TranslationDataset open expanduser isfile
             list_chars split_whitespace).

Lemma load_data_needs_limit_or_files (data_cfg : DataCfg) :
  (dict_get (cfg_voc_limit data_cfg) (-1) < 0)%Z ->
  match load data_cfg with
  | Ok _ => cfg_src_vocab data_cfg <> None /\ cfg_trg_vocab data_cfg <> None
  | Raise _ => True
  end.
Proof.
  intros Hneg. unfold load_data.
  match goal with
  | |- context [bind ?t _] => destruct t as [train_data|e]
  end; cbn [bind]; [|exact I].
  destruct (cfg_src_vocab data_cfg) as [f|].
  2:{ now rewrite build_vocab_negative. }
  cbn [build_vocab]. destruct (Vocabulary_file f); cbn [bind]; [|exact I].
  destruct (cfg_trg_vocab data_cfg) as [g|].
  2:{ now rewrite build_vocab_negative. }
  match goal with
  | |- match ?t with _ => _ end => destruct t
  end; [|exact I].
  split; discriminate.
Qed.

Lemma load_data_default_limit_fails (data_cfg : DataCfg) :
  (dict_get (cfg_voc_limit data_cfg) (-1) < 0)%Z ->
  cfg_weights data_cfg = None ->
  cfg_src_vocab data_cfg = None ->
  (exists train_data,
     TranslationDataset (cfg_train data_cfg)
       ("." ++ cfg_src data_cfg, "." ++ cfg_trg data_cfg)%string
       (Field (if String.eqb (cfg_level data_cfg) "char"
               then list_chars else split_whitespace)
              (cfg_lowercase data_cfg),
        Field (if String.eqb (cfg_level data_cfg) "char"
               then list_chars else split_whitespace)
              (cfg_lowercase data_cfg))
       (Some (max_length_pred (cfg_max_sent_length data_cfg)))
     = Ok train_data) ->
  load data_cfg = Raise AssertionError.
Proof.
  intros Hneg Hw Hv [train_data E]. unfold load_data.
  rewrite Hw, E, Hv. cbn [bind].
  now rewrite build_vocab_negative.
Qed.

End LoadDataFacts.

(** X25: [load_data] reads the vocabulary limit with
    [data_cfg.get("voc_limit", -1)] and hands it to [build_vocab] as
    [max_size]: when the key is missing (or negative) it returns only if
    both vocabulary files are configured, and with no source vocabulary
    file it raises AssertionError as soon as the training data is loaded,
    whatever the data holds. *)
Theorem load_data_without_voc_limit_needs_vocab_files
    (UNK_TOKEN PAD_TOKEN BOS_TOKEN EOS_TOKEN : string) (Vocabulary : Type)
    (Vocabulary_tokens : list string -> Vocabulary)
    (Vocabulary_file : string -> result Vocabulary) (W : Type)
    (strip : string -> string) (split_space : string -> list string)
    (float : string -> option W) (np_exp : W -> W)
    (Field : (string -> list string) -> bool -> string -> list string)
    (TranslationDataset :
       string -> string * string ->
       (string -> list string) * (string -> list string) ->
       option (Example W -> bool) -> result (Dataset W))
    (open : string -> list string) (expanduser : string -> string)
    (isfile : string -> bool)
    (list_chars split_whitespace : string -> list string)
    (data_cfg : DataCfg) :
  let load :=
    load_data UNK_TOKEN PAD_TOKEN BOS_TOKEN EOS_TOKEN Vocabulary
              Vocabulary_tokens Vocabulary_file W strip split_space float
              np_exp Field TranslationDataset open expanduser isfile
              list_chars split_whitespace in
  (dict_get (cfg_voc_limit data_cfg) (-1) < 0)%Z ->
  (forall r, load data_cfg = Ok r ->
             cfg_src_vocab data_cfg <> None /\
             cfg_trg_vocab data_cfg <> None) /\
  (cfg_weights data_cfg = None ->
   cfg_src_vocab data_cfg = None ->
   (exists train_data,
      TranslationDataset (cfg_train data_cfg)
        ("." ++ cfg_src data_cfg, "." ++ cfg_trg data_cfg)%string
        (Field (if String.eqb (cfg_level data_cfg) "char"
                then list_chars else split_whitespace)
               (cfg_lowercase data_cfg),
         Field (if String.eqb (cfg_level data_cfg) "char"
                then list_chars else split_whitespace)
               (cfg_lowercase data_cfg))
        (Some (max_length_pred (cfg_max_sent_length data_cfg)))
      = Ok train_data) ->
   load data_cfg = Raise AssertionError).
Proof.
  intros load Hneg. split.
  - intros r E.
    pose proof (load_data_needs_limit_or_files
                  UNK_TOKEN PAD_TOKEN BOS_TOKEN EOS_TOKEN Vocabulary
                  Vocabulary_tokens Vocabulary_file W strip split_space float
                  np_exp Field TranslationDataset open expanduser isfile
                  list_chars split_whitespace data_cfg Hneg) as H.
    unfold load in E. now rewrite E in H.
  - now apply load_data_default_limit_fails.
Qed.

Lemma load_data_without_voc_limit_needs_vocab_files_witness :
  let data_cfg :=
    mk_data_cfg "de" "en" "data/train" None "data/dev" None "word" false 50
                None None None None None in
  load_data "<unk>" "<pad>" "<s>" "</s>" (list string) (fun l => l)
            (fun _ => Raise RuntimeError) Q ascii_strip
            (fun s => split_on_space s EmptyString) float_of_numeral
            (fun w => w) (fun tok _ => tok)
            (fun _ _ _ _ =>
               Ok (mk_dataset [mk_example ["a"; "b"]%string ["c"]%string None]))
            (fun _ => []) (fun p => p) (fun _ => false)
            (fun s => [s]) (fun s => split_on_space s EmptyString)
            data_cfg
  = Raise AssertionError.
Proof.
  intros data_cfg.
  apply (proj2 (load_data_without_voc_limit_needs_vocab_files
                  "<unk>" "<pad>" "<s>" "</s>" (list string) (fun l => l)
                  (fun _ => Raise RuntimeError) Q ascii_strip
                  (fun s => split_on_space s EmptyString) float_of_numeral
                  (fun w => w) (fun tok _ => tok)
                  (fun _ _ _ _ =>
                     Ok (mk_dataset
                           [mk_example ["a"; "b"]%string ["c"]%string None]))
                  (fun _ => []) (fun p => p) (fun _ => false)
                  (fun s => [s]) (fun s => split_on_space s EmptyString)
                  data_cfg ltac:(cbn; lia))).
  - reflexivity.
  - reflexivity.
  - eexists. reflexivity.
Defined.


(** ** token_accuracy: what it divides by *)

Lemma split_loop_space_length (s cur : string) :
  length (split_loop " " s 0 cur) = 1 + count_char " " s.
Proof.
  revert cur; induction s as [|c s IH]; intros cur; [reflexivity|].
  cbn [split_loop count_char String.prefix String.length Nat.sub].
  destruct (ascii_dec " " c) as [<-|Hne].
  - assert (P : String.prefix "" s = true) by (destruct s; reflexivity).
    rewrite P. cbn [length]. rewrite IH, Ascii.eqb_refl. reflexivity.
  - rewrite IH. destruct (Ascii.eqb_spec c " "); [congruence|reflexivity].
Qed.

Lemma count_equal_same (l : list string) (c : Z) :
  count_equal l l c = (c + Z.of_nat (length l))%Z.
Proof.
  unfold count_equal. revert c; induction l as [|x l IH]; intros c.
  - cbn. lia.
  - cbn [combine fold_left fst snd length]. rewrite String.eqb_refl, IH. lia.
Qed.

(** X27: [token_accuracy] divides the number of matching tokens by the
    number of characters of the hypotheses ([len(h)] of a string), not by
    their number of tokens: a list of sentences compared with itself at
    level "word" or "bpe" scores 100 times its pieces over its characters,
    and 0 when it has no character; so ["ab cd"] against itself scores 40
    and not 100, and a list holding an empty sentence can score more than
    100. *)
Theorem token_accuracy_divides_by_characters :
  (forall (sentences : list string) (level : string),
     level = "word"%string \/ level = "bpe"%string ->
     token_accuracy sentences sentences level =
     Ok (if (0 <? characters_of sentences)%Z
         then (inject_Z (pieces_of sentences)
               / inject_Z (characters_of sentences) * 100)%Q
         else 0%Q)) /\
  (exists a, token_accuracy ["ab cd"]%string ["ab cd"]%string "word" = Ok a /\
             (a == 40)%Q) /\
  (exists a, token_accuracy [""; "a"]%string [""; "a"]%string "word" = Ok a /\
             (a == 200)%Q).
Proof.
  split; [|split; eexists; (split; [vm_compute; reflexivity|reflexivity])].
  intros sentences level Hlev. unfold token_accuracy.
  rewrite Nat.eqb_refl. cbn [assert bind].
  destruct (split_char_cases level) as [[_ ->]|[[H1 H2] _]];
    [|destruct Hlev; contradiction].
  rewrite (for_each_ok _
    (fun st hr =>
       (count_equal (split_loop " " (fst hr) 0 EmptyString)
                    (split_loop " " (snd hr) 0 EmptyString) (fst st),
        (snd st + Z.of_nat (String.length (fst hr)))%Z)))
    by reflexivity.
  cbn [bind].
  assert (G : forall (l : list string) (a b : Z),
    fold_left
      (fun st hr =>
         (count_equal (split_loop " " (fst hr) 0 EmptyString)
                      (split_loop " " (snd hr) 0 EmptyString) (fst st),
          (snd st + Z.of_nat (String.length (fst hr)))%Z))
      (combine l l) (a, b)
    = ((a + pieces_of l)%Z, (b + characters_of l)%Z)).
  { unfold pieces_of, characters_of.
    induction l as [|h l IH]; intros a b.
    - cbn. f_equal; lia.
    - cbn [combine fold_left fst snd map].
      rewrite count_equal_same, split_loop_space_length, IH.
      change (list_sum (?x :: ?t)) with (x + list_sum t).
      f_equal; lia. }
  rewrite G. cbn [fst snd]. rewrite !Z.add_0_l.
  destruct (0 <? characters_of sentences)%Z; reflexivity.
Qed.

Lemma token_accuracy_divides_by_characters_witness :
  token_accuracy ["the cat"; "sat"]%string ["the cat"; "sat"]%string "bpe" =
  Ok (if (0 <? characters_of ["the cat"; "sat"]%string)%Z
      then (inject_Z (pieces_of ["the cat"; "sat"]%string)
            / inject_Z (characters_of ["the cat"; "sat"]%string) * 100)%Q
      else 0%Q).
Proof.
  apply (proj1 token_accuracy_divides_by_characters
               ["the cat"; "sat"]%string "bpe"%string).
  now right.
Defined.


(** ** token_recall_reward: the gold row as a set *)

Lemma contains_of_same_ids (g1 g2 : list Z) (p_i : Z) :
  (forall z, In z g1 <-> In z g2) -> contains g1 p_i = contains g2 p_i.
Proof.
  intros H. unfold contains.
  destruct (existsb (Z.eqb p_i) g2) eqn:E.
  - apply existsb_exists in E. destruct E as [z [Hz Ez]].
    apply existsb_exists. exists z. split; [now apply H|exact Ez].
  - destruct (existsb (Z.eqb p_i) g1) eqn:E1; [|reflexivity].
    apply existsb_exists in E1. destruct E1 as [z [Hz Ez]].
    rewrite <- E. symmetry. apply existsb_exists. exists z.
    split; [now apply H|exact Ez].
Qed.

(** X26: [token_recall_reward] takes each gold row as a set of ids: two
    gold grids with as many rows whose rows hold the same ids, in whatever
    order and however often, give the same rewards for every prediction;
    the positions of the gold ids and the width of the gold grid play no
    part. *)
Theorem token_recall_reward_ignores_gold_order
    (gold1 gold2 pred : ndarray Z) :
  Forall2 (fun g1 g2 => forall z, In z g1 <-> In z g2)
          (rows gold1) (rows gold2) ->
  token_recall_reward gold1 pred = token_recall_reward gold2 pred.
Proof.
  intros H. unfold token_recall_reward. f_equal.
  unfold enumerate. generalize 0 as a. generalize (zeros_like pred) as r.
  generalize (rows pred) as ps.
  induction H as [|g1 g2 gs1 gs2 Hg _ IH]; intros ps r a; [reflexivity|].
  destruct ps as [|p ps]; [reflexivity|].
  cbn [combine]. rewrite !enumerate_from_cons. cbn [fold_left].
  rewrite IH. f_equal.
  unfold recall_row.
  apply fold_left_ext. intros r' [k p_i]. unfold recall_cell.
  now rewrite (contains_of_same_ids g1 g2 p_i Hg).
Qed.

Lemma token_recall_reward_ignores_gold_order_witness :
  token_recall_reward (mk_ndarray (1, 3) [[1; 2; 3]%Z]) (grid_1x3 3 9 1) =
  token_recall_reward (mk_ndarray (1, 4) [[3; 3; 2; 1]%Z]) (grid_1x3 3 9 1).
Proof.
  apply (token_recall_reward_ignores_gold_order
           (mk_ndarray (1, 3) [[1; 2; 3]%Z])
           (mk_ndarray (1, 4) [[3; 3; 2; 1]%Z]) (grid_1x3 3 9 1)).
  constructor; [|constructor].
  intros z. cbn. intuition lia.
Defined.
